(** * ProgressTable: the client's live table of profile events

    A shallow embedding of [src/Client/ProgressTable.h] and
    [src/Client/ProgressTable.cpp], with the properties of its metric
    bookkeeping, rate smoothing, ordering and rendering.

    Conventions of the embedding:
    - [Int64] is a [Z] kept in the signed 64-bit range by [wrap64];
    - [size_t] is a [nat]: every [size_t] of the program is the length of a
      string held in memory, a terminal width or a count of list nodes, and
      every subtraction on them is guarded by a comparison in the source;
    - the C++ [double] is a type [T] with the operations of the class
      [Double].  The instance of the program is IEEE 754 binary64 (the
      kernel's primitive floats), on which the code is evaluated exactly.
      The properties are proved for every instance of the class, with the
      comparisons as the code computes them, or for binary64 from the
      specification of its operations.  Exact rational arithmetic ([Q]) is
      a second instance: it has no rounding, no infinity and no NaN, and
      what is proved on it is stated beside the binary64 reading, never in
      its place;
    - a [std::string] is a [string] of bytes;
    - the stopwatch, the terminal width, the catalog of profile events and
      the [formatReadable*] functions live outside these two files: they are
      arguments of the operations or variables of their sections. *)

From Stdlib Require Import ZArith QArith Qround Qabs Qminmax Lqa Lia.
From Stdlib Require Import List String Ascii DecimalString Floats.
From Stdlib Require Import Sorting.Permutation Sorting.Sorted.
From Stdlib Require OrderedTypeEx.
From stdpp Require Import gmap strings.

Set Default Proof Using "Type".

(** ** Machine numbers *)

(** Signed 64-bit wrap-around of an integer. *)
Definition wrap64 (z : Z) : Z :=
  ((z + 2 ^ 63) mod 2 ^ 64 - 2 ^ 63)%Z.

(** The operations the program uses on [double].  [of_Int64] is the
    conversion of an integer to [double], [dlit] reads a decimal literal of
    the source, given as the fraction it denotes. *)
Class Double (T : Type) := {
  dadd : T -> T -> T;
  dsub : T -> T -> T;
  dmul : T -> T -> T;
  ddiv : T -> T -> T;
  dltb : T -> T -> bool;
  dleb : T -> T -> bool;
  deqb : T -> T -> bool;
  dfloor : T -> T;
  dfabs : T -> T;
  of_Int64 : Z -> T;
  dlit : Q -> T
}.

(** Exact arithmetic.  It differs from the arithmetic of the program
    wherever binary64 rounds: the doubles nearest to 0.6 and 0.1 differ by
    less than 0.5 and their binary64 difference is 0.5; [t - 1.0] is below
    [t] here for every [t] and equal to [t] in binary64 at [2^54].  [Qdiv]
    by zero is [0] where C++ gives an infinity or a NaN. *)
#[export] Instance Q_Double : Double Q := {
  dadd := Qplus;
  dsub := Qminus;
  dmul := Qmult;
  ddiv := Qdiv;
  dltb := fun a b => negb (Qle_bool b a);
  dleb := Qle_bool;
  deqb := Qeq_bool;
  dfloor := fun a => inject_Z (Qfloor a);
  dfabs := Qabs;
  of_Int64 := inject_Z;
  dlit := fun q => q
}.

Module Binary64.

(** Integer to binary64, rounded to nearest, ties to even. *)
Definition of_Z (z : Z) : float :=
  SF2Prim (binary_normalize prec emax z 0 false).

(** A decimal literal is the correctly rounded quotient of two integers
    that binary64 holds exactly. *)
Definition lit (q : Q) : float :=
  PrimFloat.div (of_Z (Qnum q)) (of_Z (Zpos (Qden q))).

(** [std::floor]. A finite binary64 with a negative exponent is below
    [2^53] in magnitude, so its floor is held exactly. *)
Definition floor (x : float) : float :=
  match Prim2SF x with
  | S754_finite s m e =>
      if (0 <=? e)%Z then x
      else of_Z ((if s then Zneg m else Zpos m) / 2 ^ (- e))%Z
  | _ => x
  end.

End Binary64.

#[export] Instance binary64_Double : Double float := {
  dadd := PrimFloat.add;
  dsub := PrimFloat.sub;
  dmul := PrimFloat.mul;
  ddiv := PrimFloat.div;
  dltb := PrimFloat.ltb;
  dleb := PrimFloat.leb;
  deqb := PrimFloat.eqb;
  dfloor := Binary64.floor;
  dfabs := PrimFloat.abs;
  of_Int64 := Binary64.of_Z;
  dlit := Binary64.lit
}.

(** [std::max(a, b)] is [(a < b) ? b : a]. *)
Definition dmax {T} `{Double T} (a b : T) : T :=
  if dltb a b then b else a.

(** ** ProfileEvents (declared in [Common/ProfileEvents.h]) *)

Module ProfileEvents.

Inductive Type_ := INCREMENT | GAUGE.

Inductive ValueType :=
  Number | Bytes | Milliseconds | Microseconds | Nanoseconds.

End ProfileEvents.

(** ** ProgressTable::MetricInfo *)

Module MetricInfo.
Section MetricInfo.
Context {T : Type} `{Double T}.

Record Snapshot := { value : Z; time : T }.

Record t := {
  type : ProfileEvents.Type_;
  prev_shapshot : Snapshot;
  cur_shapshot : Snapshot;
  new_snapshot : Snapshot;
  update_time : T
}.

(** [MetricInfo(ProfileEvents::Type t)], with the member initialisers of
    the header. *)
Definition new (ty : ProfileEvents.Type_) : t :=
  let zero := {| value := 0; time := dlit 0 |} in
  {| type := ty;
     prev_shapshot := zero;
     cur_shapshot := zero;
     new_snapshot := zero;
     update_time := dlit 0 |}.

Definition updateValue (m : t) (new_value : Z) (new_time : T) : t :=
  (* If the value has not been updated for a long time, reset the time in
     snapshots to one second ago. *)
  let stale :=
    dleb (dlit (1 # 2)) (dsub new_time (time (new_snapshot m)))
    || deqb (time (new_snapshot m)) (dlit 0) in
  let rebased :=
    {| value := value (new_snapshot m); time := dsub new_time (dlit 1) |} in
  let prev1 := if stale then rebased else prev_shapshot m in
  let cur1 := if stale then rebased else cur_shapshot m in
  let new_val :=
    match type m with
    | ProfileEvents.INCREMENT => wrap64 (value (new_snapshot m) + new_value)
    | ProfileEvents.GAUGE => new_value
    end in
  let new1 := {| value := new_val; time := new_time |} in
  let rotate := dleb (dlit (1 # 2)) (dsub (time new1) (time cur1)) in
  (* prev_shapshot = std::exchange(cur_shapshot, new_snapshot) *)
  {| type := type m;
     prev_shapshot := if rotate then cur1 else prev1;
     cur_shapshot := if rotate then new1 else cur1;
     new_snapshot := new1;
     update_time := new_time |}.

(** The [chassert(now >= update_time)] of the source is compiled out of
    release builds; it is a precondition, not part of the result. *)
Definition isFresh (m : t) (now : T) : bool :=
  let freshness_threshold := dlit 3 in
  negb (deqb (update_time m) (dlit 0))
  && dleb (dsub now (update_time m)) freshness_threshold.

Definition calculateProgress (m : t) (time_now : T) : T :=
  (* If the value has not been updated for a long time, the progress is 0. *)
  if dleb (dlit (1 # 2)) (dsub time_now (time (new_snapshot m)))
  then dlit 0
  else ddiv (of_Int64 (wrap64 (value (cur_shapshot m) - value (prev_shapshot m))))
            (dsub (time (cur_shapshot m)) (time (prev_shapshot m))).

Definition getValue (m : t) : T := of_Int64 (value (new_snapshot m)).

(** A series after a sequence of [updateValue] calls, oldest first. *)
Definition updates (m : t) (samples : list (Z * T)) : t :=
  fold_left (fun m s => updateValue m (fst s) (snd s)) samples m.

End MetricInfo.
End MetricInfo.

(** ** ProgressTable::MetricInfoPerHost *)

Module MetricInfoPerHost.
Section MetricInfoPerHost.
Context {T : Type} `{Double T}.

(** [host_to_metric] is a [std::unordered_map]: its keys are unique.
    [std::accumulate] visits it in the order of its hash table, the folds
    below in the order of the keys.  A sum in [double] depends on that order
    once it rounds, so the properties use the sums as functions of the map
    and in no way that depends on the order of the visit. *)
Record t := {
  host_to_metric : gmap string (@MetricInfo.t T);
  max_progress : T
}.

(** [MetricInfoPerHost{}]. *)
Definition new : t :=
  {| host_to_metric := ∅; max_progress := dlit 0 |}.

Definition updateHostValue (h : t) (host : string)
    (type : ProfileEvents.Type_) (new_value : Z) (new_time : T) : t :=
  let info :=
    match host_to_metric h !! host with
    | Some info => info
    | None => MetricInfo.new type
    end in
  {| host_to_metric :=
       <[host := MetricInfo.updateValue info new_value new_time]> (host_to_metric h);
     max_progress := max_progress h |}.

Definition getSummaryValue (h : t) : T :=
  map_fold (fun _ info acc => dadd acc (MetricInfo.getValue info))
           (dlit 0) (host_to_metric h).

(** The summed rate, and the aggregate with [max_progress] updated. *)
Definition getSummaryProgress (h : t) (time_now : T) : T * t :=
  let progress :=
    map_fold (fun _ info acc => dadd acc (MetricInfo.calculateProgress info time_now))
             (dlit 0) (host_to_metric h) in
  (progress,
   {| host_to_metric := host_to_metric h;
      max_progress := dmax (max_progress h) progress |}).

Definition getMaxProgress (h : t) : T := max_progress h.

Definition isFresh (h : t) (now : T) : bool :=
  map_fold (fun _ info acc => acc || MetricInfo.isFresh info now)
           false (host_to_metric h).

(** The calls a client makes on one aggregate. *)
Inductive call :=
| UpdateHostValue (host : string) (type : ProfileEvents.Type_)
                  (new_value : Z) (new_time : T)
| GetSummaryProgress (time_now : T).

(** Runs the calls, oldest first, and collects the rates that
    [getSummaryProgress] returned, oldest first. *)
Fixpoint run (h : t) (calls : list call) : list T * t :=
  match calls with
  | [] => ([], h)
  | UpdateHostValue host type v now :: rest =>
      run (updateHostValue h host type v now) rest
  | GetSummaryProgress now :: rest =>
      let '(progress, h1) := getSummaryProgress h now in
      let '(rates, h2) := run h1 rest in
      (progress :: rates, h2)
  end.

End MetricInfoPerHost.
End MetricInfoPerHost.

(** ** Colors and column writers (the anonymous namespace) *)

Definition THREAD_GROUP_ID : N := 0.

Definition ESC : string := String "027" EmptyString.
Definition CLEAR_TO_END_OF_LINE : string := ESC +:+ "[K".
Definition CLEAR_TO_END_OF_SCREEN : string := ESC +:+ "[0J".
Definition RESET_COLOR : string := ESC +:+ "[0m".
Definition HIDE_CURSOR : string := ESC +:+ "[?25l".
Definition SHOW_CURSOR : string := ESC +:+ "[?25h".

(** [std::format] of a [size_t] with [{}]: its decimal digits. *)
Definition format_size_t (n : nat) : string :=
  NilEmpty.string_of_uint (Nat.to_uint n).

Definition moveUpNLines (n : nat) : string :=
  ESC +:+ "[" +:+ format_size_t n +:+ "A".

(** [std::upper_bound] as the C++ library computes it: a binary search for
    the first position whose element is greater than [value], by
    [less value element].  [first] and [len] delimit the part of the array
    still searched. *)
Fixpoint upper_bound_loop {V E : Type} (less : V -> E -> bool) (dflt : E)
    (a : list E) (value : V) (fuel first len : nat) : nat :=
  match fuel with
  | O => first
  | S fuel' =>
      if Nat.eqb len 0 then first
      else
        let half := Nat.div2 len in
        let middle := (first + half)%nat in
        if less value (nth middle a dflt)
        then upper_bound_loop less dflt a value fuel' first half
        else upper_bound_loop less dflt a value fuel' (S middle) (len - half - 1)
  end.

Definition upper_bound {V E : Type} (less : V -> E -> bool) (dflt : E)
    (a : list E) (value : V) : nat :=
  upper_bound_loop less dflt a value (length a) 0 (length a).

Section Colors.
Context {T : Type} `{Double T}.

Definition count_colors : list string :=
  [ ESC +:+ "[38;5;236m"; (* Dark Grey *)
    ESC +:+ "[38;5;250m"; (* Light Grey *)
    ESC +:+ "[38;5;34m";  (* Green *)
    ESC +:+ "[38;5;226m"; (* Yellow *)
    ESC +:+ "[1;33m" ].   (* Bold *)

Definition count_fractions : list T :=
  [ dlit (5 # 100); dlit (20 # 100); dlit (80 # 100); dlit (95 # 100) ].

(** The index into [colors] that [setColorForProgress] selects. *)
Definition progressTier (progress max_progress : T) : nat :=
  if deqb max_progress (dlit 0) then 0%nat
  else
    let fraction := ddiv progress max_progress in
    upper_bound dltb (dlit 0) count_fractions fraction.

Definition setColorForProgress (progress max_progress : T) : string :=
  nth (progressTier progress max_progress) count_colors EmptyString.

Definition bytes_colors : list string :=
  [ ESC +:+ "[38;5;236m"; (* Dark Grey *)
    ESC +:+ "[38;5;250m"; (* Light Grey *)
    ESC +:+ "[38;5;34m";  (* Green *)
    ESC +:+ "[38;5;226m"; (* Yellow *)
    ESC +:+ "[38;5;208m"; (* Orange *)
    ESC +:+ "[1;33m";     (* Bold *)
    ESC +:+ "[38;5;160m" ]. (* Red *)

(** Bytes, as [uint64_t]. *)
Definition bytes_thresholds : list Z :=
  [ Z.shiftl 1 20; Z.shiftl 100 20; Z.shiftl 1000 20;
    Z.shiftl 10000 20; Z.shiftl 100000 20; Z.shiftl 1000000 20 ]%Z.

(** [progress < threshold] compares a [double] with a [uint64_t], which
    C++ converts to [double]. *)
Definition setColorForBytesBasedMetricsProgress (progress : T) : string :=
  let dist :=
    upper_bound (fun v e => dltb v (of_Int64 e)) 0%Z bytes_thresholds progress in
  nth dist bytes_colors EmptyString.

(** [None] is the [LOGICAL_ERROR] exception. *)
Definition time_units (t : ProfileEvents.ValueType) : option T :=
  match t with
  | ProfileEvents.Milliseconds => Some (dlit 1000)
  | ProfileEvents.Microseconds => Some (dlit 1000000)
  | ProfileEvents.Nanoseconds => Some (dlit 1000000000)
  | _ => None
  end.

Definition setColorForTimeBasedMetricsProgress
    (value_type : ProfileEvents.ValueType) (progress : T) : option string :=
  match time_units value_type with
  | None => None
  | Some units =>
      let thresholds :=
        [ dmul (dlit (1 # 1000)) units; dmul (dlit (1 # 100)) units;
          dmul (dlit (1 # 10)) units; dmul (dlit 1) units ] in
      let dist := upper_bound dltb (dlit 0) thresholds progress in
      Some (nth dist count_colors EmptyString)
  end.

Definition setColorForDocumentation : string :=
  ESC +:+ "[38;5;236m". (* Dark Grey *)

End Colors.

(** The bytes that [writeWithWidth] appends to [out]. *)
Definition writeWithWidth (s : string) (width : nat) : string :=
  if (width <=? String.length s)%nat then s +:+ " "
  else s +:+ string_of_list_ascii (repeat " "%char (width - String.length s)).

(** The three bytes of the UTF-8 horizontal ellipsis. *)
Definition ellipsis : string :=
  String "226" (String "128" (String "166" EmptyString)).

Definition writeWithWidthStrict (s : string) (width : nat) : string :=
  if (width <? String.length s)%nat then
    if (width <=? String.length ellipsis)%nat then substring 0 width s
    else substring 0 (width - String.length ellipsis) s +:+ ellipsis
  else s.

(** ** ProgressTable *)

Module ProgressTable.

(** A row of the [Block] that [updateTable] receives: the columns
    [thread_id], [name], [host_name], [value] and [type] at one row
    number. *)
Record Row := {
  thread_id : N;
  name : string;
  host_name : string;
  value : Z;
  type : ProfileEvents.Type_ (* the [Int8] of the column, cast *)
}.

Abbreviation Block := (list Row).

(** [ProfileEvents::Event] is an index into the table of events. *)
Definition Event := nat.

Definition COLUMN_EVENT_NAME : string := "Event name".
Definition COLUMN_VALUE : string := "Value".
Definition COLUMN_PROGRESS : string := "Progress".
Definition COLUMN_DOCUMENTATION_NAME : string := "Documentation".
Definition COLUMN_VALUE_WIDTH : nat := 20.
Definition COLUMN_PROGRESS_WIDTH : nat := 20.
Definition COLUMN_DOCUMENTATION_MIN_WIDTH : nat :=
  String.length COLUMN_DOCUMENTATION_NAME.

Definition newline : string := String "010" EmptyString.

(** The comparison that [updateTable] hands to [std::sort]: by metric
    name in reverse order, then by row number. *)
Definition name_and_row_num_less (a b : string * nat) : bool :=
  if negb (String.eqb (fst a) (fst b)) then String.ltb (fst b) (fst a)
  else (snd a <? snd b)%nat.

Fixpoint sort_insert (x : string * nat) (l : list (string * nat))
    : list (string * nat) :=
  match l with
  | [] => [x]
  | y :: l' =>
      if name_and_row_num_less y x then y :: sort_insert x l'
      else x :: y :: l'
  end.

(** [std::sort] with that comparison.  The row numbers of the list are
    distinct, so the comparison is a strict total order on its elements and
    the sorted list does not depend on the sorting algorithm
    (see [sort_unique]). *)
Definition sort (l : list (string * nat)) : list (string * nat) :=
  foldr sort_insert [] l.

Section ProgressTable.
Context {T : Type} `{Double T}.

(** What the two files take from the rest of the program. *)
Variable event_name_to_event : gmap string Event.
Variable getValueType : Event -> ProfileEvents.ValueType.
Variable getDocumentation : Event -> string.
Variable formatReadableQuantity : T -> nat -> string.
Variable formatReadableSizeWithDecimalSuffix : T -> string.
Variable formatReadableTime : T -> string.

Definition formatReadableValue
    (value_type : ProfileEvents.ValueType) (value : T) : string :=
  match value_type with
  | ProfileEvents.Number =>
      formatReadableQuantity value
        (if deqb (dfloor value) value && dltb (dfabs value) (dlit 1000)
         then 0 else 2)%nat
  | ProfileEvents.Bytes => formatReadableSizeWithDecimalSuffix value
  | ProfileEvents.Nanoseconds => formatReadableTime value
  | ProfileEvents.Microseconds => formatReadableTime (dmul value (dlit 1000))
  | ProfileEvents.Milliseconds => formatReadableTime (dmul value (dlit 1000000))
  end.

Definition Metric : Type := string * @MetricInfoPerHost.t T.

(** [metrics] is the [std::list] of the header, front first.
    [metrics_iterators] maps a name to the iterator of its node in
    [metrics]; a node is never erased by itself and its name never
    changes, so the iterator stored under a name designates the node of
    that name, and the map is its set of keys. *)
Record t := {
  metrics : list Metric;
  metrics_iterators : gset string;
  column_event_name_width : nat
}.

(** The table as its constructor leaves it. *)
Definition new : t :=
  {| metrics := []; metrics_iterators := ∅; column_event_name_width := 20 |}.

(** [metrics.splice(metrics.begin(), metrics, it)] for the iterator [it]
    of the node named [n]: the node moves to the front. *)
Fixpoint splice_front_rec (n : string) (seen rest : list Metric)
    : list Metric :=
  match rest with
  | [] => rev seen
  | e :: rest' =>
      if String.eqb (fst e) n then e :: rev seen ++ rest'
      else splice_front_rec n (e :: seen) rest'
  end.

Definition splice_front (n : string) (l : list Metric) : list Metric :=
  splice_front_rec n [] l.

(** The first loop of [updateTable]: the rows of the thread group, each
    with its row number, from row [row_num] on. *)
Fixpoint name_and_row_num_from (row_num : nat) (rows : list Row)
    : list (string * nat) :=
  match rows with
  | [] => []
  | r :: rows' =>
      if N.eqb (thread_id r) THREAD_GROUP_ID
      then (name r, row_num) :: name_and_row_num_from (S row_num) rows'
      else name_and_row_num_from (S row_num) rows'
  end.

(** The body of the second loop, on the local state of [updateTable]:
    the list, the iterators and [max_event_name_width]. *)
Definition update_row (block : Block) (time_now : T)
    (acc : list Metric * gset string * nat) (p : string * nat)
    : list Metric * gset string * nat :=
  let '(ms, its, max_event_name_width) := acc in
  let '(name, row_num) := p in
  match block !! row_num with
  | None => acc
  | Some r =>
      if negb (N.eqb (thread_id r) THREAD_GROUP_ID) then acc
      (* Got unexpected event name. *)
      else if negb (bool_decide (is_Some (event_name_to_event !! name))) then acc
      (* Store non-zero values. *)
      else if Z.eqb (value r) 0 then acc
      else
        let found := bool_decide (name ∈ its) in
        let ms1 :=
          if found then splice_front name ms
          else (name, MetricInfoPerHost.new) :: ms in
        let its1 := if found then its else {[name]} ∪ its in
        let ms2 :=
          match ms1 with
          | [] => []
          | (n, info) :: rest =>
              (n, MetricInfoPerHost.updateHostValue
                    info (host_name r) (type r) (value r) time_now) :: rest
          end in
        (ms2, its1, Nat.max max_event_name_width (String.length name))
  end.

(** [time_now] is [watch.elapsedSeconds()]. *)
Definition updateTable (st : t) (block : Block) (time_now : T) : t :=
  let name_and_row_num_list := sort (name_and_row_num_from 0 block) in
  let '(ms, its, max_event_name_width) :=
    fold_left (update_row block time_now) name_and_row_num_list
              (metrics st, metrics_iterators st, String.length COLUMN_EVENT_NAME) in
  {| metrics := ms;
     metrics_iterators := its;
     column_event_name_width := (max_event_name_width + 1)%nat |}.

(** The stopwatch is outside the table: restarting it shows in the
    [time_now] of the later calls. *)
Definition resetTable (st : t) : t :=
  {| metrics := [];
     metrics_iterators := ∅;
     column_event_name_width := column_event_name_width st |}.

Definition getFreshMetricsCount (st : t) (time_now : T) : nat :=
  let count :=
    length (List.filter (fun e : Metric => MetricInfoPerHost.isFresh (snd e) time_now)
                        (metrics st)) in
  (* Number of lines + header. *)
  if Nat.eqb count 0 then 0%nat else (count + 1)%nat.

Definition getColumnDocumentationWidth (st : t) (terminal_width : nat) : nat :=
  let fixed_columns_width :=
    (column_event_name_width st + COLUMN_VALUE_WIDTH + COLUMN_PROGRESS_WIDTH)%nat in
  if (terminal_width <? fixed_columns_width + COLUMN_DOCUMENTATION_MIN_WIDTH)%nat
  then 0%nat
  else (terminal_width - fixed_columns_width)%nat.

(** The loop of [writeTable] over [metrics]: the bytes written and the
    list with the [max_progress] that [getSummaryProgress] updated.
    [None] is an exception: [at] on a name that is not an event, or the
    [LOGICAL_ERROR] of the time colors. *)
Fixpoint write_rows (st : t) (col_doc_width : nat) (elapsed_sec : T)
    (ms : list Metric) : option (string * list Metric) :=
  match ms with
  | [] => Some (EmptyString, [])
  | (name, per_host_info) :: rest =>
      if negb (MetricInfoPerHost.isFresh per_host_info elapsed_sec) then
        '(out, rest') ← write_rows st col_doc_width elapsed_sec rest;
        Some (out, (name, per_host_info) :: rest')
      else
        let value := MetricInfoPerHost.getSummaryValue per_host_info in
        event ← event_name_to_event !! name;
        let value_type := getValueType event in
        (* Get the maximum progress before it is updated in getSummaryProgress. *)
        let max_progress := MetricInfoPerHost.getMaxProgress per_host_info in
        let '(progress, per_host_info') :=
          MetricInfoPerHost.getSummaryProgress per_host_info elapsed_sec in
        color ←
          match value_type with
          | ProfileEvents.Number => Some (setColorForProgress progress max_progress)
          | ProfileEvents.Bytes => Some (setColorForBytesBasedMetricsProgress progress)
          | _ => setColorForTimeBasedMetricsProgress value_type progress
          end;
        let line :=
          newline
          +:+ writeWithWidth name (column_event_name_width st)
          +:+ writeWithWidth (formatReadableValue value_type value) COLUMN_VALUE_WIDTH
          +:+ color
          +:+ writeWithWidth (formatReadableValue value_type progress +:+ "/s")
                             COLUMN_PROGRESS_WIDTH
          +:+ (if Nat.eqb col_doc_width 0 then EmptyString
               else setColorForDocumentation
                    +:+ writeWithWidthStrict (getDocumentation event) col_doc_width)
          +:+ RESET_COLOR
          +:+ CLEAR_TO_END_OF_LINE in
        '(out, rest') ← write_rows st col_doc_width elapsed_sec rest;
        Some (line +:+ out, (name, per_host_info') :: rest')
  end.

(** The bytes appended to [message] and the table afterwards.
    [terminal_width] is [getTerminalWidth(in_fd, err_fd)] and
    [elapsed_sec] is [watch.elapsedSeconds()]. *)
Definition writeTable (st : t) (terminal_width : nat) (elapsed_sec : T)
    (show_table toggle_enabled : bool) : option (string * t) :=
  if negb show_table && toggle_enabled then
    Some (CLEAR_TO_END_OF_SCREEN
          +:+ HIDE_CURSOR
          +:+ newline
          +:+ "Press the space key to toggle the display of the progress table."
          +:+ moveUpNLines 1,
          st)
  else if (terminal_width
           <? column_event_name_width st + COLUMN_VALUE_WIDTH + COLUMN_PROGRESS_WIDTH)%nat
  then Some (EmptyString, st)
  else if bool_decide (metrics st = []) then Some (EmptyString, st)
  else
    let col_doc_width := getColumnDocumentationWidth st terminal_width in
    let header :=
      HIDE_CURSOR
      +:+ newline
      +:+ writeWithWidth COLUMN_EVENT_NAME (column_event_name_width st)
      +:+ writeWithWidth COLUMN_VALUE COLUMN_VALUE_WIDTH
      +:+ writeWithWidth COLUMN_PROGRESS COLUMN_PROGRESS_WIDTH
      +:+ (if Nat.eqb col_doc_width 0 then EmptyString
           else writeWithWidth COLUMN_DOCUMENTATION_NAME col_doc_width)
      +:+ CLEAR_TO_END_OF_LINE in
    '(rows, ms) ← write_rows st col_doc_width elapsed_sec (metrics st);
    let st' :=
      {| metrics := ms;
         metrics_iterators := metrics_iterators st;
         column_event_name_width := column_event_name_width st |} in
    Some (header +:+ rows +:+ moveUpNLines (getFreshMetricsCount st' elapsed_sec),
          st').

(** One row of the final table. [None] is the exception of [at]. *)
Definition final_row (st : t) (e : Metric) : option string :=
  let value := MetricInfoPerHost.getSummaryValue (snd e) in
  event ← event_name_to_event !! fst e;
  let value_type := getValueType event in
  Some (newline
        +:+ writeWithWidth (fst e) (column_event_name_width st)
        +:+ writeWithWidth (formatReadableValue value_type value) COLUMN_VALUE_WIDTH).

Fixpoint final_rows (st : t) (ms : list Metric) : option string :=
  match ms with
  | [] => Some EmptyString
  | e :: rest =>
      row ← final_row st e;
      out ← final_rows st rest;
      Some (row +:+ out)
  end.

(** The bytes appended to [output_stream]; the table is not changed. *)
Definition writeFinalTable (st : t) (terminal_width : nat) : option string :=
  if (terminal_width <? column_event_name_width st + COLUMN_VALUE_WIDTH)%nat
  then Some EmptyString
  else if bool_decide (metrics st = []) then Some EmptyString
  else
    rows ← final_rows st (metrics st);
    Some (newline
          +:+ writeWithWidth COLUMN_EVENT_NAME (column_event_name_width st)
          +:+ writeWithWidth COLUMN_VALUE COLUMN_VALUE_WIDTH
          +:+ rows).

Definition clearTableOutput : string :=
  String "013" EmptyString +:+ CLEAR_TO_END_OF_SCREEN +:+ SHOW_CURSOR.

(** *** Vocabulary of the properties *)

(** A row that [updateTable] stores: of the thread group, of a known
    event, with a value that is not zero. *)
Definition accepted (r : Row) : bool :=
  N.eqb (thread_id r) THREAD_GROUP_ID
  && bool_decide (is_Some (event_name_to_event !! name r))
  && negb (Z.eqb (value r) 0).

(** What [update_row] does with a row, read off the row alone. *)
Definition store_row (time_now : T)
    (acc : list Metric * gset string * nat) (r : Row)
    : list Metric * gset string * nat :=
  let '(ms, its, max_event_name_width) := acc in
  if negb (accepted r) then acc
  else
    let found := bool_decide (name r ∈ its) in
    let ms1 :=
      if found then splice_front (name r) ms
      else (name r, MetricInfoPerHost.new) :: ms in
    let its1 := if found then its else {[name r]} ∪ its in
    let ms2 :=
      match ms1 with
      | [] => []
      | (n, info) :: rest =>
          (n, MetricInfoPerHost.updateHostValue
                info (host_name r) (type r) (value r) time_now) :: rest
      end in
    (ms2, its1, Nat.max max_event_name_width (String.length (name r))).

(** The names of the list, front first. *)
Definition names (st : t) : list string := map fst (metrics st).

(** The aggregate registered under a name. *)
Definition lookup_metric (n : string) (st : t) : option (@MetricInfoPerHost.t T) :=
  snd <$> List.find (fun e : Metric => String.eqb (fst e) n) (metrics st).

(** The invariant of the second loop of [updateTable]: the names of the
    list are distinct, they are the keys of the iterators, and they are
    events. *)
Definition linked (ms : list Metric) (its : gset string) : Prop :=
  List.NoDup (map fst ms)
  /\ (forall n, n ∈ its <-> In n (map fst ms))
  /\ (forall n, In n (map fst ms) -> is_Some (event_name_to_event !! n)).

(** A consistent table: its list and its iterators are linked.  The
    tables that the program reaches are consistent ([consistent_new],
    [updateTable_names]). *)
Definition consistent (st : t) : Prop :=
  linked (metrics st) (metrics_iterators st).

(** The line of a node in the final table: its name and the sum of the
    latest values of its hosts, each in its column. *)
Definition is_final_line (st : t) (e : Metric) (line : string) : Prop :=
  exists event,
    event_name_to_event !! fst e = Some event
    /\ line = newline
              +:+ writeWithWidth (fst e) (column_event_name_width st)
              +:+ writeWithWidth
                    (formatReadableValue (getValueType event)
                       (MetricInfoPerHost.getSummaryValue (snd e)))
                    COLUMN_VALUE_WIDTH.

(** The table after the blocks of a query, oldest first, each with the
    time at which it arrived. *)
Definition ingest (st : t) (history : list (Block * T)) : t :=
  fold_left (fun st bt => updateTable st (fst bt) (snd bt)) history st.

End ProgressTable.

(** The rows that a list of (name, row number) designates in a block. *)
Fixpoint rows_of (block : Block) (l : list (string * nat)) : list Row :=
  match l with
  | [] => []
  | p :: l' =>
      match block !! snd p with
      | Some r => r :: rows_of block l'
      | None => rows_of block l'
      end
  end.

(** The rows of the thread group in the order in which the second loop of
    [updateTable] visits them. *)
Definition sorted_rows (block : Block) : list Row :=
  rows_of block (sort (name_and_row_num_from 0 block)).

(** A (name, row number) that designates a row of that name. *)
Definition designates (block : Block) (p : string * nat) : Prop :=
  exists r, block !! snd p = Some r /\ name r = fst p.

(** A name is touched by a block that has an accepted row of that name. *)
Definition touched (event_name_to_event : gmap string Event)
    (block : Block) (n : string) : bool :=
  existsb (fun r => accepted event_name_to_event r && String.eqb (name r) n) block.

(** A list of names with one name moved, or added, to its front. *)
Definition move_to_front (n : string) (l : list string) : list string :=
  n :: List.filter (fun m => negb (String.eqb m n)) l.

(** The same order on rows: a stable insertion sort by name, in reverse
    order. *)
Definition row_before (r' r : Row) : bool :=
  negb (String.eqb (name r') (name r)) && String.ltb (name r) (name r').

Fixpoint insert_row (r : Row) (l : list Row) : list Row :=
  match l with
  | [] => [r]
  | r' :: l' =>
      if row_before r' r then r' :: insert_row r l' else r :: r' :: l'
  end.

Definition stable_sort (l : list Row) : list Row :=
  foldr insert_row [] l.

(** Names in reverse order, equal names allowed. *)
Definition names_descend (l : list Row) : Prop :=
  StronglySorted (fun a b => String.ltb (name a) (name b) = false) l.

(** Sorted by the comparison of [updateTable]. *)
Definition sorted (l : list (string * nat)) : Prop :=
  StronglySorted (fun a b => name_and_row_num_less a b = true) l.

End ProgressTable.

(** ** Vocabulary of the properties *)

(** The divisor of [calculateProgress]: the length of the window, as the
    code computes it. *)
Definition window_length {T} `{Double T} (m : @MetricInfo.t T) : T :=
  dsub (MetricInfo.time (MetricInfo.cur_shapshot m))
       (MetricInfo.time (MetricInfo.prev_shapshot m)).

(** The test that [updateValue] makes after it has reset the snapshots to
    one second before a sample at [t]: [t - (t - 1.0) >= 0.5]. *)
Definition one_second_back {T} `{Double T} (t : T) : bool :=
  dleb (dlit (1 # 2)) (dsub t (dsub t (dlit 1))).

(** The two samples of the windowed-rate scenario. *)
Definition windowed_samples {T} `{Double T} : list (Z * T) :=
  [ (100%Z, dlit 0); (150%Z, dlit 1) ].

Definition snapshot_eqb (a b : @MetricInfo.Snapshot float) : bool :=
  Z.eqb (MetricInfo.value a) (MetricInfo.value b)
  && PrimFloat.eqb (MetricInfo.time a) (MetricInfo.time b).

(** A gauge that falls from 10 to 3 in one second. *)
Definition falling_gauge : list (@MetricInfoPerHost.call Q) :=
  [ MetricInfoPerHost.UpdateHostValue "localhost" ProfileEvents.GAUGE 10 0%Q;
    MetricInfoPerHost.UpdateHostValue "localhost" ProfileEvents.GAUGE 3 1%Q;
    MetricInfoPerHost.GetSummaryProgress 1%Q ].

(** The number of breakpoints at or below a fraction. *)
Definition breakpoints_le (fraction : Q) : nat :=
  length (List.filter (fun b => Qle_bool b fraction) (count_fractions (T:=Q))).

(** The index of the first breakpoint above a fraction, the number of
    breakpoints when there is none. *)
Fixpoint first_above (fraction : Q) (l : list Q) : nat :=
  match l with
  | [] => 0%nat
  | b :: l' => if Qle_bool b fraction then S (first_above fraction l') else 0%nat
  end.

(** The number of breakpoints at or below a binary64 fraction. *)
Definition breakpoints_le_binary64 (fraction : float) : nat :=
  length (List.filter (fun b => PrimFloat.leb b fraction) (count_fractions (T:=float))).

(** *** The order of binary64 *)

Module Binary64Order.
Local Open Scope Z_scope.

(** The place of a number that is not a NaN: its class (infinite,
    finite or zero, with the sign), then exponent and mantissa. *)
Definition rank (x : spec_float) : option (Z * Z * Z) :=
  match x with
  | S754_nan => None
  | S754_infinity true => Some (-2, 0, 0)
  | S754_infinity false => Some (2, 0, 0)
  | S754_zero _ => Some (0, 0, 0)
  | S754_finite true m e => Some (-1, - e, Zneg m)
  | S754_finite false m e => Some (1, e, Zpos m)
  end.

Definition lex3 (a b : Z * Z * Z) : comparison :=
  match Z.compare (fst (fst a)) (fst (fst b)) with
  | Eq =>
      match Z.compare (snd (fst a)) (snd (fst b)) with
      | Eq => Z.compare (snd a) (snd b)
      | c => c
      end
  | c => c
  end.

Definition lt3 (a b : Z * Z * Z) : Prop :=
  fst (fst a) < fst (fst b)
  \/ (fst (fst a) = fst (fst b)
      /\ (snd (fst a) < snd (fst b)
          \/ (snd (fst a) = snd (fst b) /\ snd a < snd b))).

(** The comparisons of two binary64 numbers, read on their ranks. *)
Inductive compared (x y : float) : Prop :=
| compared_nan :
    rank (Prim2SF x) = None \/ rank (Prim2SF y) = None ->
    PrimFloat.ltb x y = false -> PrimFloat.leb x y = false -> compared x y
| compared_lt (a b : Z * Z * Z) :
    rank (Prim2SF x) = Some a -> rank (Prim2SF y) = Some b -> lt3 a b ->
    PrimFloat.ltb x y = true -> PrimFloat.leb x y = true -> compared x y
| compared_eq (a : Z * Z * Z) :
    rank (Prim2SF x) = Some a -> rank (Prim2SF y) = Some a ->
    PrimFloat.ltb x y = false -> PrimFloat.leb x y = true -> compared x y
| compared_gt (a b : Z * Z * Z) :
    rank (Prim2SF x) = Some a -> rank (Prim2SF y) = Some b -> lt3 b a ->
    PrimFloat.ltb x y = false -> PrimFloat.leb x y = false -> compared x y.

End Binary64Order.

(** ** Sample blocks *)

Module Example.
Import ProgressTable.

(** A few events of the catalog, and the two letters of the recency
    scenario. *)
Definition events : gmap string Event :=
  list_to_map
    [ ("Query", 0%nat); ("SelectedRows", 1%nat); ("SelectedBytes", 2%nat);
      ("ReadBufferFromFileDescriptorReadBytes", 3%nat);
      ("A", 4%nat); ("B", 5%nat) ].

Definition value_type (e : Event) : ProfileEvents.ValueType :=
  match e with
  | 2%nat | 3%nat => ProfileEvents.Bytes
  | _ => ProfileEvents.Number
  end.

Definition documentation (e : Event) : string :=
  match e with
  | 0%nat => "Number of queries to be interpreted and potentially executed."
  | _ => "Number of rows or bytes."
  end.

(** Stand-ins for the formatters of [Common/formatReadable.h]: the integer
    part of the value, in decimal. *)
Definition readable (q : Q) : string :=
  let z := Qfloor q in
  if (z <? 0)%Z then "-" +:+ format_size_t (Z.to_nat (- z))
  else format_size_t (Z.to_nat z).

Definition readable_quantity (q : Q) (precision : nat) : string := readable q.

(** A row of the thread group, from the local host. *)
Definition increment (n : string) (v : Z) : Row :=
  {| thread_id := THREAD_GROUP_ID; name := n; host_name := "localhost";
     value := v; type := ProfileEvents.INCREMENT |}.

(** A block with a long name, then a block with a short one. *)
Definition long_then_short : list (Block * Q) :=
  [ ([increment "ReadBufferFromFileDescriptorReadBytes" 4096], 1%Q);
    ([increment "Query" 1], 10%Q) ].

(** The recency scenario: "A", then "B", then "A" again. *)
Definition a_b_a : list (Block * Q) :=
  [ ([increment "A" 1], 1%Q); ([increment "B" 1], 2%Q); ([increment "A" 1], 3%Q) ].

End Example.

(** ** Vocabulary of the further properties *)

(** The number of elements of an array that a value is not below. *)
Definition not_above {V E : Type} (less : V -> E -> bool) (value : V)
    (a : list E) : nat :=
  length (List.filter (fun e => negb (less value e)) a).

(** The value types that count time. *)
Definition is_time_unit (t : ProfileEvents.ValueType) : bool :=
  match t with
  | ProfileEvents.Milliseconds | ProfileEvents.Microseconds
  | ProfileEvents.Nanoseconds => true
  | _ => false
  end.

(** The thresholds of the time ladder, in the unit of the value type. *)
Definition time_thresholds (t : ProfileEvents.ValueType) : list Q :=
  match t with
  | ProfileEvents.Milliseconds => [1; 10; 100; 1000]%Q
  | ProfileEvents.Microseconds => [1000; 10000; 100000; 1000000]%Q
  | ProfileEvents.Nanoseconds => [1000000; 10000000; 100000000; 1000000000]%Q
  | _ => []
  end.

(** A value splits an array: once it is below an element, it is below
    the later ones.  A sorted array is split by every value. *)
Definition splits {V E : Type} (less : V -> E -> bool) (dflt : E) (value : V)
    (a : list E) : Prop :=
  forall i j, (i <= j < length a)%nat ->
    less value (nth i a dflt) = true -> less value (nth j a dflt) = true.

(** The number of byte thresholds at or below a rate. *)
Definition bytes_thresholds_le (progress : Q) : nat :=
  length (List.filter (fun t => Qle_bool (inject_Z t) progress) bytes_thresholds).

(** The number of time thresholds at or below a rate. *)
Definition time_thresholds_le (t : ProfileEvents.ValueType) (progress : Q) : nat :=
  length (List.filter (fun c => Qle_bool c progress) (time_thresholds t)).

(** The range of [Int64]. *)
Definition in_Int64 (z : Z) : Prop := (- 2 ^ 63 <= z < 2 ^ 63)%Z.

(** The sum of the values of samples. *)
Definition sum_values {T : Type} (samples : list (Z * T)) : Z :=
  fold_right Z.add 0%Z (map fst samples).

(** The value of the last of the samples, zero when there is none. *)
Definition last_value {T : Type} (samples : list (Z * T)) : Z :=
  List.last (map fst samples) 0%Z.

(** The accepted rows of a name, in the order of the block. *)
Definition rows_named (event_name_to_event : gmap string ProgressTable.Event)
    (n : string) (block : ProgressTable.Block) : list ProgressTable.Row :=
  List.filter (fun r => ProgressTable.accepted event_name_to_event r
                        && String.eqb (ProgressTable.name r) n) block.

(** Rows applied to an aggregate at one time, first row first. *)
Definition apply_rows {T : Type} `{Double T} (now : T)
    (rs : list ProgressTable.Row) (h : @MetricInfoPerHost.t T)
    : @MetricInfoPerHost.t T :=
  fold_left (fun h r => MetricInfoPerHost.updateHostValue h
                          (ProgressTable.host_name r) (ProgressTable.type r)
                          (ProgressTable.value r) now)
            rs h.

(** The aggregate of a name after rows of that name: as it was when there
    is no row, and else the rows applied to it, or to a new one. *)
Definition entry_after {T : Type} `{Double T} (now : T)
    (rs : list ProgressTable.Row) (old : option (@MetricInfoPerHost.t T))
    : option (@MetricInfoPerHost.t T) :=
  match rs with
  | [] => old
  | _ :: _ => Some (apply_rows now rs (default MetricInfoPerHost.new old))
  end.

(** The series of a host after rows of that host at one time: as it was
    when there is no row, and else the values of the rows as samples of
    it, or of a new series of the kind of the first row. *)
Definition series_after {T : Type} `{Double T} (now : T)
    (rs : list ProgressTable.Row) (old : option (@MetricInfo.t T))
    : option (@MetricInfo.t T) :=
  match rs with
  | [] => old
  | r :: _ =>
      Some (MetricInfo.updates
              (default (MetricInfo.new (ProgressTable.type r)) old)
              (map (fun r => (ProgressTable.value r, now)) rs))
  end.

(** The rows that name a host. *)
Definition rows_of_host (host : string) (rs : list ProgressTable.Row)
    : list ProgressTable.Row :=
  List.filter (fun r => String.eqb (ProgressTable.host_name r) host) rs.

(** A node as [writeTable] may leave it: the name and the hosts are kept,
    a node that is not fresh is kept whole, and a fresh one has the peak
    that [getSummaryProgress] sets. *)
Definition drawn {T : Type} `{Double T} (elapsed_sec : T)
    (e e' : @ProgressTable.Metric T) : Prop :=
  fst e' = fst e
  /\ MetricInfoPerHost.host_to_metric (snd e')
     = MetricInfoPerHost.host_to_metric (snd e)
  /\ snd e'
     = if MetricInfoPerHost.isFresh (snd e) elapsed_sec
       then snd (MetricInfoPerHost.getSummaryProgress (snd e) elapsed_sec)
       else snd e.

Section Reachable.
Context {T : Type} `{Double T}.
Variable event_name_to_event : gmap string ProgressTable.Event.
Variable getValueType : ProgressTable.Event -> ProfileEvents.ValueType.
Variable getDocumentation : ProgressTable.Event -> string.
Variable formatReadableQuantity : T -> nat -> string.
Variable formatReadableSizeWithDecimalSuffix : T -> string.
Variable formatReadableTime : T -> string.

(** The tables that the public member functions reach from the
    constructor. *)
Inductive reachable : @ProgressTable.t T -> Prop :=
| reachable_new : reachable ProgressTable.new
| reachable_updateTable st block time_now :
    reachable st ->
    reachable (ProgressTable.updateTable event_name_to_event st block time_now)
| reachable_resetTable st :
    reachable st -> reachable (ProgressTable.resetTable st)
| reachable_writeTable st terminal_width elapsed_sec show_table toggle_enabled
    out st' :
    reachable st ->
    ProgressTable.writeTable event_name_to_event getValueType getDocumentation
      formatReadableQuantity formatReadableSizeWithDecimalSuffix
      formatReadableTime st terminal_width elapsed_sec show_table toggle_enabled
    = Some (out, st') ->
    reachable st'.

(** The same tables, each with the names of the accepted rows that it
    received since it was new or last reset, those of the latest block
    first. *)
Inductive recorded : list string -> @ProgressTable.t T -> Prop :=
| recorded_new : recorded [] ProgressTable.new
| recorded_updateTable log st block time_now :
    recorded log st ->
    recorded
      (map ProgressTable.name
           (List.filter (ProgressTable.accepted event_name_to_event) block)
       ++ log)
      (ProgressTable.updateTable event_name_to_event st block time_now)
| recorded_resetTable log st :
    recorded log st -> recorded [] (ProgressTable.resetTable st)
| recorded_writeTable log st terminal_width elapsed_sec show_table
    toggle_enabled out st' :
    recorded log st ->
    ProgressTable.writeTable event_name_to_event getValueType getDocumentation
      formatReadableQuantity formatReadableSizeWithDecimalSuffix
      formatReadableTime st terminal_width elapsed_sec show_table toggle_enabled
    = Some (out, st') ->
    recorded log st'.

End Reachable.

(** Two nodes of one name with the same series of the same hosts. *)
Definition same_hosts {T : Type} `{Double T}
    (e e' : @ProgressTable.Metric T) : Prop :=
  fst e' = fst e
  /\ MetricInfoPerHost.host_to_metric (snd e')
     = MetricInfoPerHost.host_to_metric (snd e).

(** * Properties *)

(** ** Exact arithmetic: reading the comparisons *)

Lemma Qle_bool_reflect (a b : Q) : reflect (a <= b)%Q (Qle_bool a b).
Proof.
  destruct (Qle_bool a b) eqn:E; constructor.
  - now apply Qle_bool_iff.
  - intros Hle. apply Qle_bool_iff in Hle. congruence.
Qed.

Lemma Qeq_bool_reflect (a b : Q) : reflect (a == b)%Q (Qeq_bool a b).
Proof.
  destruct (Qeq_bool a b) eqn:E; constructor.
  - now apply Qeq_bool_iff.
  - intros Heq. apply Qeq_bool_iff in Heq. congruence.
Qed.

(** Splits on every comparison of rationals in the goal. *)
Ltac q_cases :=
  repeat match goal with
  | |- context [Qle_bool ?a ?b] => destruct (Qle_bool_reflect a b)
  | |- context [Qeq_bool ?a ?b] => destruct (Qeq_bool_reflect a b)
  end.

(** ** Strings in lexicographic order *)

Section StringOrder.

Lemma ltb_lt (a b : string) :
  String.ltb a b = true <-> OrderedTypeEx.String_as_OT.lt a b.
Proof.
  unfold String.ltb. rewrite <- OrderedTypeEx.String_as_OT.cmp_lt.
  unfold OrderedTypeEx.String_as_OT.cmp.
  destruct (String.compare a b); split; congruence.
Qed.

Lemma ltb_irrefl (a : string) : String.ltb a a = false.
Proof.
  destruct (String.ltb a a) eqn:E; [|reflexivity].
  apply ltb_lt in E. apply OrderedTypeEx.String_as_OT.lt_not_eq in E.
  exfalso. apply E. reflexivity.
Qed.

Lemma ltb_trans (a b c : string) :
  String.ltb a b = true -> String.ltb b c = true -> String.ltb a c = true.
Proof.
  rewrite !ltb_lt. apply OrderedTypeEx.String_as_OT.lt_trans.
Qed.

Lemma ltb_total (a b : string) :
  String.ltb a b = true \/ a = b \/ String.ltb b a = true.
Proof.
  unfold String.ltb. rewrite (String.compare_antisym b a).
  destruct (String.compare a b) eqn:E; cbn; auto.
  right. left. now apply String.compare_eq_iff.
Qed.

Lemma ltb_asym (a b : string) :
  String.ltb a b = true -> String.ltb b a = false.
Proof.
  intros Hab. destruct (String.ltb b a) eqn:Hba; [|reflexivity].
  pose proof (ltb_trans _ _ _ Hab Hba) as Haa.
  rewrite ltb_irrefl in Haa. discriminate.
Qed.

Lemma ltb_false_trans (a b c : string) :
  String.ltb a b = false -> String.ltb b c = false -> String.ltb a c = false.
Proof.
  intros Hab Hbc. destruct (String.ltb a c) eqn:Hac; [|reflexivity].
  destruct (ltb_total a b) as [Hlt|[->|Hlt]]; try congruence.
  rewrite (ltb_trans _ _ _ Hlt Hac) in Hbc. discriminate.
Qed.

End StringOrder.

(** ** Binary64: the order of the comparisons *)

Section Binary64OrderFacts.
Import Binary64Order.
Local Open Scope Z_scope.

Lemma lex3_spec (a b : Z * Z * Z) : CompareSpec (a = b) (lt3 a b) (lt3 b a) (lex3 a b).
Proof.
  destruct a as [[a1 a2] a3], b as [[b1 b2] b3]. unfold lex3, lt3. cbn.
  destruct (Z.compare_spec a1 b1); [|constructor; lia|constructor; lia].
  destruct (Z.compare_spec a2 b2); [|constructor; lia|constructor; lia].
  destruct (Z.compare_spec a3 b3); constructor; try lia. congruence.
Qed.

Lemma SFcompare_rank (x y : spec_float) :
  SFcompare x y
  = match rank x, rank y with
    | Some a, Some b => Some (lex3 a b)
    | _, _ => None
    end.
Proof.
  destruct x as [[]|[]| |[] m e], y as [[]|[]| |[] m' e']; try reflexivity.
  unfold SFcompare, rank, lex3. cbn [fst snd].
  change (Z.compare (-1) (-1)) with Eq. cbv iota.
  rewrite Z.compare_opp, (Z.compare_antisym e e').
  destruct (Z.compare e e'); reflexivity.
Qed.

Lemma compare_floats (x y : float) : compared x y.
Proof.
  pose proof (FloatAxioms.ltb_spec x y) as Hlt.
  pose proof (FloatAxioms.leb_spec x y) as Hle.
  unfold SFltb in Hlt. unfold SFleb in Hle. rewrite SFcompare_rank in Hlt, Hle.
  destruct (rank (Prim2SF x)) as [a|] eqn:Ha;
    [|now apply compared_nan; [left|..]].
  destruct (rank (Prim2SF y)) as [b|] eqn:Hb;
    [|now apply compared_nan; [right|..]].
  destruct (lex3_spec a b) as [Heq|Hab|Hba].
  - subst b. now apply (compared_eq x y a).
  - now apply (compared_lt x y a b).
  - now apply (compared_gt x y a b).
Qed.

Lemma lt3_irrefl (a : Z * Z * Z) : ~ lt3 a a.
Proof. unfold lt3. lia. Qed.

Lemma lt3_trans (a b c : Z * Z * Z) : lt3 a b -> lt3 b c -> lt3 a c.
Proof. unfold lt3. lia. Qed.

(** Closes the cases in which the comparisons contradict each other. *)
Ltac close_order :=
  repeat match goal with
  | H : _ \/ _ |- _ => destruct H
  | H1 : rank ?x = Some ?a, H2 : rank ?x = Some ?b |- _ =>
      assert (a = b) by congruence; subst b; clear H2
  | H1 : rank ?x = Some _, H2 : rank ?x = None |- _ => congruence
  end;
  try congruence;
  try (exfalso;
       repeat match goal with
       | H : lt3 ?a ?b |- _ => unfold lt3 in H
       end; lia).

Lemma float_ltb_trans (x y z : float) :
  PrimFloat.ltb x y = true -> PrimFloat.ltb y z = true -> PrimFloat.ltb x z = true.
Proof.
  intros Hxy Hyz.
  destruct (compare_floats x y), (compare_floats y z), (compare_floats x z);
    close_order.
Qed.

Lemma float_leb_ltb_trans (x y z : float) :
  PrimFloat.leb x y = true -> PrimFloat.ltb y z = true -> PrimFloat.ltb x z = true.
Proof.
  intros Hxy Hyz.
  destruct (compare_floats x y), (compare_floats y z), (compare_floats x z);
    close_order.
Qed.

Lemma float_leb_trans (x y z : float) :
  PrimFloat.leb x y = true -> PrimFloat.leb y z = true -> PrimFloat.leb x z = true.
Proof.
  intros Hxy Hyz.
  destruct (compare_floats x y), (compare_floats y z), (compare_floats x z);
    close_order.
Qed.

Lemma float_ltb_leb (x y : float) : PrimFloat.ltb x y = true -> PrimFloat.leb x y = true.
Proof. intros Hxy. destruct (compare_floats x y); close_order. Qed.

(** A number is not a NaN when it equals itself. *)
Lemma float_eqb_rank (x : float) :
  PrimFloat.eqb x x = true -> exists a, rank (Prim2SF x) = Some a.
Proof.
  rewrite FloatAxioms.eqb_spec. unfold SFeqb. rewrite SFcompare_rank.
  destruct (rank (Prim2SF x)) as [a|]; [eauto | discriminate].
Qed.

Lemma float_rank_eqb (x : float) (a : Z * Z * Z) :
  rank (Prim2SF x) = Some a -> PrimFloat.eqb x x = true.
Proof.
  intros Ha. rewrite FloatAxioms.eqb_spec. unfold SFeqb. rewrite SFcompare_rank, Ha.
  destruct (lex3_spec a a) as [_|Hlt|Hlt]; [reflexivity| |];
    now apply lt3_irrefl in Hlt.
Qed.

Lemma float_leb_negb_ltb (x y : float) :
  PrimFloat.eqb x x = true -> PrimFloat.eqb y y = true ->
  PrimFloat.leb x y = negb (PrimFloat.ltb y x).
Proof.
  intros Hx Hy. apply float_eqb_rank in Hx as [a Ha]. apply float_eqb_rank in Hy as [b Hb].
  destruct (compare_floats x y), (compare_floats y x); close_order.
  all: repeat match goal with H : _ = true |- _ => rewrite H
              | H : _ = false |- _ => rewrite H end; try reflexivity.
  all: close_order.
Qed.

Lemma float_leb_refl (x : float) : PrimFloat.eqb x x = true -> PrimFloat.leb x x = true.
Proof.
  intros Hx. apply float_eqb_rank in Hx as [a Ha].
  destruct (compare_floats x x); close_order.
Qed.

Lemma float_ltb_not_nan (x y : float) :
  PrimFloat.ltb x y = true -> PrimFloat.eqb y y = true.
Proof.
  intros Hxy. destruct (compare_floats x y) as [| a b Ha Hb | |]; close_order.
  now apply (float_rank_eqb y b).
Qed.

End Binary64OrderFacts.

(** ** Binary64: subtraction *)

Section Binary64Subtraction.
Local Open Scope Z_scope.

(** A rounded number has the sign it was given. *)
Lemma binary_round_aux_sign (sx : bool) (mx ex : Z) (lx : location) :
  match binary_round_aux prec emax sx mx ex lx with
  | S754_zero s | S754_infinity s | S754_finite s _ _ => s = sx
  | S754_nan => True
  end.
Proof.
  unfold binary_round_aux.
  destruct (shr_fexp prec emax mx ex lx) as [mrs' e'].
  destruct (shr_fexp prec emax _ e' loc_Exact) as [mrs'' e''].
  destruct (shr_m mrs''); [reflexivity | | exact I].
  now destruct (e'' <=? emax - prec).
Qed.

Lemma leb_binary_normalize (m0 : positive) (e0 z e : Z) :
  SFleb (S754_finite false m0 e0) (binary_normalize prec emax z e false) = true ->
  0 < z.
Proof.
  destruct z as [|p|p]; cbn [binary_normalize]; [discriminate | lia |].
  unfold binary_round.
  destruct (shl_align p e _) as [mz ez].
  pose proof (binary_round_aux_sign true (Z.pos mz) ez loc_Exact) as Hs.
  destruct (binary_round_aux prec emax true (Z.pos mz) ez loc_Exact);
    try subst s; discriminate.
Qed.

Lemma digits2_pos_bounds (m : positive) :
  2 ^ (Z.pos (digits2_pos m) - 1) <= Z.pos m < 2 ^ Z.pos (digits2_pos m).
Proof.
  induction m as [p IH|p IH|]; cbn [digits2_pos].
  - rewrite Pos2Z.inj_succ, Z.pow_succ_r by lia.
    replace (Z.succ (Z.pos (digits2_pos p)) - 1)
      with (Z.succ (Z.pos (digits2_pos p) - 1)) by lia.
    rewrite Z.pow_succ_r by lia. lia.
  - rewrite Pos2Z.inj_succ, Z.pow_succ_r by lia.
    replace (Z.succ (Z.pos (digits2_pos p)) - 1)
      with (Z.succ (Z.pos (digits2_pos p) - 1)) by lia.
    rewrite Z.pow_succ_r by lia. lia.
  - cbn. lia.
Qed.

(** The mantissa of a binary64 number has at most 53 bits, and exactly 53
    above the least exponent. *)
Lemma valid_finite (s : bool) (m : positive) (e : Z) :
  SpecFloat.valid_binary prec emax (S754_finite s m e) = true ->
  Z.pos m < 2 ^ 53 /\ -1074 <= e /\ (-1074 < e -> 2 ^ 52 <= Z.pos m).
Proof.
  cbn [SpecFloat.valid_binary].
  unfold bounded, canonical_mantissa, fexp, emin, prec, emax.
  intros Hv. apply andb_true_iff in Hv as [Hc _]. apply Z.eqb_eq in Hc.
  pose proof (digits2_pos_bounds m) as [Hlo Hhi].
  split; [|split].
  - apply Z.lt_le_trans with (1 := Hhi). apply Z.pow_le_mono_r; lia.
  - lia.
  - intros He. replace (Z.pos (digits2_pos m)) with 53 in Hlo by lia. exact Hlo.
Qed.

Lemma shl_align_value (m : positive) (e e' : Z) :
  e' <= e -> Z.pos (fst (shl_align m e e')) = Z.pos m * 2 ^ (e - e').
Proof.
  intros He. unfold shl_align. destruct (e' - e) as [|d|d] eqn:E; cbn [fst].
  - replace (e - e') with 0 by lia. lia.
  - lia.
  - change (Pos.iter xO m d) with (shift_pos d m).
    rewrite shift_pos_correct, Z.pow_pos_fold.
    replace (e - e') with (Z.pos d) by lia. lia.
Qed.

(** A difference that is at or above a positive number comes from a
    minuend above the subtrahend. *)
Lemma SFsub_pos_lt (x y : spec_float) (m0 : positive) (e0 : Z) :
  SpecFloat.valid_binary prec emax x = true ->
  SpecFloat.valid_binary prec emax y = true ->
  SFleb (S754_finite false m0 e0) (SFsub prec emax x y) = true ->
  SFltb y x = true.
Proof.
  intros Hx Hy.
  destruct x as [sx|sx| |sx mx ex], y as [sy|sy| |sy my ey].
  16: {
    cbn [SFsub]. cbv zeta. intros Hle. apply leb_binary_normalize in Hle.
    apply valid_finite in Hx as (Hxhi & Hxmin & Hxlo).
    apply valid_finite in Hy as (Hyhi & Hymin & Hylo).
    change IntDef.Z.min with Z.min in Hle.
    rewrite !shl_align_value in Hle by lia.
    unfold SFltb, SFcompare.
    destruct (Z.compare_spec ey ex) as [He|He|He].
    - subst ey. rewrite Z.min_id, Z.sub_diag, Z.pow_0_r, !Z.mul_1_r in Hle.
      change (Pos.compare_cont Eq my mx) with (Pos.compare my mx).
      destruct sx, sy; cbn [cond_Zopp] in Hle; try lia; try reflexivity.
      + assert (Hc : (my ?= mx)%positive = Gt) by (apply Pos.compare_gt_iff; lia).
        now rewrite Hc.
      + assert (Hc : (my ?= mx)%positive = Lt) by (apply Pos.compare_lt_iff; lia).
        now rewrite Hc.
    - rewrite Z.min_r, Z.sub_diag, Z.pow_0_r, Z.mul_1_r in Hle by lia.
      assert (Hp : 2 ^ 1 <= 2 ^ (ex - ey)) by (apply Z.pow_le_mono_r; lia).
      specialize (Hxlo ltac:(lia)).
      destruct sx, sy; cbn [cond_Zopp] in Hle; try reflexivity; exfalso; nia.
    - rewrite Z.min_l, Z.sub_diag, Z.pow_0_r, Z.mul_1_r in Hle by lia.
      assert (Hp : 2 ^ 1 <= 2 ^ (ey - ex)) by (apply Z.pow_le_mono_r; lia).
      specialize (Hylo ltac:(lia)).
      destruct sx, sy; cbn [cond_Zopp] in Hle; try reflexivity; exfalso; nia. }
  all: try (destruct sx); try (destruct sy); cbn; try discriminate; try reflexivity.
Qed.

Lemma float_sub_pos_lt (x y : float) :
  PrimFloat.leb 0.5 (x - y) = true -> PrimFloat.ltb y x = true.
Proof.
  rewrite FloatAxioms.leb_spec, FloatAxioms.ltb_spec, FloatAxioms.sub_spec.
  change (Prim2SF 0.5) with (S754_finite false 4503599627370496 (-53)).
  apply SFsub_pos_lt; apply FloatAxioms.Prim2SF_valid.
Qed.

Lemma float_sub_self (x : float) : PrimFloat.leb 0.5 (x - x) = false.
Proof.
  destruct (PrimFloat.leb 0.5 (x - x)) eqn:E; [|reflexivity].
  apply float_sub_pos_lt in E.
  rewrite FloatAxioms.ltb_spec in E. unfold SFltb in E.
  destruct (Prim2SF x) as [s|s| |s m e]; try destruct s; cbn in E;
    try discriminate.
  all: rewrite Z.compare_refl in E.
  all: change (Pos.compare_cont Eq m m) with (Pos.compare m m) in E.
  all: rewrite Pos.compare_refl in E; discriminate.
Qed.


End Binary64Subtraction.

(** ** MetricInfo: the rate window *)

Section MetricInfoFacts.
Import MetricInfo.
Local Open Scope Q_scope.

(** C1, as the source has it: on a cumulative series the second sample is
    added to the total, so [apply(100, t=0)] then [apply(150, t=1.0)]
    rotates the window to [{100, 0.0}] and [{250, 1.0}] and the rate at
    [1.0] is 150, a delta of 150 over one second; it is 50 on a gauge
    series.  The binary64 evaluation is exact. *)
Theorem windowed_rate_cumulative :
  let m := updates (T:=Q) (new ProfileEvents.INCREMENT) windowed_samples in
  let g := updates (T:=Q) (new ProfileEvents.GAUGE) windowed_samples in
  let mf := updates (T:=float) (new ProfileEvents.INCREMENT) windowed_samples in
  let gf := updates (T:=float) (new ProfileEvents.GAUGE) windowed_samples in
  (prev_shapshot m = {| value := 100; time := 0 |}
   /\ cur_shapshot m = {| value := 250; time := 1 |}
   /\ calculateProgress m 1 == 150
   /\ calculateProgress g 1 == 50)
  /\ (snapshot_eqb (prev_shapshot mf) {| value := 100; time := 0%float |} = true
      /\ snapshot_eqb (cur_shapshot mf) {| value := 250; time := 1%float |} = true
      /\ PrimFloat.eqb (calculateProgress mf 1%float) 150%float = true
      /\ PrimFloat.eqb (calculateProgress gf 1%float) 50%float = true).
Proof. vm_compute. repeat split; reflexivity. Qed.

(** C1, as the spec has it, fails: the rate is 150, at a distance of 100
    from 50, in exact and in binary64 arithmetic. *)
Lemma windowed_rate_is_not_50 :
  let m := updates (T:=Q) (new ProfileEvents.INCREMENT) windowed_samples in
  let mf := updates (T:=float) (new ProfileEvents.INCREMENT) windowed_samples in
  Qabs (calculateProgress m 1 - 50) == 100
  /\ ~ calculateProgress m 1 == 50
  /\ PrimFloat.eqb (PrimFloat.abs (calculateProgress mf 1%float - 50)%float) 100%float = true.
Proof.
  cbv zeta. repeat split; try (intros Heq; apply Qeq_bool_iff in Heq; revert Heq); vm_compute; congruence.
Qed.

(** C10: a series whose sample came at elapsed time 0 has [update_time]
    0 and is fresh at no time, like a series that was never updated. *)
Theorem sample_at_time_zero_is_never_fresh (ty : ProfileEvents.Type_)
    (m : @MetricInfo.t Q) (mf : @MetricInfo.t float) (v : Z) :
  (forall now : Q,
      update_time (updateValue (new ty) v 0) == 0
      /\ isFresh (updateValue (new ty) v 0) now = false
      /\ isFresh (updateValue m v 0) now = false
      /\ isFresh (T:=Q) (new ty) now = false)
  /\ (forall now : float,
      isFresh (updateValue (T:=float) (new ty) v (dlit 0)) now = false
      /\ isFresh (updateValue mf v (dlit 0)) now = false
      /\ isFresh (T:=float) (new ty) now = false).
Proof.
  split; intros now; repeat split; reflexivity.
Qed.

End MetricInfoFacts.

(** ** MetricInfo: the divisor of the rate *)

Section RateWindow.
Import MetricInfo.

Section AnyArithmetic.
Context {T : Type} `{Double T}.




End AnyArithmetic.


End RateWindow.



(** ** MetricInfoPerHost: the running maximum of the rate *)

Section MetricInfoPerHostFacts.
Import MetricInfoPerHost.
Local Open Scope Q_scope.

Lemma dmax_Qmax (a b : Q) : dmax a b == Qmax a b.
Proof.
  unfold dmax. cbn. destruct (Qle_bool_reflect b a) as [Hle|Hlt]; cbn.
  - symmetry. now apply Q.max_l.
  - symmetry. apply Q.max_r. lra.
Qed.

Lemma dmax_ge (a b : Q) : a <= dmax a b.
Proof. rewrite dmax_Qmax. apply Q.le_max_l. Qed.

Lemma fold_Qmax_compat (l : list Q) (a b : Q) :
  a == b -> fold_left Qmax l a == fold_left Qmax l b.
Proof.
  revert a b. induction l as [|x l IH]; intros a b Hab; cbn; [exact Hab|].
  apply IH. now rewrite Hab.
Qed.

(** After any calls, [max_progress] is the maximum of its value before
    them and of the rates that [getSummaryProgress] returned. *)
Lemma run_max_progress (calls : list (@call Q)) (h : @MetricInfoPerHost.t Q) :
  max_progress (snd (run h calls)) == fold_left Qmax (fst (run h calls)) (max_progress h).
Proof.
  revert h. induction calls as [|c calls IH]; intros h; cbn; [reflexivity|].
  destruct c as [host ty v now|now]; cbn.
  - exact (IH (updateHostValue h host ty v now)).
  - destruct (run _ calls) as [rates h2] eqn:E. cbn.
    specialize (IH {| host_to_metric := host_to_metric h;
                      max_progress := dmax (max_progress h)
                        (fst (getSummaryProgress h now)) |}).
    cbn in IH. unfold getSummaryProgress in E. cbn in E. rewrite E in IH.
    cbn in IH. rewrite IH. apply fold_Qmax_compat, dmax_Qmax.
Qed.

Lemma run_max_progress_mono (calls : list (@call Q)) (h : @MetricInfoPerHost.t Q) :
  max_progress h <= max_progress (snd (run h calls)).
Proof.
  revert h. induction calls as [|c calls IH]; intros h; cbn; [lra|].
  destruct c as [host ty v now|now]; cbn.
  - apply (IH (updateHostValue h host ty v now)).
  - destruct (run _ calls) as [rates h2] eqn:E. cbn.
    pose proof (IH {| host_to_metric := host_to_metric h;
                      max_progress := dmax (max_progress h)
                        (fst (getSummaryProgress h now)) |}) as IH'.
    unfold getSummaryProgress in E. cbn in E, IH'. rewrite E in IH'.
    cbn in IH'. eapply Qle_trans; [apply dmax_ge | exact IH'].
Qed.

(** C7, as the spec has it, fails: after one rate of -7 was computed,
    [getMaxProgress] returns 0, which is not the maximum of the rates
    computed so far. *)
Lemma max_progress_above_every_rate :
  fst (run new falling_gauge) = [-7]
  /\ getMaxProgress (snd (run new falling_gauge)) == 0
  /\ ~ getMaxProgress (snd (run new falling_gauge)) == -7.
Proof.
  split; [|split].
  - vm_compute. reflexivity.
  - vm_compute. reflexivity.
  - intros Heq. apply Qeq_bool_iff in Heq. revert Heq. vm_compute. congruence.
Qed.

End MetricInfoPerHostFacts.

(** ** The color ladder of the counts *)

Section ColorFacts.
Local Open Scope Q_scope.

Lemma upper_bound_breakpoints (fraction : Q) :
  upper_bound dltb (dlit 0) (count_fractions (T:=Q)) fraction
  = breakpoints_le fraction.
Proof.
  unfold upper_bound, breakpoints_le, count_fractions. cbn.
  q_cases; cbn; try reflexivity; lra.
Qed.

Lemma first_above_breakpoints (fraction : Q) :
  first_above fraction count_fractions = breakpoints_le fraction.
Proof.
  unfold breakpoints_le, count_fractions. cbn.
  q_cases; cbn; try reflexivity; lra.
Qed.

Lemma breakpoints_le_mono (f1 f2 : Q) :
  f1 <= f2 -> (breakpoints_le f1 <= breakpoints_le f2)%nat.
Proof.
  intros Hle. unfold breakpoints_le, count_fractions. cbn.
  q_cases; cbn; try lia; lra.
Qed.

End ColorFacts.

(** ** Binary64: the color ladder and the running maximum *)

Section Binary64Facts.

Lemma count_fractions_ascend :
  exists c1 c2 c3 c4 : float,
    count_fractions (T:=float) = [c1; c2; c3; c4]
    /\ PrimFloat.ltb c1 c2 = true /\ PrimFloat.ltb c2 c3 = true
    /\ PrimFloat.ltb c3 c4 = true
    /\ PrimFloat.eqb c1 c1 = true /\ PrimFloat.eqb c2 c2 = true
    /\ PrimFloat.eqb c3 c3 = true /\ PrimFloat.eqb c4 c4 = true.
Proof.
  do 4 eexists. split; [reflexivity|]. vm_compute. repeat split.
Qed.

Lemma upper_bound_breakpoints_binary64 (fraction : float) :
  PrimFloat.eqb fraction fraction = true ->
  upper_bound dltb (dlit 0) (count_fractions (T:=float)) fraction
  = breakpoints_le_binary64 fraction.
Proof.
  intros Hf. unfold breakpoints_le_binary64.
  destruct count_fractions_ascend
    as (c1 & c2 & c3 & c4 & -> & H12 & H23 & H34 & N1 & N2 & N3 & N4).
  unfold upper_bound.
  cbn [length upper_bound_loop Nat.eqb Nat.div2 Nat.add Nat.sub nth List.filter dltb
       binary64_Double].
  rewrite (float_leb_negb_ltb c1 fraction N1 Hf), (float_leb_negb_ltb c2 fraction N2 Hf),
    (float_leb_negb_ltb c3 fraction N3 Hf), (float_leb_negb_ltb c4 fraction N4 Hf).
  destruct (PrimFloat.ltb fraction c1) eqn:B1, (PrimFloat.ltb fraction c2) eqn:B2,
    (PrimFloat.ltb fraction c3) eqn:B3, (PrimFloat.ltb fraction c4) eqn:B4;
    cbn; try reflexivity; exfalso.
  all: try (pose proof (float_ltb_trans _ _ _ B1 H12); congruence).
  all: try (pose proof (float_ltb_trans _ _ _ B2 H23); congruence).
  all: try (pose proof (float_ltb_trans _ _ _ B3 H34); congruence).
Qed.

Lemma upper_bound_mono_binary64 (f1 f2 : float) :
  PrimFloat.leb f1 f2 = true ->
  (upper_bound dltb (dlit 0) (count_fractions (T:=float)) f1
   <= upper_bound dltb (dlit 0) (count_fractions (T:=float)) f2)%nat.
Proof.
  intros Hle.
  destruct count_fractions_ascend as (c1 & c2 & c3 & c4 & -> & _).
  unfold upper_bound.
  cbn [length upper_bound_loop Nat.eqb Nat.div2 Nat.add Nat.sub nth dltb
       binary64_Double].
  pose proof (float_leb_ltb_trans f1 f2 c1 Hle) as M1.
  pose proof (float_leb_ltb_trans f1 f2 c2 Hle) as M2.
  pose proof (float_leb_ltb_trans f1 f2 c3 Hle) as M3.
  pose proof (float_leb_ltb_trans f1 f2 c4 Hle) as M4.
  destruct (PrimFloat.ltb f2 c1), (PrimFloat.ltb f2 c2), (PrimFloat.ltb f2 c3),
    (PrimFloat.ltb f2 c4);
    try rewrite (M1 eq_refl); try rewrite (M2 eq_refl);
    try rewrite (M3 eq_refl); try rewrite (M4 eq_refl);
    destruct (PrimFloat.ltb f1 c1), (PrimFloat.ltb f1 c2), (PrimFloat.ltb f1 c3),
      (PrimFloat.ltb f1 c4); cbn; lia.
Qed.

(** [std::max] on binary64: a maximum that is not a NaN stays so and does
    not decrease. *)
Lemma dmax_binary64 (a b : float) :
  PrimFloat.eqb a a = true ->
  PrimFloat.eqb (dmax a b) (dmax a b) = true
  /\ PrimFloat.leb a (dmax a b) = true.
Proof.
  intros Ha. unfold dmax. cbn [dltb binary64_Double].
  destruct (PrimFloat.ltb a b) eqn:E.
  - split; [now apply (float_ltb_not_nan a b) | now apply float_ltb_leb].
  - split; [exact Ha | now apply float_leb_refl].
Qed.

Lemma run_max_progress_binary64 (calls : list (@MetricInfoPerHost.call float))
    (h : @MetricInfoPerHost.t float) :
  PrimFloat.eqb (MetricInfoPerHost.max_progress h) (MetricInfoPerHost.max_progress h)
  = true ->
  let h' := snd (MetricInfoPerHost.run h calls) in
  PrimFloat.eqb (MetricInfoPerHost.max_progress h') (MetricInfoPerHost.max_progress h')
  = true
  /\ PrimFloat.leb (MetricInfoPerHost.max_progress h) (MetricInfoPerHost.max_progress h')
     = true.
Proof.
  revert h. induction calls as [|c calls IH]; intros h Hh; cbn.
  - split; [exact Hh | now apply float_leb_refl].
  - destruct c as [host ty v now|now].
    + exact (IH (MetricInfoPerHost.updateHostValue h host ty v now) Hh).
    + cbn. destruct (MetricInfoPerHost.run _ calls) as [rates h2] eqn:E. cbn.
      destruct (dmax_binary64 (MetricInfoPerHost.max_progress h)
                  (fst (MetricInfoPerHost.getSummaryProgress h now)) Hh)
        as [Hnan Hle].
      pose proof (IH (snd (MetricInfoPerHost.getSummaryProgress h now)) Hnan) as IH'.
      cbn in IH'. unfold MetricInfoPerHost.getSummaryProgress in E. cbn in E.
      rewrite E in IH'. cbn in IH'. destruct IH' as [Hnan' Hle'].
      split; [exact Hnan'|]. eapply float_leb_trans; [exact Hle | exact Hle'].
Qed.

End Binary64Facts.

(** C7, as the source has it: [max_progress] starts at 0, never
    decreases, and [getSummaryProgress] sets it to the maximum of its value
    and the rate it returns; [getMaxProgress] read before that call is the
    maximum of 0 and of the rates returned by the earlier calls, without
    the rate of the call that follows.  In binary64 as well it is set to
    [std::max] of both, is never a NaN and never decreases. *)
Theorem max_progress_is_running_maximum :
  (forall (before between : list (@MetricInfoPerHost.call Q)) (now : Q),
      let h := snd (MetricInfoPerHost.run MetricInfoPerHost.new before) in
      let peak := MetricInfoPerHost.getMaxProgress h in
      let rate := fst (MetricInfoPerHost.getSummaryProgress h now) in
      let h' := snd (MetricInfoPerHost.getSummaryProgress h now) in
      (peak == fold_left Qmax (fst (MetricInfoPerHost.run MetricInfoPerHost.new before)) 0)%Q
      /\ (MetricInfoPerHost.getMaxProgress h' == Qmax peak rate)%Q
      /\ (peak <= MetricInfoPerHost.getMaxProgress h')%Q
      /\ (MetricInfoPerHost.getMaxProgress h'
          <= MetricInfoPerHost.getMaxProgress (snd (MetricInfoPerHost.run h' between)))%Q)
  /\ (forall (before between : list (@MetricInfoPerHost.call float)) (now : float),
      let h := snd (MetricInfoPerHost.run MetricInfoPerHost.new before) in
      let peak := MetricInfoPerHost.getMaxProgress h in
      let rate := fst (MetricInfoPerHost.getSummaryProgress h now) in
      let h' := snd (MetricInfoPerHost.getSummaryProgress h now) in
      MetricInfoPerHost.getMaxProgress h' = dmax peak rate
      /\ PrimFloat.eqb peak peak = true
      /\ PrimFloat.leb peak (MetricInfoPerHost.getMaxProgress h') = true
      /\ PrimFloat.leb (MetricInfoPerHost.getMaxProgress h')
           (MetricInfoPerHost.getMaxProgress (snd (MetricInfoPerHost.run h' between)))
         = true).
Proof.
  split.
  - intros before between now h peak rate h'. subst peak rate h'.
    unfold MetricInfoPerHost.getMaxProgress.
    split; [|split; [|split]].
    + subst h. exact (run_max_progress before MetricInfoPerHost.new).
    + cbn. apply dmax_Qmax.
    + cbn. apply dmax_ge.
    + apply run_max_progress_mono.
  - intros before between now h peak rate h'.
    unfold MetricInfoPerHost.getMaxProgress in *.
    assert (Hnew : PrimFloat.eqb
                     (MetricInfoPerHost.max_progress (T:=float) MetricInfoPerHost.new)
                     (MetricInfoPerHost.max_progress (T:=float) MetricInfoPerHost.new)
                   = true) by (vm_compute; reflexivity).
    pose proof (run_max_progress_binary64 before MetricInfoPerHost.new) as Hrun.
    cbv zeta in Hrun. destruct (Hrun Hnew) as [Hnan _]. clear Hrun.
    fold h in Hnan.
    destruct (dmax_binary64 (MetricInfoPerHost.max_progress h) rate Hnan)
      as [Hnan' Hle].
    split; [reflexivity|]. split; [exact Hnan|]. split; [exact Hle|].
    exact (proj2 (run_max_progress_binary64 between h' Hnan')).
Qed.


(** C6: with a running maximum that is not zero, the tier of the count
    ladder is the number of breakpoints at or below
    [progress / max_progress], which is the index of the first breakpoint
    above it; it does not decrease when the fraction grows; a running
    maximum of zero gives tier 0 for every rate.  This holds in exact
    arithmetic and, for a fraction that is not a NaN, in binary64. *)
Theorem count_tier_is_breakpoints_below :
  ((forall progress max_progress : Q,
       ~ (max_progress == 0)%Q ->
       progressTier progress max_progress = breakpoints_le (progress / max_progress)
       /\ progressTier progress max_progress
          = first_above (progress / max_progress) count_fractions
       /\ setColorForProgress progress max_progress
          = nth (breakpoints_le (progress / max_progress)) count_colors EmptyString)
   /\ (forall p1 p2 max_progress : Q,
       ~ (max_progress == 0)%Q ->
       (p1 / max_progress <= p2 / max_progress)%Q ->
       (progressTier p1 max_progress <= progressTier p2 max_progress)%nat)
   /\ (forall progress max_progress : Q,
       (max_progress == 0)%Q ->
       progressTier progress max_progress = 0%nat
       /\ setColorForProgress progress max_progress = nth 0 count_colors EmptyString))
  /\ ((forall progress max_progress : float,
        PrimFloat.eqb max_progress 0 = false ->
        PrimFloat.eqb (progress / max_progress) (progress / max_progress) = true ->
        progressTier progress max_progress
        = breakpoints_le_binary64 (progress / max_progress))
      /\ (forall p1 p2 max_progress : float,
        PrimFloat.leb (p1 / max_progress) (p2 / max_progress) = true ->
        (progressTier p1 max_progress <= progressTier p2 max_progress)%nat)
      /\ (forall progress max_progress : float,
        PrimFloat.eqb max_progress 0 = true ->
        progressTier progress max_progress = 0%nat)).
Proof.
  assert (Htier : forall progress max_progress : Q,
             ~ (max_progress == 0)%Q ->
             progressTier progress max_progress
             = breakpoints_le (progress / max_progress)).
  { intros progress max_progress Hmax. unfold progressTier. cbn.
    destruct (Qeq_bool_reflect max_progress 0) as [H0|_]; [contradiction|].
    apply upper_bound_breakpoints. }
  assert (Hzero : forall progress max_progress : Q,
             (max_progress == 0)%Q -> progressTier progress max_progress = 0%nat).
  { intros progress max_progress Hmax. unfold progressTier. cbn.
    destruct (Qeq_bool_reflect max_progress 0) as [_|Hne]; [reflexivity|contradiction]. }
  assert (Hfloat : forall progress max_progress : float,
             progressTier progress max_progress
             = if PrimFloat.eqb max_progress 0 then 0%nat
               else upper_bound dltb (dlit 0) (count_fractions (T:=float))
                                (progress / max_progress)%float).
  { reflexivity. }
  split; [split; [|split] | split; [|split]].
  - intros progress max_progress Hmax. split; [|split].
    + now apply Htier.
    + rewrite first_above_breakpoints. now apply Htier.
    + unfold setColorForProgress. now rewrite Htier.
  - intros p1 p2 max_progress Hmax Hle. rewrite !Htier by assumption.
    now apply breakpoints_le_mono.
  - intros progress max_progress Hmax. unfold setColorForProgress.
    now rewrite Hzero.
  - intros progress max_progress Hmax Hnan. rewrite Hfloat, Hmax.
    now apply upper_bound_breakpoints_binary64.
  - intros p1 p2 max_progress Hle. rewrite !Hfloat.
    destruct (PrimFloat.eqb max_progress 0); [lia|].
    now apply upper_bound_mono_binary64.
  - intros progress max_progress Hmax. now rewrite Hfloat, Hmax.
Qed.

Lemma count_tier_is_breakpoints_below_witness :
  (progressTier 1%Q 10%Q = 1%nat
   /\ (progressTier 1%Q 10%Q <= progressTier 9%Q 10%Q)%nat
   /\ progressTier 5%Q 0%Q = 0%nat)
  /\ (progressTier 1%float 10%float = breakpoints_le_binary64 (1 / 10)%float
      /\ (progressTier 1%float 10%float <= progressTier 9%float 10%float)%nat
      /\ progressTier 5%float 0%float = 0%nat).
Proof.
  destruct count_tier_is_breakpoints_below
    as [(Htier & Hmono & Hzero) (Htier64 & Hmono64 & Hzero64)].
  split; split; [|split| |split].
  - destruct (Htier 1%Q 10%Q) as [-> _]; [discriminate | reflexivity].
  - apply Hmono; [discriminate | vm_compute; discriminate].
  - apply (Hzero 5%Q 0%Q). reflexivity.
  - apply Htier64; reflexivity.
  - apply Hmono64. reflexivity.
  - apply Hzero64. reflexivity.
Defined.


(** ** ProgressTable: the rows that [updateTable] visits *)

Section UpdateRows.
Import ProgressTable.
Context {T : Type} `{Double T}.
Variable event_name_to_event : gmap string Event.

Lemma sort_insert_perm (x : string * nat) (l : list (string * nat)) :
  Permutation (sort_insert x l) (x :: l).
Proof.
  induction l as [|y l IH]; cbn; [reflexivity|].
  destruct (name_and_row_num_less y x); [|reflexivity].
  rewrite IH. apply perm_swap.
Qed.

Lemma sort_perm (l : list (string * nat)) : Permutation (sort l) l.
Proof.
  induction l as [|x l IH]; cbn; [reflexivity|].
  rewrite sort_insert_perm. now constructor.
Qed.

Lemma name_and_row_num_designates (pre rows : list Row) :
  Forall (designates (pre ++ rows)) (name_and_row_num_from (length pre) rows).
Proof.
  revert pre. induction rows as [|r rows IH]; intros pre; cbn; [constructor|].
  specialize (IH (pre ++ [r])).
  rewrite <- app_assoc, length_app in IH. cbn in IH.
  replace (length pre + 1)%nat with (S (length pre)) in IH by lia.
  destruct (N.eqb (thread_id r) THREAD_GROUP_ID); [|exact IH].
  constructor; [|exact IH].
  exists r. cbn. split; [|reflexivity].
  now apply list_lookup_middle.
Qed.

Lemma name_and_row_num_rows (pre rows : list Row) :
  rows_of (pre ++ rows) (name_and_row_num_from (length pre) rows)
  = List.filter (fun r => N.eqb (thread_id r) THREAD_GROUP_ID) rows.
Proof.
  revert pre. induction rows as [|r rows IH]; intros pre; cbn; [reflexivity|].
  specialize (IH (pre ++ [r])).
  rewrite <- app_assoc, length_app in IH. cbn in IH.
  replace (length pre + 1)%nat with (S (length pre)) in IH by lia.
  destruct (N.eqb (thread_id r) THREAD_GROUP_ID); [|exact IH].
  cbn [rows_of snd].
  rewrite (list_lookup_middle pre rows r (length pre) eq_refl).
  now rewrite IH.
Qed.

Lemma rows_of_perm (block : Block) (l l' : list (string * nat)) :
  Permutation l l' -> Permutation (rows_of block l) (rows_of block l').
Proof.
  induction 1 as [|p l l' _ IH|p q l|l l' l'' _ IH1 _ IH2]; cbn.
  - reflexivity.
  - destruct (block !! snd p); [now constructor | exact IH].
  - destruct (block !! snd p), (block !! snd q); try reflexivity.
    apply perm_swap.
  - now rewrite IH1.
Qed.

Lemma sorted_rows_perm (block : Block) :
  Permutation (sorted_rows block)
              (List.filter (fun r => N.eqb (thread_id r) THREAD_GROUP_ID) block).
Proof.
  rewrite <- (name_and_row_num_rows [] block). cbn.
  unfold sorted_rows. apply rows_of_perm, sort_perm.
Qed.

Lemma update_row_store (block : Block) (now : T)
    (acc : list (@Metric T) * gset string * nat) (p : string * nat) (r : Row) :
  block !! snd p = Some r -> name r = fst p ->
  update_row event_name_to_event block now acc p
  = store_row event_name_to_event now acc r.
Proof.
  destruct acc as [[ms its] w], p as [n i]. cbn. intros -> <-.
  unfold accepted.
  destruct (N.eqb (thread_id r) THREAD_GROUP_ID); cbn; [|reflexivity].
  destruct (bool_decide (is_Some (event_name_to_event !! name r))); cbn; [|reflexivity].
  destruct (Z.eqb (value r) 0); reflexivity.
Qed.

Lemma fold_update_rows (block : Block) (now : T) (l : list (string * nat))
    (acc : list (@Metric T) * gset string * nat) :
  Forall (designates block) l ->
  fold_left (update_row event_name_to_event block now) l acc
  = fold_left (store_row event_name_to_event now) (rows_of block l) acc.
Proof.
  intros Hl. revert acc. induction Hl as [|p l [r [Hr Hn]] _ IH]; intros acc;
    [reflexivity|].
  cbn [rows_of fold_left]. rewrite Hr. cbn [fold_left].
  rewrite (update_row_store block now acc p r Hr Hn). apply IH.
Qed.

(** [updateTable] folds [store_row] over the sorted rows. *)
Lemma updateTable_sorted_rows (st : @ProgressTable.t T) (block : Block) (now : T) :
  updateTable event_name_to_event st block now
  = let '(ms, its, w) :=
      fold_left (store_row event_name_to_event now) (sorted_rows block)
                (metrics st, metrics_iterators st, String.length COLUMN_EVENT_NAME) in
    {| metrics := ms; metrics_iterators := its;
       column_event_name_width := (w + 1)%nat |}.
Proof.
  unfold updateTable, sorted_rows. rewrite fold_update_rows; [reflexivity|].
  eapply Permutation_Forall; [symmetry; apply sort_perm|].
  exact (name_and_row_num_designates [] block).
Qed.

Lemma store_row_rejected (now : T)
    (acc : list (@Metric T) * gset string * nat) (r : Row) :
  accepted event_name_to_event r = false ->
  store_row event_name_to_event now acc r = acc.
Proof.
  intros Hr. destruct acc as [[ms its] w]. cbn. now rewrite Hr.
Qed.

Lemma fold_store_row_accepted (now : T) (rs : list Row)
    (acc : list (@Metric T) * gset string * nat) :
  fold_left (store_row event_name_to_event now) rs acc
  = fold_left (store_row event_name_to_event now)
              (List.filter (accepted event_name_to_event) rs) acc.
Proof.
  revert acc. induction rs as [|r rs IH]; intros acc; cbn; [reflexivity|].
  destruct (accepted event_name_to_event r) eqn:Hr; cbn.
  - apply IH.
  - rewrite store_row_rejected by exact Hr. apply IH.
Qed.

Lemma filter_perm {A : Type} (f : A -> bool) (l l' : list A) :
  Permutation l l' -> Permutation (List.filter f l) (List.filter f l').
Proof.
  induction 1 as [|x l l' _ IH|x y l|l l' l'' _ IH1 _ IH2]; cbn.
  - reflexivity.
  - destruct (f x); [now constructor | exact IH].
  - destruct (f x), (f y); try reflexivity. apply perm_swap.
  - now rewrite IH1.
Qed.

Lemma filter_accepted_thread_group (rows : list Row) :
  List.filter (accepted event_name_to_event)
              (List.filter (fun r => N.eqb (thread_id r) THREAD_GROUP_ID) rows)
  = List.filter (accepted event_name_to_event) rows.
Proof.
  induction rows as [|r rows IH]; cbn; [reflexivity|].
  unfold accepted at 2.
  destruct (N.eqb (thread_id r) THREAD_GROUP_ID) eqn:E; cbn.
  - unfold accepted at 1. rewrite E. cbn. now rewrite IH.
  - exact IH.
Qed.

(** The accepted rows are visited, each once, in some order. *)
Lemma sorted_rows_accepted_perm (block : Block) :
  Permutation (List.filter (accepted event_name_to_event) (sorted_rows block))
              (List.filter (accepted event_name_to_event) block).
Proof.
  rewrite <- (filter_accepted_thread_group block).
  apply filter_perm, sorted_rows_perm.
Qed.

Lemma list_max_perm (l l' : list nat) :
  Permutation l l' -> list_max l = list_max l'.
Proof.
  unfold list_max.
  induction 1 as [|x l l' _ IH|x y l|l l' l'' _ IH1 _ IH2];
    cbn [fold_right]; lia.
Qed.

Lemma fold_store_row_width (now : T) (rs : list Row)
    (ms : list (@Metric T)) (its : gset string) (w : nat) :
  snd (fold_left (store_row event_name_to_event now) rs (ms, its, w))
  = Nat.max w (list_max (map (fun r => String.length (name r))
                             (List.filter (accepted event_name_to_event) rs))).
Proof.
  unfold list_max.
  revert ms its w. induction rs as [|r rs IH]; intros ms its w;
    cbn [fold_left List.filter]; [cbn; lia|].
  unfold store_row at 2.
  destruct (accepted event_name_to_event r) eqn:Hr; cbn [negb map fold_right].
  - rewrite IH. lia.
  - apply IH.
Qed.

End UpdateRows.

(** ** ProgressTable: the sort of [updateTable] is stable *)

Section StableSort.
Import ProgressTable.

Lemma row_before_ltb (r' r : Row) :
  row_before r' r = String.ltb (name r) (name r').
Proof.
  unfold row_before. destruct (String.eqb (name r') (name r)) eqn:E; cbn.
  - apply String.eqb_eq in E. rewrite E. symmetry. apply ltb_irrefl.
  - reflexivity.
Qed.

Lemma name_and_row_num_ge (k : nat) (rows : list Row) :
  List.Forall (fun p => (k <= snd p)%nat) (name_and_row_num_from k rows).
Proof.
  revert k. induction rows as [|r rows IH]; intros k; cbn; [constructor|].
  assert (Hrest : List.Forall (fun p => (k <= snd p)%nat)
                    (name_and_row_num_from (S k) rows)).
  { eapply List.Forall_impl; [|apply IH]. cbn. intros p Hp. lia. }
  destruct (N.eqb (thread_id r) THREAD_GROUP_ID); [|exact Hrest].
  constructor; [cbn; lia | exact Hrest].
Qed.

(** Inserting the pair of an earlier row is inserting the row. *)
Lemma rows_of_sort_insert (block : Block) (r : Row) (i : nat)
    (l : list (string * nat)) :
  block !! i = Some r ->
  List.Forall (fun p => designates block p /\ (i < snd p)%nat) l ->
  rows_of block (sort_insert (name r, i) l) = insert_row r (rows_of block l).
Proof.
  intros Hr Hl. induction Hl as [|[n j] l [(r' & Hr' & Hn) Hj] _ IH];
    cbn [sort_insert rows_of snd].
  - now rewrite Hr.
  - cbn in Hr', Hn, Hj. subst n. rewrite Hr'. cbn [insert_row].
    assert (Hless : name_and_row_num_less (name r', j) (name r, i) = row_before r' r).
    { unfold name_and_row_num_less, row_before. cbn.
      destruct (String.eqb (name r') (name r)); cbn; [|reflexivity].
      apply Nat.ltb_ge. lia. }
    rewrite Hless. destruct (row_before r' r); cbn [rows_of snd].
    + now rewrite Hr', IH.
    + now rewrite Hr, Hr'.
Qed.

Lemma sorted_rows_from (pre rows : list Row) :
  rows_of (pre ++ rows) (sort (name_and_row_num_from (length pre) rows))
  = stable_sort (List.filter (fun r => N.eqb (thread_id r) THREAD_GROUP_ID) rows).
Proof.
  revert pre. induction rows as [|r rows IH]; intros pre;
    cbn [name_and_row_num_from List.filter]; [reflexivity|].
  specialize (IH (pre ++ [r])).
  rewrite <- app_assoc, length_app in IH. cbn in IH.
  replace (length pre + 1)%nat with (S (length pre)) in IH by lia.
  destruct (N.eqb (thread_id r) THREAD_GROUP_ID); [|exact IH].
  change (sort ((name r, length pre) :: ?l))
    with (sort_insert (name r, length pre) (sort l)).
  change (stable_sort (r :: ?l)) with (insert_row r (stable_sort l)).
  rewrite rows_of_sort_insert, IH; [reflexivity | now apply list_lookup_middle |].
  eapply Permutation_Forall; [symmetry; apply sort_perm|].
  pose proof (name_and_row_num_designates (pre ++ [r]) rows) as Hd.
  rewrite <- app_assoc, length_app in Hd. cbn in Hd.
  replace (length pre + 1)%nat with (S (length pre)) in Hd by lia.
  pose proof (name_and_row_num_ge (S (length pre)) rows) as Hge.
  rewrite List.Forall_forall in *. intros p Hp. split; [now apply Hd|].
  specialize (Hge p Hp). cbn in Hge. lia.
Qed.

(** The second loop of [updateTable] visits the rows of the thread group
    by name in reverse order, the rows of one name in the order of the
    block. *)
Lemma sorted_rows_stable (block : Block) :
  sorted_rows block
  = stable_sort (List.filter (fun r => N.eqb (thread_id r) THREAD_GROUP_ID) block).
Proof. exact (sorted_rows_from [] block). Qed.

Lemma in_insert_row (r x : Row) (l : list Row) :
  In x (insert_row r l) <-> x = r \/ In x l.
Proof.
  induction l as [|r' l IH]; cbn; [intuition congruence|].
  destruct (row_before r' r); cbn; [rewrite IH|]; intuition congruence.
Qed.

Lemma insert_row_descend (r : Row) (l : list Row) :
  names_descend l -> names_descend (insert_row r l).
Proof.
  unfold names_descend. induction 1 as [|r' l Hl IH Hr']; cbn.
  - repeat constructor.
  - rewrite row_before_ltb. destruct (String.ltb (name r) (name r')) eqn:E.
    + constructor; [exact IH|].
      rewrite List.Forall_forall in *. intros x Hx.
      apply in_insert_row in Hx as [->|Hx]; [|now apply Hr'].
      now apply ltb_asym.
    + constructor; [now constructor|].
      constructor; [exact E|].
      rewrite List.Forall_forall in *. intros x Hx.
      eapply ltb_false_trans; [exact E | now apply Hr'].
Qed.

Lemma stable_sort_descend (l : list Row) : names_descend (stable_sort l).
Proof.
  induction l as [|r l IH]; cbn; [constructor|]. now apply insert_row_descend.
Qed.

Lemma insert_row_front (r : Row) (l : list Row) :
  List.Forall (fun x => String.ltb (name r) (name x) = false) l ->
  insert_row r l = r :: l.
Proof.
  intros Hl. destruct Hl as [|r' l Hr' _]; cbn; [reflexivity|].
  now rewrite row_before_ltb, Hr'.
Qed.

Lemma filter_insert_row (f : Row -> bool) (r : Row) (l : list Row) :
  names_descend l ->
  List.filter f (insert_row r l)
  = if f r then insert_row r (List.filter f l) else List.filter f l.
Proof.
  unfold names_descend. induction 1 as [|r' l Hl IH Hr'].
  - cbn. now destruct (f r).
  - cbn [insert_row]. rewrite row_before_ltb.
    destruct (String.ltb (name r) (name r')) eqn:E.
    + cbn [List.filter]. rewrite IH.
      destruct (f r'), (f r); cbn [insert_row]; try reflexivity.
      now rewrite row_before_ltb, E.
    + assert (Hfront : List.Forall (fun x => String.ltb (name r) (name x) = false)
                         (List.filter f (r' :: l))).
      { rewrite List.Forall_forall in *. intros x Hx.
        apply List.filter_In in Hx as [[->|Hx] _]; [exact E|].
        eapply ltb_false_trans; [exact E | now apply Hr']. }
      change (List.filter f (r :: r' :: l))
        with (if f r then r :: List.filter f (r' :: l) else List.filter f (r' :: l)).
      destruct (f r); [|reflexivity].
      now rewrite (insert_row_front r _ Hfront).
Qed.

(** The stable sort commutes with the removal of rows. *)
Lemma filter_stable_sort (f : Row -> bool) (l : list Row) :
  List.filter f (stable_sort l) = stable_sort (List.filter f l).
Proof.
  induction l as [|r l IH]; [reflexivity|].
  change (stable_sort (r :: l)) with (insert_row r (stable_sort l)).
  rewrite filter_insert_row by apply stable_sort_descend.
  rewrite IH. cbn [List.filter]. now destruct (f r).
Qed.

End StableSort.

(** ** [std::sort]: the sorted list is determined by the comparison *)

Section SortUnique.
Import ProgressTable.

Local Abbreviation less := name_and_row_num_less.

Lemma less_asym (a b : string * nat) : less a b = true -> less b a = false.
Proof.
  unfold name_and_row_num_less. rewrite (String.eqb_sym (fst b) (fst a)).
  destruct (String.eqb (fst a) (fst b)); cbn.
  - intros Hlt. apply Nat.ltb_lt in Hlt. apply Nat.ltb_ge. lia.
  - apply ltb_asym.
Qed.

Lemma less_trans (a b c : string * nat) :
  less a b = true -> less b c = true -> less a c = true.
Proof.
  unfold name_and_row_num_less.
  destruct (String.eqb (fst a) (fst b)) eqn:Eab; cbn.
  - apply String.eqb_eq in Eab. rewrite Eab.
    destruct (String.eqb (fst b) (fst c)); cbn; [|auto].
    intros Hab Hbc. apply Nat.ltb_lt. apply Nat.ltb_lt in Hab.
    apply Nat.ltb_lt in Hbc. lia.
  - destruct (String.eqb (fst b) (fst c)) eqn:Ebc; cbn.
    + apply String.eqb_eq in Ebc. rewrite <- Ebc, Eab. cbn. auto.
    + intros Hba Hcb. pose proof (ltb_trans _ _ _ Hcb Hba) as Hca.
      destruct (String.eqb (fst a) (fst c)) eqn:Eac; cbn; [|exact Hca].
      apply String.eqb_eq in Eac. rewrite Eac, ltb_irrefl in Hca. discriminate.
Qed.

Lemma less_total (a b : string * nat) :
  a <> b -> less a b = true \/ less b a = true.
Proof.
  destruct a as [n i], b as [m j]. unfold name_and_row_num_less. cbn.
  intros Hne. rewrite (String.eqb_sym m n).
  destruct (String.eqb n m) eqn:E; cbn.
  - apply String.eqb_eq in E. subst m.
    assert (i <> j) by congruence.
    destruct (Nat.lt_ge_cases i j) as [Hlt|Hge].
    + left. apply Nat.ltb_lt. exact Hlt.
    + right. apply Nat.ltb_lt. lia.
  - apply String.eqb_neq in E.
    destruct (ltb_total n m) as [Hlt|[Heq|Hlt]]; [now right | contradiction | now left].
Qed.

Lemma sort_insert_sorted (x : string * nat) (l : list (string * nat)) :
  sorted l -> ~ In x l -> sorted (sort_insert x l).
Proof.
  unfold sorted. induction 1 as [|y l Hl IH Hy]; cbn; intros Hx.
  - repeat constructor.
  - destruct (less y x) eqn:E.
    + constructor; [apply IH; tauto|].
      rewrite List.Forall_forall in *. intros z Hz.
      apply (Permutation_in _ (sort_insert_perm x l)) in Hz.
      destruct Hz as [<-|Hz]; [exact E | now apply Hy].
    + assert (Hxy : less x y = true).
      { destruct (less_total x y) as [Hlt|Hlt]; [|exact Hlt|congruence].
        intros ->. apply Hx. now left. }
      constructor; [now constructor|].
      constructor; [exact Hxy|].
      rewrite List.Forall_forall in *. intros z Hz.
      eapply less_trans; [exact Hxy | now apply Hy].
Qed.

Lemma sort_sorted (l : list (string * nat)) : List.NoDup l -> sorted (sort l).
Proof.
  induction 1 as [|x l Hx _ IH]; cbn; [constructor|].
  apply sort_insert_sorted; [exact IH|].
  intros Hin. apply Hx. now apply (Permutation_in _ (sort_perm l)).
Qed.

Lemma sorted_perm_eq (l l' : list (string * nat)) :
  sorted l -> sorted l' -> Permutation l l' -> l = l'.
Proof.
  unfold sorted. intros Hl. revert l'.
  induction Hl as [|x l Hl IH Hx]; intros l' Hl' Hp.
  - apply Permutation_nil in Hp. now subst.
  - destruct Hl' as [|y l' Hl' Hy].
    + symmetry in Hp. now apply Permutation_nil in Hp.
    + assert (Heq : x = y).
      { assert (Hxin : In x (y :: l')) by (apply (Permutation_in _ Hp); now left).
        assert (Hyin : In y (x :: l))
          by (apply (Permutation_in _ (Permutation_sym Hp)); now left).
        destruct Hxin as [Hxy|Hxin]; [now symmetry|].
        destruct Hyin as [Hyx|Hyin]; [exact Hyx|].
        rewrite List.Forall_forall in Hx, Hy.
        pose proof (less_asym _ _ (Hx y Hyin)) as Hno.
        rewrite (Hy x Hxin) in Hno. discriminate. }
      subst y. f_equal. apply IH; [exact Hl'|].
      now apply Permutation_cons_inv in Hp.
Qed.

Lemma name_and_row_num_NoDup (k : nat) (rows : list Row) :
  List.NoDup (name_and_row_num_from k rows).
Proof.
  revert k. induction rows as [|r rows IH]; intros k; cbn; [constructor|].
  destruct (N.eqb (thread_id r) THREAD_GROUP_ID); [|apply IH].
  constructor; [|apply IH].
  intros Hin. pose proof (name_and_row_num_ge (S k) rows) as Hge.
  rewrite List.Forall_forall in Hge. specialize (Hge _ Hin). cbn in Hge. lia.
Qed.

(** Whatever the algorithm of [std::sort], it returns the list of the
    model: the only sorted permutation of the names and row numbers. *)
Lemma sort_unique (block : Block) (l' : list (string * nat)) :
  Permutation (name_and_row_num_from 0 block) l' -> sorted l' ->
  l' = sort (name_and_row_num_from 0 block).
Proof.
  intros Hp Hl'. apply sorted_perm_eq; [exact Hl' | |].
  - apply sort_sorted, name_and_row_num_NoDup.
  - rewrite <- Hp. symmetry. apply sort_perm.
Qed.

End SortUnique.

(** ** ProgressTable: the width of the name column *)

Section NameColumn.
Import ProgressTable.
Context {T : Type} `{Double T}.
Variable event_name_to_event : gmap string Event.

(** C3, as the source has it: [updateTable] computes the width of the name
    column from its block alone: one more than the longest of "Event name"
    and of the names of the rows it accepted, whatever the width was
    before; it is 11 at least. *)
Theorem column_event_name_width_of_block
    (st : @ProgressTable.t T) (block : Block) (now : T) :
  column_event_name_width (updateTable event_name_to_event st block now)
  = (list_max (String.length COLUMN_EVENT_NAME
               :: map (fun r => String.length (name r))
                      (List.filter (accepted event_name_to_event) block)) + 1)%nat
  /\ (11 <= column_event_name_width (updateTable event_name_to_event st block now))%nat.
Proof.
  assert (Hw : column_event_name_width (updateTable event_name_to_event st block now)
               = (list_max (String.length COLUMN_EVENT_NAME
                    :: map (fun r => String.length (name r))
                           (List.filter (accepted event_name_to_event) block)) + 1)%nat).
  { rewrite updateTable_sorted_rows.
    pose proof (fold_store_row_width event_name_to_event now (sorted_rows block)
                  (metrics st) (metrics_iterators st)
                  (String.length COLUMN_EVENT_NAME)) as Hfold.
    destruct (fold_left _ _ _) as [[ms its] w]. cbn in Hfold. cbn.
    rewrite Hfold. f_equal.
    rewrite (list_max_perm _ _
               (Permutation_map _ (sorted_rows_accepted_perm event_name_to_event block))).
    reflexivity. }
  split; [exact Hw|]. rewrite Hw. cbn. lia.
Qed.

End NameColumn.

(** C3, as the spec has it, fails: after a block with a name of 37 bytes
    the column is 38 wide, and after the next block, with "Query" alone, it
    is 11 wide: it shrank, and is no longer as wide as the widest name
    seen. *)
Lemma column_event_name_width_shrinks :
  let st1 := ProgressTable.ingest Example.events ProgressTable.new
               (take 1 Example.long_then_short) in
  let st2 := ProgressTable.ingest Example.events ProgressTable.new
               Example.long_then_short in
  ProgressTable.column_event_name_width st1 = 38%nat
  /\ ProgressTable.column_event_name_width st2 = 11%nat
  /\ (ProgressTable.column_event_name_width st2
      < ProgressTable.column_event_name_width st1)%nat
  /\ ProgressTable.names st2 = ["Query"; "ReadBufferFromFileDescriptorReadBytes"].
Proof. vm_compute. repeat split; lia. Qed.

(** ** ProgressTable: rendering *)

Section Rendering.
Import ProgressTable.
Context {T : Type} `{Double T}.
Variable event_name_to_event : gmap string Event.
Variable getValueType : Event -> ProfileEvents.ValueType.
Variable getDocumentation : Event -> string.
Variable formatReadableQuantity : T -> nat -> string.
Variable formatReadableSizeWithDecimalSuffix : T -> string.
Variable formatReadableTime : T -> string.

Local Abbreviation writeTable :=
  (writeTable event_name_to_event getValueType getDocumentation
              formatReadableQuantity formatReadableSizeWithDecimalSuffix
              formatReadableTime).

(** C8: with the table shown, [writeTable] on a terminal narrower than the
    name, value and progress columns together, or with no metric in the
    list, returns without an exception, writes no byte and leaves the table
    as it was; so it does on a terminal one column short of these three
    columns. *)
Theorem writeTable_skips_narrow_or_empty (st : @ProgressTable.t T)
    (terminal_width : nat) (elapsed_sec : T) (toggle_enabled : bool) :
  (terminal_width
     < column_event_name_width st + COLUMN_VALUE_WIDTH + COLUMN_PROGRESS_WIDTH)%nat
  \/ metrics st = [] ->
  writeTable st terminal_width elapsed_sec true toggle_enabled
  = Some (EmptyString, st)
  /\ writeTable st
       (column_event_name_width st + COLUMN_VALUE_WIDTH + COLUMN_PROGRESS_WIDTH - 1)
       elapsed_sec true toggle_enabled
     = Some (EmptyString, st).
Proof.
  intros Hskip. unfold ProgressTable.writeTable. cbn [negb andb].
  split.
  - destruct Hskip as [Hnarrow|Hempty].
    + apply Nat.ltb_lt in Hnarrow. now rewrite Hnarrow.
    + destruct (_ <? _)%nat; [reflexivity|].
      now rewrite bool_decide_eq_true_2.
  - assert (Hlt : (column_event_name_width st + COLUMN_VALUE_WIDTH
                   + COLUMN_PROGRESS_WIDTH - 1
                   <? column_event_name_width st + COLUMN_VALUE_WIDTH
                      + COLUMN_PROGRESS_WIDTH)%nat = true).
    { apply Nat.ltb_lt. unfold COLUMN_VALUE_WIDTH, COLUMN_PROGRESS_WIDTH. lia. }
    now rewrite Hlt.
Qed.

End Rendering.

(** The table after the two blocks of [Example.long_then_short] needs 51
    columns; on 50 columns nothing is written. *)
Lemma writeTable_skips_narrow_or_empty_witness :
  let st := ProgressTable.ingest Example.events ProgressTable.new
              Example.long_then_short in
  ProgressTable.writeTable Example.events Example.value_type
    Example.documentation Example.readable_quantity Example.readable
    Example.readable st 50 10%Q true true
  = Some (EmptyString, st)
  /\ ProgressTable.writeTable Example.events Example.value_type
       Example.documentation Example.readable_quantity Example.readable
       Example.readable st
       (ProgressTable.column_event_name_width st + ProgressTable.COLUMN_VALUE_WIDTH
        + ProgressTable.COLUMN_PROGRESS_WIDTH - 1) 10%Q true true
     = Some (EmptyString, st).
Proof.
  apply (writeTable_skips_narrow_or_empty Example.events Example.value_type
           Example.documentation Example.readable_quantity Example.readable
           Example.readable).
  left. vm_compute. lia.
Defined.

(** ** ProgressTable: the order of the list *)

Section Recency.
Import ProgressTable.
Context {T : Type} `{Double T}.
Variable event_name_to_event : gmap string Event.

Local Abbreviation Metric := (@ProgressTable.Metric T).
Local Abbreviation linked := (@ProgressTable.linked T event_name_to_event).

(** [splice_front] finds the first node of the name and puts it in front;
    without such a node the list stays as it is. *)
Lemma splice_front_rec_spec (n : string) (rest seen : list Metric) :
  (exists a e b,
      rest = a ++ e :: b /\ fst e = n
      /\ Forall (fun x => fst x <> n) a
      /\ splice_front_rec n seen rest = e :: rev seen ++ a ++ b)
  \/ (Forall (fun x => fst x <> n) rest
      /\ splice_front_rec n seen rest = rev seen ++ rest).
Proof.
  revert seen. induction rest as [|e rest IH]; intros seen; cbn.
  - right. split; [constructor|]. now rewrite app_nil_r.
  - destruct (String.eqb (fst e) n) eqn:E.
    + apply String.eqb_eq in E. left. exists [], e, rest.
      repeat split; auto.
    + apply String.eqb_neq in E.
      destruct (IH (e :: seen)) as [(a & e' & b & -> & He' & Ha & ->)|[Hrest ->]].
      * left. exists (e :: a), e', b. repeat split; auto.
        cbn. now rewrite <- !app_assoc.
      * right. split; [now constructor|].
        cbn. now rewrite <- app_assoc.
Qed.

Lemma splice_front_spec (n : string) (l : list Metric) :
  (exists a e b,
      l = a ++ e :: b /\ fst e = n
      /\ Forall (fun x => fst x <> n) a
      /\ splice_front n l = e :: a ++ b)
  \/ (Forall (fun x => fst x <> n) l /\ splice_front n l = l).
Proof. exact (splice_front_rec_spec n l []). Qed.

Lemma filter_other_names (n : string) (l : list string) :
  ~ In n l -> List.filter (fun m => negb (String.eqb m n)) l = l.
Proof.
  induction l as [|m l IH]; cbn; intros Hn; [reflexivity|].
  destruct (String.eqb m n) eqn:E; cbn.
  - apply String.eqb_eq in E. tauto.
  - rewrite IH; tauto.
Qed.

Lemma splice_front_names (n : string) (l : list Metric) :
  List.NoDup (map fst l) -> In n (map fst l) ->
  exists e rest,
    splice_front n l = e :: rest /\ fst e = n
    /\ map fst rest = List.filter (fun m => negb (String.eqb m n)) (map fst l)
    /\ Permutation (e :: rest) l.
Proof.
  intros Hnd Hin.
  destruct (splice_front_spec n l) as [(a & e & b & -> & He & Ha & Hs)|[Hl _]].
  - exists e, (a ++ b). rewrite Hs. repeat split; auto.
    + rewrite !map_app in *. cbn in *. rewrite He in *.
      apply NoDup_remove_2 in Hnd.
      rewrite List.filter_app. cbn. rewrite String.eqb_refl. cbn.
      rewrite <- List.filter_app. symmetry. now apply filter_other_names.
    + apply Permutation_middle.
  - exfalso. apply in_map_iff in Hin as [x [Hx Hxl]].
    rewrite List.Forall_forall in Hl. exact (Hl x Hxl Hx).
Qed.

Lemma in_move_to_front (n m : string) (l : list string) :
  In m (move_to_front n l) <-> m = n \/ In m l.
Proof.
  unfold move_to_front. cbn. rewrite List.filter_In.
  destruct (String.eqb m n) eqn:E.
  - apply String.eqb_eq in E. intuition congruence.
  - apply String.eqb_neq in E. cbn. intuition congruence.
Qed.

Lemma NoDup_move_to_front (n : string) (l : list string) :
  List.NoDup l -> List.NoDup (move_to_front n l).
Proof.
  intros Hl. unfold move_to_front. constructor.
  - rewrite List.filter_In, String.eqb_refl. cbn. intuition congruence.
  - now apply List.NoDup_filter.
Qed.

Lemma accepted_is_event (r : Row) :
  accepted event_name_to_event r = true ->
  is_Some (event_name_to_event !! name r).
Proof.
  unfold accepted. rewrite !andb_true_iff. intros [[_ He] _].
  now apply bool_decide_eq_true in He.
Qed.

(** An accepted row moves its name to the front of the list, or adds it
    there. *)
Lemma store_row_accepted_names (now : T) (ms : list Metric) (its : gset string)
    (w : nat) (r : Row) :
  linked ms its -> accepted event_name_to_event r = true ->
  let acc := store_row event_name_to_event now (ms, its, w) r in
  map fst (fst (fst acc)) = move_to_front (name r) (map fst ms)
  /\ linked (fst (fst acc)) (snd (fst acc)).
Proof.
  intros (Hnd & Hits & Hev) Hr. unfold store_row. rewrite Hr. cbn [negb].
  assert (Hlinked : forall its',
             (forall n, n ∈ its' <-> n = name r \/ n ∈ its) ->
             forall ms', map fst ms' = move_to_front (name r) (map fst ms) ->
             linked ms' its').
  { intros its' Hits' ms' Hms'. unfold ProgressTable.linked. rewrite Hms'. split; [|split].
    - now apply NoDup_move_to_front.
    - intros n. rewrite in_move_to_front, Hits', Hits. reflexivity.
    - intros n. rewrite in_move_to_front. intros [->|Hn].
      + now apply accepted_is_event.
      + now apply Hev. }
  destruct (bool_decide (name r ∈ its)) eqn:Hfound.
  - apply bool_decide_eq_true in Hfound.
    destruct (splice_front_names (name r) ms Hnd (proj1 (Hits _) Hfound))
      as (e & rest & -> & He & Hrest & _).
    destruct e as [n0 info]. cbn in He. subst n0. cbn.
    assert (Hms' : name r :: map fst rest = move_to_front (name r) (map fst ms))
      by (unfold move_to_front; now rewrite Hrest).
    split; [exact Hms'|]. apply Hlinked; [|exact Hms'].
    intros n. split; [auto|]. intros [->|Hn]; assumption.
  - apply bool_decide_eq_false in Hfound. cbn.
    assert (Hms' : name r :: map fst ms = move_to_front (name r) (map fst ms)).
    { unfold move_to_front. rewrite filter_other_names; [reflexivity|].
      intros Hin. apply Hfound, Hits, Hin. }
    split; [exact Hms'|]. apply Hlinked; [|exact Hms'].
    intros n. now rewrite elem_of_union, elem_of_singleton.
Qed.

Lemma fold_store_row_names (now : T) (rs : list Row) (ms : list Metric)
    (its : gset string) (w : nat) :
  linked ms its ->
  let acc := fold_left (store_row event_name_to_event now) rs (ms, its, w) in
  map fst (fst (fst acc))
  = fold_left (fun l n => move_to_front n l)
              (map name (List.filter (accepted event_name_to_event) rs))
              (map fst ms)
  /\ linked (fst (fst acc)) (snd (fst acc)).
Proof.
  revert ms its w. induction rs as [|r rs IH]; intros ms its w Hms;
    cbn [fold_left List.filter]; [now split|].
  destruct (accepted event_name_to_event r) eqn:Hr.
  - pose proof (store_row_accepted_names now ms its w r Hms Hr) as [Hn Hl].
    destruct (store_row event_name_to_event now (ms, its, w) r) as [[ms1 its1] w1].
    cbn in Hn, Hl. cbn [map fold_left]. rewrite <- Hn. now apply IH.
  - rewrite store_row_rejected by exact Hr. now apply IH.
Qed.

Lemma filter_twice {A : Type} (f g : A -> bool) (l : list A) :
  List.filter f (List.filter g l) = List.filter (fun x => g x && f x) l.
Proof.
  induction l as [|x l IH]; cbn; [reflexivity|].
  destruct (g x); cbn; [destruct (f x)|]; now rewrite IH.
Qed.

(** Moving names to the front, one after the other, of a list: the moved
    names come first, the other names follow in the order they had. *)
Lemma fold_move_to_front (ns l : list string) :
  fold_left (fun l n => move_to_front n l) ns l
  = fold_left (fun l n => move_to_front n l) ns []
    ++ List.filter (fun m => negb (existsb (String.eqb m) ns)) l.
Proof.
  induction ns as [|n ns IH] using rev_ind; cbn.
  - induction l as [|m l IHl]; cbn; congruence.
  - rewrite !fold_left_app. cbn. rewrite IH. unfold move_to_front at 1 3.
    cbn. f_equal. rewrite List.filter_app. f_equal.
    rewrite filter_twice. apply List.filter_ext. intros m.
    rewrite existsb_app. cbn. now rewrite orb_false_r, negb_orb.
Qed.

Lemma in_fold_move_to_front (ns : list string) (m : string) :
  In m (fold_left (fun l n => move_to_front n l) ns []) <-> In m ns.
Proof.
  induction ns as [|n ns IH] using rev_ind; cbn; [reflexivity|].
  rewrite fold_left_app. cbn [fold_left].
  rewrite in_move_to_front, IH, in_app_iff. cbn. intuition congruence.
Qed.

Lemma NoDup_fold_move_to_front (ns : list string) :
  List.NoDup (fold_left (fun l n => move_to_front n l) ns []).
Proof.
  induction ns as [|n ns IH] using rev_ind; cbn; [constructor|].
  rewrite fold_left_app. cbn. now apply NoDup_move_to_front.
Qed.

Lemma touched_spec (block : Block) (n : string) :
  touched event_name_to_event block n = true
  <-> exists r, In r block /\ accepted event_name_to_event r = true /\ name r = n.
Proof.
  unfold touched. rewrite existsb_exists. split.
  - intros (r & Hr & Hacc). apply andb_true_iff in Hacc as [Hacc Hn].
    apply String.eqb_eq in Hn. eauto.
  - intros (r & Hr & Hacc & Hn). exists r. split; [exact Hr|].
    rewrite Hacc. cbn. now apply String.eqb_eq.
Qed.

Lemma touched_sorted_rows (block : Block) (n : string) :
  existsb (String.eqb n)
          (map name (List.filter (accepted event_name_to_event) (sorted_rows block)))
  = touched event_name_to_event block n.
Proof.
  apply Bool.eq_iff_eq_true. rewrite touched_spec, existsb_exists. split.
  - intros (m & Hm & Hn). apply String.eqb_eq in Hn. subst m.
    apply in_map_iff in Hm as (r & Hr & Hin).
    apply (Permutation_in _ (sorted_rows_accepted_perm event_name_to_event block)) in Hin.
    apply List.filter_In in Hin as [Hin Hacc]. eauto.
  - intros (r & Hin & Hacc & Hn). exists n. split; [|apply String.eqb_refl].
    apply in_map_iff. exists r. split; [exact Hn|].
    apply (Permutation_in _
             (Permutation_sym (sorted_rows_accepted_perm event_name_to_event block))).
    apply List.filter_In. now split.
Qed.

Lemma consistent_new : consistent event_name_to_event (ProgressTable.new (T:=T)).
Proof.
  unfold consistent, linked. cbn. split; [constructor|]. split.
  - intros n. rewrite elem_of_empty. tauto.
  - intros n [].
Qed.

(** After [updateTable] the touched names are in front, each once, and
    the other names follow in their order; the table stays consistent. *)
Lemma updateTable_names (st : @ProgressTable.t T) (block : Block) (now : T) :
  consistent event_name_to_event st ->
  names (updateTable event_name_to_event st block now)
  = fold_left (fun l n => move_to_front n l)
              (map name (List.filter (accepted event_name_to_event) (sorted_rows block)))
              []
    ++ List.filter (fun n => negb (touched event_name_to_event block n)) (names st)
  /\ consistent event_name_to_event (updateTable event_name_to_event st block now).
Proof.
  intros Hst. rewrite updateTable_sorted_rows.
  pose proof (fold_store_row_names now (sorted_rows block) (metrics st)
                (metrics_iterators st) (String.length COLUMN_EVENT_NAME) Hst)
    as [Hn Hl].
  destruct (fold_left _ _ _) as [[ms its] w]. cbn in Hn, Hl.
  unfold names at 1. cbn [metrics]. split; [|exact Hl].
  rewrite Hn, fold_move_to_front. f_equal.
  apply List.filter_ext. intros n. now rewrite touched_sorted_rows.
Qed.

Lemma consistent_ingest (history : list (Block * T)) (st : @ProgressTable.t T) :
  consistent event_name_to_event st ->
  consistent event_name_to_event (ingest event_name_to_event st history).
Proof.
  revert st. induction history as [|[block now] history IH]; intros st Hst;
    [exact Hst|].
  cbn. apply IH. now apply updateTable_names.
Qed.

(** The order of the list after a block. *)
Lemma updateTable_order (st : @ProgressTable.t T) (block : Block) (now : T) :
  consistent event_name_to_event st ->
  exists front,
    names (updateTable event_name_to_event st block now)
    = front ++ List.filter (fun n => negb (touched event_name_to_event block n))
                           (names st)
    /\ List.NoDup front
    /\ (forall n, In n front <-> touched event_name_to_event block n = true)
    /\ consistent event_name_to_event (updateTable event_name_to_event st block now).
Proof.
  intros Hst. destruct (updateTable_names st block now Hst) as [Hn Hc].
  eexists. split; [exact Hn|]. split; [apply NoDup_fold_move_to_front|].
  split; [|exact Hc].
  intros n. rewrite in_fold_move_to_front, <- touched_sorted_rows.
  rewrite existsb_exists. split.
  - intros Hin. exists n. split; [exact Hin | apply String.eqb_refl].
  - intros (m & Hm & Heq). apply String.eqb_eq in Heq. now subst m.
Qed.

End Recency.

(** ** ProgressTable: the touched names are in alphabetical order *)

Section FrontOrder.
Import ProgressTable.
Context {T : Type} `{Double T}.
Variable event_name_to_event : gmap string Event.

Lemma StronglySorted_filter {A : Type} (R : A -> A -> Prop) (f : A -> bool)
    (l : list A) :
  StronglySorted R l -> StronglySorted R (List.filter f l).
Proof.
  induction 1 as [|x l Hl IH Hx]; cbn; [constructor|].
  destruct (f x); [|exact IH]. constructor; [exact IH|].
  rewrite List.Forall_forall in *. intros y Hy.
  apply List.filter_In in Hy as [Hy _]. now apply Hx.
Qed.

Lemma StronglySorted_snoc {A : Type} (R : A -> A -> Prop) (l : list A) (x : A) :
  StronglySorted R (l ++ [x]) ->
  StronglySorted R l /\ List.Forall (fun y => R y x) l.
Proof.
  induction l as [|y l IH]; cbn; intros Hs; [split; constructor|].
  apply StronglySorted_inv in Hs as [Hs Hy].
  destruct (IH Hs) as [Hl Hx]. split.
  - constructor; [exact Hl|].
    rewrite List.Forall_forall in *. intros z Hz. apply Hy, in_app_iff. now left.
  - constructor; [|exact Hx].
    rewrite List.Forall_forall in Hy. apply Hy, in_app_iff. right. now left.
Qed.

(** Names moved to the front in reverse alphabetical order end up in
    alphabetical order. *)
Lemma fold_move_to_front_ascend (ns : list string) :
  StronglySorted (fun a b => String.ltb a b = false) ns ->
  StronglySorted (fun a b => String.ltb a b = true)
                 (fold_left (fun l n => move_to_front n l) ns []).
Proof.
  induction ns as [|n ns IH] using rev_ind; intros Hns; [constructor|].
  apply StronglySorted_snoc in Hns as [Hns Hn].
  rewrite fold_left_app. cbn [fold_left]. unfold move_to_front at 1. constructor.
  - apply StronglySorted_filter, IH, Hns.
  - rewrite List.Forall_forall in *. intros m Hm.
    apply List.filter_In in Hm as [Hm Hne].
    apply (proj1 (in_fold_move_to_front ns m)) in Hm.
    specialize (Hn m Hm). cbn in Hn.
    apply negb_true_iff, String.eqb_neq in Hne.
    destruct (ltb_total n m) as [Hlt|[Heq|Hlt]]; [exact Hlt | congruence | congruence].
Qed.

Lemma sorted_rows_names_descend (block : Block) :
  StronglySorted (fun a b => String.ltb a b = false)
    (map name (List.filter (accepted event_name_to_event) (sorted_rows block))).
Proof.
  rewrite sorted_rows_stable.
  pose proof (StronglySorted_filter _ (accepted event_name_to_event) _
                (stable_sort_descend
                   (List.filter (fun r => N.eqb (thread_id r) THREAD_GROUP_ID) block)))
    as Hs.
  induction Hs as [|r l Hl IH Hr]; cbn; [constructor|].
  constructor; [exact IH|].
  rewrite List.Forall_forall in *. intros n Hn.
  apply in_map_iff in Hn as (r' & <- & Hr'). now apply Hr.
Qed.

(** The touched names are in front in alphabetical order. *)
Lemma updateTable_front_ascend (st : @ProgressTable.t T) (block : Block) (now : T) :
  consistent event_name_to_event st ->
  exists front,
    names (updateTable event_name_to_event st block now)
    = front ++ List.filter (fun n => negb (touched event_name_to_event block n))
                           (names st)
    /\ StronglySorted (fun a b => String.ltb a b = true) front
    /\ (forall n, In n front <-> touched event_name_to_event block n = true).
Proof.
  intros Hst. destruct (updateTable_names event_name_to_event st block now Hst)
    as [Hn _].
  eexists. split; [exact Hn|]. split.
  - apply fold_move_to_front_ascend, sorted_rows_names_descend.
  - intros n. rewrite in_fold_move_to_front, <- touched_sorted_rows.
    rewrite existsb_exists. split.
    + intros Hin. exists n. split; [exact Hin | apply String.eqb_refl].
    + intros (m & Hm & Heq). apply String.eqb_eq in Heq. now subst m.
Qed.

End FrontOrder.

(** C5: on a consistent table, [updateTable] leaves the names that its
    block touched at the front of the list, each once and in alphabetical
    order, the names seen for the first time among them, and the other
    names behind them in the order they had; the table stays consistent.
    Blocks with "A", then "B", then "A" again leave the list as A, B. *)
Theorem touched_names_move_to_front :
  (forall (T : Type) (D : Double T) (event_name_to_event : gmap string ProgressTable.Event)
          (st : @ProgressTable.t T) (block : ProgressTable.Block) (now : T),
      ProgressTable.consistent event_name_to_event st ->
      exists front,
        ProgressTable.names (ProgressTable.updateTable event_name_to_event st block now)
        = front ++ List.filter
                     (fun n => negb (ProgressTable.touched event_name_to_event block n))
                     (ProgressTable.names st)
        /\ List.NoDup front
        /\ StronglySorted (fun a b => String.ltb a b = true) front
        /\ (forall n, In n front
                      <-> ProgressTable.touched event_name_to_event block n = true)
        /\ ProgressTable.consistent event_name_to_event
             (ProgressTable.updateTable event_name_to_event st block now))
  /\ ProgressTable.names
       (ProgressTable.ingest Example.events (ProgressTable.new (T:=Q)) Example.a_b_a)
     = ["A"; "B"].
Proof.
  split.
  - intros T D event_name_to_event st block now Hst.
    destruct (updateTable_order event_name_to_event st block now Hst)
      as (front & Hn & Hnd & Hin & Hc).
    destruct (updateTable_front_ascend event_name_to_event st block now Hst)
      as (front' & Hn' & Hsorted & _).
    rewrite Hn in Hn'. apply app_inv_tail in Hn'. subst front'.
    exists front. auto.
  - vm_compute. reflexivity.
Qed.

Lemma touched_names_move_to_front_witness :
  exists front,
    ProgressTable.names
      (ProgressTable.updateTable Example.events
         (ProgressTable.ingest Example.events (ProgressTable.new (T:=Q))
            (take 2 Example.a_b_a))
         [Example.increment "A" 1] 3%Q)
    = front ++ ["B"]
    /\ (forall n, In n front
                  <-> ProgressTable.touched Example.events [Example.increment "A" 1] n
                      = true).
Proof.
  destruct (proj1 touched_names_move_to_front Q _ Example.events
              (ProgressTable.ingest Example.events (ProgressTable.new (T:=Q))
                 (take 2 Example.a_b_a))
              [Example.increment "A" 1] 3%Q)
    as (front & Hn & _ & _ & Hfront & _).
  - apply consistent_ingest, consistent_new.
  - exists front. split; [|exact Hfront].
    rewrite Hn. f_equal.
Defined.


(** ** ProgressTable: the rows that [updateTable] discards *)

Section Discard.
Import ProgressTable.
Context {T : Type} `{Double T}.
Variable event_name_to_event : gmap string Event.

Local Abbreviation Metric := (@ProgressTable.Metric T).
Local Abbreviation accepted := (ProgressTable.accepted event_name_to_event).
Local Abbreviation store_row := (ProgressTable.store_row event_name_to_event).
Local Abbreviation updateTable := (ProgressTable.updateTable event_name_to_event).

Lemma filter_idem {A : Type} (f : A -> bool) (l : list A) :
  List.filter f (List.filter f l) = List.filter f l.
Proof.
  rewrite filter_twice. apply List.filter_ext. intros x. now destruct (f x).
Qed.

Lemma sorted_rows_filter_accepted (block : Block) :
  List.filter accepted (sorted_rows (List.filter accepted block))
  = List.filter accepted (sorted_rows block).
Proof.
  rewrite !sorted_rows_stable, !filter_stable_sort.
  now rewrite !filter_accepted_thread_group, filter_idem.
Qed.

(** A block and the block without its rejected rows leave the same
    table. *)
Lemma updateTable_filter_accepted (st : @ProgressTable.t T) (block : Block) (now : T) :
  updateTable st (List.filter accepted block) now = updateTable st block now.
Proof.
  rewrite !updateTable_sorted_rows.
  rewrite (fold_store_row_accepted _ now (sorted_rows (List.filter accepted block))).
  rewrite (fold_store_row_accepted _ now (sorted_rows block)).
  now rewrite sorted_rows_filter_accepted.
Qed.

Lemma find_app_skip {A : Type} (f : A -> bool) (a b : list A) (e : A) :
  f e = false -> List.find f (a ++ e :: b) = List.find f (a ++ b).
Proof.
  intros He. induction a as [|x a IH]; cbn.
  - now rewrite He.
  - now rewrite IH.
Qed.

(** A row of another name leaves the node of a name, and its iterator, as
    they are. *)
Lemma store_row_other (now : T) (ms : list Metric) (its : gset string)
    (w : nat) (r : Row) (n : string) :
  linked event_name_to_event ms its -> name r <> n ->
  let acc := store_row now (ms, its, w) r in
  List.find (fun e : Metric => String.eqb (fst e) n) (fst (fst acc))
  = List.find (fun e : Metric => String.eqb (fst e) n) ms
  /\ (n ∈ snd (fst acc) <-> n ∈ its).
Proof.
  intros (Hnd & Hits & Hev) Hne. unfold ProgressTable.store_row.
  destruct (accepted r); cbn [negb]; [|now split].
  apply String.eqb_neq in Hne.
  destruct (bool_decide (name r ∈ its)) eqn:Hfound.
  - apply bool_decide_eq_true in Hfound. cbn [fst snd]. split; [|reflexivity].
    destruct (splice_front_spec (name r) ms)
      as [(a & e & b & -> & He & Ha & ->)|[Hall _]].
    + destruct e as [n0 info]. cbn in He. subst n0. cbn [List.find fst].
      rewrite Hne. symmetry. apply find_app_skip. exact Hne.
    + exfalso. apply Hits in Hfound. apply in_map_iff in Hfound as (x & Hx & Hin).
      rewrite List.Forall_forall in Hall. exact (Hall x Hin Hx).
  - cbn [fst snd List.find]. rewrite Hne. split; [reflexivity|].
    rewrite elem_of_union, elem_of_singleton.
    apply String.eqb_neq in Hne. intuition congruence.
Qed.

Lemma fold_store_row_other (now : T) (rs : list Row) (ms : list Metric)
    (its : gset string) (w : nat) (n : string) :
  linked event_name_to_event ms its ->
  (forall r, In r rs -> accepted r = true -> name r <> n) ->
  let acc := fold_left (store_row now) rs (ms, its, w) in
  List.find (fun e : Metric => String.eqb (fst e) n) (fst (fst acc))
  = List.find (fun e : Metric => String.eqb (fst e) n) ms
  /\ (n ∈ snd (fst acc) <-> n ∈ its).
Proof.
  revert ms its w. induction rs as [|r rs IH]; intros ms its w Hl Hrs;
    cbn [fold_left]; [now split|].
  destruct (accepted r) eqn:Hr.
  - pose proof (store_row_accepted_names event_name_to_event now ms its w r Hl Hr)
      as [_ Hl1].
    pose proof (store_row_other now ms its w r n Hl (Hrs r (or_introl eq_refl) Hr))
      as [Hfind Hin].
    destruct (store_row now (ms, its, w) r) as [[ms1 its1] w1].
    cbn in Hl1, Hfind, Hin.
    destruct (IH ms1 its1 w1 Hl1) as [Hfind' Hin'].
    { intros r' Hr'. apply Hrs. now right. }
    cbn zeta in *. split; [congruence | tauto].
  - rewrite store_row_rejected by exact Hr.
    apply IH; [exact Hl|]. intros r' Hr'. apply Hrs. now right.
Qed.

(** A name that no accepted row of the block carries keeps its node, or
    stays without one. *)
Lemma updateTable_untouched (st : @ProgressTable.t T) (block : Block) (now : T)
    (n : string) :
  consistent event_name_to_event st ->
  touched event_name_to_event block n = false ->
  lookup_metric n (updateTable st block now) = lookup_metric n st
  /\ (n ∈ metrics_iterators (updateTable st block now) <-> n ∈ metrics_iterators st).
Proof.
  intros Hst Hn. rewrite updateTable_sorted_rows.
  pose proof (fold_store_row_other now (sorted_rows block) (metrics st)
                (metrics_iterators st) (String.length COLUMN_EVENT_NAME) n Hst)
    as Hfold.
  destruct Hfold as [Hfind Hin].
  { intros r Hr Hacc Hname.
    assert (Ht : touched event_name_to_event block n = true); [|congruence].
    apply touched_spec. exists r. split; [|now split].
    apply (Permutation_in _ (sorted_rows_perm block)) in Hr.
    now apply List.filter_In in Hr as [Hr _]. }
  destruct (fold_left _ _ _) as [[ms its] w]. cbn in Hfind, Hin.
  unfold lookup_metric. cbn [metrics metrics_iterators].
  now rewrite Hfind.
Qed.

Lemma touched_zero (block : Block) (n : string) :
  (forall r, In r block -> name r = n -> value r = 0%Z) ->
  touched event_name_to_event block n = false.
Proof.
  intros Hzero. destruct (touched event_name_to_event block n) eqn:E; [|reflexivity].
  apply touched_spec in E as (r & Hr & Hacc & Hn).
  unfold ProgressTable.accepted in Hacc. rewrite (Hzero r Hr Hn) in Hacc.
  cbn in Hacc. now rewrite andb_false_r in Hacc.
Qed.

Lemma touched_rejected (block : Block) (n : string) :
  (forall r, In r block -> name r = n -> accepted r = false) ->
  touched event_name_to_event block n = false.
Proof.
  intros Hrej. destruct (touched event_name_to_event block n) eqn:E; [|reflexivity].
  apply touched_spec in E as (r & Hr & Hacc & Hn).
  rewrite (Hrej r Hr Hn) in Hacc. discriminate.
Qed.

(** C4: a row of another thread, with a value of zero or with a name that
    is not an event is discarded: the block leaves the table that the block
    without these rows leaves; on a consistent table, a name whose rows are
    all such rows keeps its node and its iterator as they were, and a name
    that has no node gets none from rows with a value of zero. *)
Theorem rejected_rows_are_discarded (st : @ProgressTable.t T) (block : Block)
    (now : T) :
  updateTable st (List.filter accepted block) now = updateTable st block now
  /\ (forall r, In r block ->
        thread_id r <> THREAD_GROUP_ID \/ value r = 0%Z
        \/ event_name_to_event !! name r = None ->
        accepted r = false)
  /\ (consistent event_name_to_event st ->
      forall n,
        (forall r, In r block -> name r = n -> accepted r = false) ->
        lookup_metric n (updateTable st block now) = lookup_metric n st
        /\ (n ∈ metrics_iterators (updateTable st block now)
            <-> n ∈ metrics_iterators st))
  /\ (consistent event_name_to_event st ->
      forall n,
        (forall r, In r block -> name r = n -> value r = 0%Z) ->
        lookup_metric n st = None ->
        lookup_metric n (updateTable st block now) = None
        /\ n ∉ metrics_iterators (updateTable st block now)).
Proof.
  split; [apply updateTable_filter_accepted|]. split; [|split].
  - intros r _ Hr. unfold ProgressTable.accepted.
    destruct Hr as [Hth|[Hv|He]].
    + apply N.eqb_neq in Hth. now rewrite Hth.
    + rewrite Hv. cbn. apply andb_false_r.
    + rewrite He. rewrite bool_decide_eq_false_2.
      * now rewrite andb_false_r.
      * intros [x Hx]. discriminate.
  - intros Hst n Hrej. apply updateTable_untouched; [exact Hst|].
    now apply touched_rejected.
  - intros Hst n Hzero Hnone.
    destruct (updateTable_untouched st block now n Hst (touched_zero block n Hzero))
      as [Hfind Hin].
    split; [congruence|]. rewrite Hin.
    destruct Hst as (_ & Hits & _). rewrite Hits. intros Hn.
    unfold lookup_metric in Hnone.
    apply in_map_iff in Hn as (e & He & Hin').
    destruct (List.find _ (metrics st)) eqn:Hf; [discriminate|].
    apply (List.find_none _ _ Hf) in Hin'. cbn in Hin'.
    rewrite He, String.eqb_refl in Hin'. discriminate.
Qed.

End Discard.

(** A block with a row of another thread, a row with a value of zero, a
    row that is no event and one row that is stored. *)
Lemma rejected_rows_are_discarded_witness :
  let st := ProgressTable.ingest Example.events (ProgressTable.new (T:=Q))
              Example.long_then_short in
  let block :=
    [ {| ProgressTable.thread_id := 7; ProgressTable.name := "SelectedBytes";
         ProgressTable.host_name := "localhost"; ProgressTable.value := 512;
         ProgressTable.type := ProfileEvents.INCREMENT |};
      Example.increment "SelectedRows" 0;
      Example.increment "NoSuchEvent" 3;
      Example.increment "Query" 5 ] in
  ProgressTable.lookup_metric "SelectedRows"
    (ProgressTable.updateTable Example.events st block 11%Q) = None
  /\ "SelectedRows" ∉ ProgressTable.metrics_iterators
                        (ProgressTable.updateTable Example.events st block 11%Q).
Proof.
  intros st block.
  destruct (rejected_rows_are_discarded Example.events st block 11%Q)
    as (_ & _ & _ & Hzero).
  apply Hzero.
  - apply consistent_ingest, consistent_new.
  - intros r Hr Hn. cbn in Hr.
    destruct Hr as [<-|[<-|[<-|[<-|[]]]]]; try discriminate Hn. reflexivity.
  - vm_compute. reflexivity.
Defined.

(** ** ProgressTable: the final table *)

Section FinalTable.
Import ProgressTable.
Context {T : Type} `{Double T}.
Variable event_name_to_event : gmap string Event.
Variable getValueType : Event -> ProfileEvents.ValueType.
Variable formatReadableQuantity : T -> nat -> string.
Variable formatReadableSizeWithDecimalSuffix : T -> string.
Variable formatReadableTime : T -> string.

Local Abbreviation Metric := (@ProgressTable.Metric T).
Local Abbreviation accepted := (ProgressTable.accepted event_name_to_event).
Local Abbreviation updateTable := (ProgressTable.updateTable event_name_to_event).
Local Abbreviation ingest := (ProgressTable.ingest event_name_to_event).
Local Abbreviation consistent := (ProgressTable.consistent event_name_to_event).
Local Abbreviation formatReadableValue :=
  (ProgressTable.formatReadableValue formatReadableQuantity
     formatReadableSizeWithDecimalSuffix formatReadableTime).
Local Abbreviation final_rows :=
  (ProgressTable.final_rows event_name_to_event getValueType formatReadableQuantity
     formatReadableSizeWithDecimalSuffix formatReadableTime).
Local Abbreviation is_final_line :=
  (ProgressTable.is_final_line event_name_to_event getValueType
     formatReadableQuantity formatReadableSizeWithDecimalSuffix formatReadableTime).
Local Abbreviation writeFinalTable :=
  (ProgressTable.writeFinalTable event_name_to_event getValueType
     formatReadableQuantity formatReadableSizeWithDecimalSuffix formatReadableTime).

Lemma append_empty_r (s : string) : s +:+ EmptyString = s.
Proof.
  induction s as [|c s IH]; [reflexivity|].
  change (String c (s +:+ EmptyString) = String c s). now rewrite IH.
Qed.

Lemma final_rows_total (st : @ProgressTable.t T) (ms : list Metric) :
  (forall n, In n (map fst ms) -> is_Some (event_name_to_event !! n)) ->
  exists lines,
    Forall2 (is_final_line st) ms lines
    /\ final_rows st ms = Some (String.concat EmptyString lines).
Proof.
  induction ms as [|e ms IH]; intros Hev.
  - exists []. split; [constructor | reflexivity].
  - destruct IH as (lines & Hlines & Hrows).
    { intros n Hn. apply Hev. now right. }
    destruct (Hev (fst e) (or_introl eq_refl)) as [event Hevent].
    eexists (_ :: lines). split.
    + constructor; [|exact Hlines]. exists event. split; [exact Hevent|reflexivity].
    + cbn [ProgressTable.final_rows]. unfold final_row. rewrite Hevent. cbn.
      rewrite Hrows. cbn. f_equal.
      destruct lines as [|line lines]; cbn; [|reflexivity].
      apply append_empty_r.
Qed.

End FinalTable.




(** * Further properties *)

(** ** [std::upper_bound]: the binary search *)

Section UpperBound.
Context {V E : Type}.
Variable less : V -> E -> bool.
Variable dflt : E.
Variable a : list E.
Variable value : V.

Lemma div2_lt (len : nat) : len <> 0%nat -> (Nat.div2 len < len)%nat.
Proof. intros Hlen. apply Nat.lt_div2. lia. Qed.

(** The search stays in the part of the array it was given. *)
Lemma upper_bound_loop_range (fuel first len : nat) :
  (first <= upper_bound_loop less dflt a value fuel first len <= first + len)%nat.
Proof.
  revert first len. induction fuel as [|fuel IH]; intros first len;
    cbn [upper_bound_loop]; [lia|].
  destruct (Nat.eqb_spec len 0) as [->|Hlen]; [lia|].
  pose proof (div2_lt len Hlen) as Hhalf.
  destruct (less value (nth (first + Nat.div2 len) a dflt)).
  - specialize (IH first (Nat.div2 len)).
    revert IH Hhalf. generalize (Nat.div2 len). intros d IH Hd. lia.
  - specialize (IH (S (first + Nat.div2 len)) (len - Nat.div2 len - 1)%nat).
    revert IH Hhalf. generalize (Nat.div2 len). intros d IH Hd. lia.
Qed.

(** On a part of the array that [value] splits at [k] (not below the
    elements before [k], below those from [k] on) the search finds [k]. *)
Lemma upper_bound_loop_point (fuel first len k : nat) :
  (len <= fuel)%nat -> (first <= k <= first + len)%nat ->
  (forall i, (first <= i < k)%nat -> less value (nth i a dflt) = false) ->
  (forall i, (k <= i < first + len)%nat -> less value (nth i a dflt) = true) ->
  upper_bound_loop less dflt a value fuel first len = k.
Proof.
  revert first len. induction fuel as [|fuel IH]; intros first len Hfuel Hk Hlo Hhi;
    cbn [upper_bound_loop]; [lia|].
  destruct (Nat.eqb_spec len 0) as [->|Hlen]; [lia|].
  pose proof (div2_lt len Hlen) as Hhalf.
  revert Hhalf IH. generalize (Nat.div2 len). intros half Hhalf IH.
  destruct (less value (nth (first + half) a dflt)) eqn:Hmid.
  - assert (k <= first + half)%nat.
    { destruct (Nat.le_gt_cases k (first + half)) as [Hle|Hgt]; [exact Hle|].
      rewrite Hlo in Hmid by lia. discriminate. }
    apply IH; [lia | lia | exact Hlo |]. intros i Hi. apply Hhi. lia.
  - assert (first + half < k)%nat.
    { destruct (Nat.le_gt_cases k (first + half)) as [Hle|Hgt]; [|exact Hgt].
      rewrite Hhi in Hmid by lia. discriminate. }
    apply IH; [lia | lia | | ].
    + intros i Hi. apply Hlo. lia.
    + intros i Hi. apply Hhi. lia.
Qed.

Lemma upper_bound_range : (upper_bound less dflt a value <= length a)%nat.
Proof.
  unfold upper_bound.
  pose proof (upper_bound_loop_range (length a) 0 (length a)). lia.
Qed.

End UpperBound.

Section UpperBoundSorted.
Context {V E : Type}.
Variable less : V -> E -> bool.
Variable dflt : E.
Variable value : V.

Local Abbreviation splits := (splits less dflt value).

Lemma splits_tail (e : E) (a : list E) : splits (e :: a) -> splits a.
Proof.
  intros Ha i j Hij. apply (Ha (S i) (S j)). cbn. lia.
Qed.

Lemma splits_all_above (e : E) (a : list E) :
  splits (e :: a) -> less value e = true ->
  forall i, (i < length (e :: a))%nat -> less value (nth i (e :: a) dflt) = true.
Proof.
  intros Ha He i Hi. apply (Ha 0%nat i); [lia | exact He].
Qed.

Lemma not_above_above (a : list E) :
  (forall i, (i < length a)%nat -> less value (nth i a dflt) = true) ->
  not_above less value a = 0%nat.
Proof.
  unfold not_above. induction a as [|e a IH]; intros Ha; [reflexivity|].
  assert (He : less value e = true) by (apply (Ha 0%nat); cbn; lia).
  cbn. rewrite He. cbn. apply IH.
  intros i Hi. apply (Ha (S i)). cbn. lia.
Qed.

Lemma not_above_point (a : list E) :
  splits a ->
  (not_above less value a <= length a)%nat
  /\ (forall i, (i < not_above less value a)%nat -> less value (nth i a dflt) = false)
  /\ (forall i, (not_above less value a <= i < length a)%nat ->
                less value (nth i a dflt) = true).
Proof.
  induction a as [|e a IH]; intros Ha.
  - cbn. repeat split; intros; lia.
  - destruct (less value e) eqn:He.
    + rewrite not_above_above by now apply splits_all_above.
      repeat split; [lia | intros; lia |].
      intros i Hi. apply splits_all_above; [exact Ha | exact He | lia].
    + destruct (IH (splits_tail e a Ha)) as (Hlen & Hlo & Hhi).
      assert (Hn : not_above less value (e :: a) = S (not_above less value a)).
      { unfold not_above. cbn. now rewrite He. }
      rewrite Hn. cbn [length]. repeat split; [lia | |].
      * intros [|i] Hi; [exact He | apply Hlo; lia].
      * intros [|i] Hi; [lia | apply Hhi; lia].
Qed.

Lemma upper_bound_not_above (a : list E) :
  splits a -> upper_bound less dflt a value = not_above less value a.
Proof.
  intros Ha. destruct (not_above_point a Ha) as (Hlen & Hlo & Hhi).
  unfold upper_bound. apply upper_bound_loop_point; try lia.
  - intros i Hi. apply Hlo. lia.
  - intros i Hi. apply Hhi. lia.
Qed.

(** X1: on an array that the value splits, as a sorted array does,
    [std::upper_bound] returns the number of elements that the value is not
    below, which is the index of the first element above it. *)
Theorem upper_bound_sorted (a : list E) :
  splits a ->
  upper_bound less dflt a value = not_above less value a
  /\ (forall i, (i < upper_bound less dflt a value)%nat ->
                less value (nth i a dflt) = false)
  /\ (forall i, (upper_bound less dflt a value <= i < length a)%nat ->
                less value (nth i a dflt) = true).
Proof.
  intros Ha. destruct (not_above_point a Ha) as (Hlen & Hlo & Hhi).
  rewrite (upper_bound_not_above a Ha). auto.
Qed.

End UpperBoundSorted.

Lemma upper_bound_sorted_witness :
  upper_bound Nat.ltb 0%nat [1; 3; 3; 7; 9]%nat 3%nat = 3%nat.
Proof.
  destruct (upper_bound_sorted Nat.ltb 0%nat 3%nat [1; 3; 3; 7; 9]%nat) as [-> _].
  - intros i j Hij. cbn in Hij.
    do 5 (destruct i as [|i]; [do 5 (destruct j as [|j]; [cbn; intros; (reflexivity || discriminate || lia)|]); lia|]).
    lia.
  - reflexivity.
Defined.

(** ** The color ladders *)

Section Ladders.

Lemma splits_ascending {V E : Type} (less : V -> E -> bool) (lt : E -> E -> Prop)
    (dflt : E) (value : V) (a : list E) :
  (forall x y, lt x y -> less value x = true -> less value y = true) ->
  StronglySorted lt a -> splits less dflt value a.
Proof.
  intros Hlt Ha. unfold splits. induction Ha as [|e a Ha IH He]; intros i j Hij.
  - cbn in Hij. lia.
  - cbn in Hij. destruct i as [|i], j as [|j]; cbn [nth]; [auto | | lia |].
    + intros Hv. rewrite List.Forall_forall in He.
      apply (Hlt e); [|exact Hv]. apply He, nth_In. lia.
    + apply IH. lia.
Qed.

(** X2: whatever the comparisons answer, each ladder selects one of its
    own colors: the index that [std::upper_bound] returns is within the
    array of colors, also for a rate that is a NaN.  The time ladder throws
    for the value types that are no time, and only for them. *)
Theorem ladder_colors_in_range {T : Type} `{Double T}
    (progress max_progress : T) (value_type : ProfileEvents.ValueType) :
  (progressTier progress max_progress < length count_colors)%nat
  /\ In (setColorForProgress progress max_progress) count_colors
  /\ In (setColorForBytesBasedMetricsProgress progress) bytes_colors
  /\ match setColorForTimeBasedMetricsProgress value_type progress with
     | Some color => is_time_unit value_type = true /\ In color count_colors
     | None => is_time_unit value_type = false
     end.
Proof.
  assert (Htier : (progressTier progress max_progress < length count_colors)%nat).
  { unfold progressTier. destruct (deqb max_progress (dlit 0)); [cbn; lia|].
    pose proof (upper_bound_range dltb (dlit 0) count_fractions
                  (ddiv progress max_progress)) as Hr.
    cbn in *. lia. }
  split; [exact Htier|]. split; [now apply nth_In|]. split.
  - apply nth_In.
    pose proof (upper_bound_range (fun (v : T) e => dltb v (of_Int64 e)) 0%Z
                  bytes_thresholds progress) as Hr.
    cbn [length bytes_thresholds bytes_colors] in *. lia.
  - unfold setColorForTimeBasedMetricsProgress.
    destruct value_type; cbn [time_units is_time_unit]; try reflexivity.
    all: split; [reflexivity|]; apply nth_In.
    all: match goal with
         | |- (upper_bound ?l ?d ?a ?v < _)%nat =>
             pose proof (upper_bound_range l d a v) as Hr
         end; cbn [length count_colors] in *; lia.
Qed.

Lemma bytes_thresholds_ascend : StronglySorted Z.le bytes_thresholds.
Proof.
  unfold bytes_thresholds.
  repeat (apply SSorted_cons || apply SSorted_nil
          || apply List.Forall_cons || apply List.Forall_nil);
    apply Z.leb_le; vm_compute; reflexivity.
Qed.

Lemma bytes_upper_bound_Q (progress : Q) :
  upper_bound (fun (v : Q) e => dltb v (of_Int64 e)) 0%Z bytes_thresholds progress
  = bytes_thresholds_le progress.
Proof.
  rewrite (upper_bound_not_above (fun (v : Q) e => dltb v (of_Int64 e)) 0%Z progress
             bytes_thresholds); cycle 1.
  - apply (splits_ascending _ Z.le); [|apply bytes_thresholds_ascend].
    intros x y Hxy. cbn. rewrite !negb_true_iff.
    destruct (Qle_bool_reflect (inject_Z x) progress) as [|Hx]; [discriminate|].
    destruct (Qle_bool_reflect (inject_Z y) progress) as [Hy|]; [|reflexivity].
    intros _. exfalso. apply Hx. apply Qle_trans with (inject_Z y); [|exact Hy].
    now rewrite <- Zle_Qle.
  - unfold not_above, bytes_thresholds_le. f_equal. apply List.filter_ext.
    intros t. cbn. apply negb_involutive.
Qed.

Lemma bytes_thresholds_le_mono (p1 p2 : Q) :
  (p1 <= p2)%Q -> (bytes_thresholds_le p1 <= bytes_thresholds_le p2)%nat.
Proof.
  intros Hle. unfold bytes_thresholds_le.
  induction bytes_thresholds as [|t l IH]; cbn; [lia|].
  destruct (Qle_bool_reflect (inject_Z t) p1) as [H1|H1],
           (Qle_bool_reflect (inject_Z t) p2) as [H2|H2]; cbn; try lia.
  exfalso. apply H2. now apply Qle_trans with p1.
Qed.

Lemma bytes_thresholds_ascend_binary64 :
  StronglySorted
    (fun x y => PrimFloat.ltb (Binary64.of_Z x) (Binary64.of_Z y) = true)
    bytes_thresholds.
Proof.
  unfold bytes_thresholds.
  repeat (apply SSorted_cons || apply SSorted_nil
          || apply List.Forall_cons || apply List.Forall_nil);
    vm_compute; reflexivity.
Qed.

(** X3: the byte ladder selects the color whose index is the number of
    thresholds (1 Mi, 100 Mi, ... 1000000 Mi bytes a second) at or below the
    rate, so the color never falls back when the rate grows; the seven
    colors are distinct.  In binary64 the index is the number of thresholds
    that the rate is not below, for every rate: a NaN gets the last color. *)
Theorem bytes_color_counts_thresholds :
  (forall progress : Q,
      setColorForBytesBasedMetricsProgress progress
      = nth (bytes_thresholds_le progress) bytes_colors EmptyString)
  /\ (forall p1 p2 : Q,
      (p1 <= p2)%Q -> (bytes_thresholds_le p1 <= bytes_thresholds_le p2)%nat)
  /\ List.NoDup bytes_colors
  /\ (forall progress : float,
      setColorForBytesBasedMetricsProgress progress
      = nth (not_above (fun v e => PrimFloat.ltb v (Binary64.of_Z e)) progress
                       bytes_thresholds)
            bytes_colors EmptyString)
  /\ setColorForBytesBasedMetricsProgress (T:=float) nan
     = nth 6 bytes_colors EmptyString.
Proof.
  split; [|split; [|split; [|split]]].
  - intros progress. unfold setColorForBytesBasedMetricsProgress.
    now rewrite bytes_upper_bound_Q.
  - apply bytes_thresholds_le_mono.
  - apply List.NoDup_count_occ with (decA := string_dec). intros x.
    unfold bytes_colors. cbn [count_occ].
    repeat (destruct (string_dec _ x) as [<-|?]; [vm_compute; lia|]). lia.
  - intros progress. unfold setColorForBytesBasedMetricsProgress. f_equal.
    refine (upper_bound_not_above _ 0%Z progress bytes_thresholds _).
    eapply splits_ascending; [|apply bytes_thresholds_ascend_binary64].
    intros x y Hxy Hx. cbn in *. eapply float_ltb_trans; eassumption.
  - vm_compute. reflexivity.
Qed.

Lemma time_thresholds_le_mono (value_type : ProfileEvents.ValueType) (p1 p2 : Q) :
  (p1 <= p2)%Q ->
  (time_thresholds_le value_type p1 <= time_thresholds_le value_type p2)%nat.
Proof.
  intros Hle. unfold time_thresholds_le.
  induction (time_thresholds value_type) as [|t l IH]; cbn; [lia|].
  destruct (Qle_bool_reflect t p1) as [H1|H1],
           (Qle_bool_reflect t p2) as [H2|H2]; cbn; try lia.
  exfalso. apply H2. now apply Qle_trans with p1.
Qed.

(** X4: for a value type that counts time, the time ladder selects the
    color whose index is the number of thresholds at or below the rate, the
    thresholds being 0.001, 0.01, 0.1 and 1 second of counted time a second
    in the unit of the value type; the index does not decrease when the
    rate grows.  For the other value types it throws.  In binary64 the
    products that the code computes for the thresholds are the same whole
    numbers, and the index is the number of them that the rate is not
    below, for every rate: a NaN gets the last color. *)
Theorem time_color_counts_thresholds
    (value_type : ProfileEvents.ValueType) (progress : Q) :
  setColorForTimeBasedMetricsProgress value_type progress
  = (if is_time_unit value_type
     then Some (nth (time_thresholds_le value_type progress) count_colors EmptyString)
     else None)
  /\ (forall p2 : Q, (progress <= p2)%Q ->
        (time_thresholds_le value_type progress
         <= time_thresholds_le value_type p2)%nat)
  /\ (time_thresholds_le value_type progress < length count_colors)%nat
  /\ (forall rate : float,
      setColorForTimeBasedMetricsProgress value_type rate
      = (if is_time_unit value_type
         then Some (nth (not_above PrimFloat.ltb rate
                                   (map Binary64.lit (time_thresholds value_type)))
                        count_colors EmptyString)
         else None))
  /\ setColorForTimeBasedMetricsProgress (T:=float) value_type nan
     = (if is_time_unit value_type then Some (nth 4 count_colors EmptyString)
        else None).
Proof.
  split; [|split; [|split; [|split]]]; cycle 3.
  - intros rate. unfold setColorForTimeBasedMetricsProgress.
    destruct value_type; cbn [time_units is_time_unit]; try reflexivity.
    all: cbv zeta; f_equal; f_equal.
    all: match goal with
         | |- upper_bound _ _ ?code _ = not_above _ _ ?whole =>
             replace whole with code by (vm_compute; reflexivity)
         end.
    all: refine (upper_bound_not_above PrimFloat.ltb _ rate _ _).
    all: apply (splits_ascending _ (fun x y => PrimFloat.ltb x y = true));
      [intros x y Hxy Hx; eapply float_ltb_trans; eassumption|].
    all: repeat (apply SSorted_cons || apply SSorted_nil
                 || apply List.Forall_cons || apply List.Forall_nil);
      vm_compute; reflexivity.
  - destruct value_type; vm_compute; reflexivity.
  - unfold setColorForTimeBasedMetricsProgress, time_thresholds_le, upper_bound.
    destruct value_type; cbn; try reflexivity; f_equal; f_equal.
    all: q_cases; cbn; try reflexivity; lra.
  - intros p2. apply time_thresholds_le_mono.
  - unfold time_thresholds_le.
    pose proof (List.filter_length_le (fun c => Qle_bool c progress)
                  (time_thresholds value_type)) as Hlen.
    destruct value_type; cbn [time_thresholds length count_colors] in *; lia.
Qed.

End Ladders.

(** ** The column writers *)

Section Writers.

Lemma length_append (s1 s2 : string) :
  String.length (s1 +:+ s2) = (String.length s1 + String.length s2)%nat.
Proof.
  induction s1 as [|c s1 IH]; [reflexivity|].
  change (S (String.length (s1 +:+ s2)) = S (String.length s1 + String.length s2)).
  now rewrite IH.
Qed.

Lemma length_spaces (n : nat) :
  String.length (string_of_list_ascii (repeat " "%char n)) = n.
Proof. induction n as [|n IH]; cbn; congruence. Qed.

Lemma spaces_only (n : nat) :
  List.Forall (fun c => c = " "%char)
              (list_ascii_of_string (string_of_list_ascii (repeat " "%char n))).
Proof. induction n as [|n IH]; cbn; constructor; auto. Qed.

Lemma length_substring (n : nat) (s : string) :
  String.length (substring 0 n s) = Nat.min n (String.length s).
Proof.
  revert s. induction n as [|n IH]; intros [|c s]; cbn; try reflexivity.
  now rewrite IH.
Qed.

Lemma substring_prefix (n : nat) (s : string) :
  String.prefix (substring 0 n s) s = true.
Proof.
  revert s. induction n as [|n IH]; intros [|c s]; cbn; try reflexivity.
  destruct (ascii_dec c c) as [_|Hne]; [apply IH | now elim Hne].
Qed.

(** X5: [writeWithWidth] writes the text and then spaces only, at least
    one: the bytes written are the width of the column, or one more than the
    text when the text does not fit, so a text is never cut and two columns
    never touch. *)
Theorem writeWithWidth_pads (s : string) (width : nat) :
  exists pad,
    writeWithWidth s width = s +:+ pad
    /\ pad <> EmptyString
    /\ List.Forall (fun c => c = " "%char) (list_ascii_of_string pad)
    /\ String.length (writeWithWidth s width)
       = Nat.max width (S (String.length s)).
Proof.
  unfold writeWithWidth. destruct (Nat.leb_spec width (String.length s)) as [Hle|Hlt].
  - exists " ". split; [reflexivity|]. split; [discriminate|]. split.
    + repeat constructor.
    + rewrite length_append. cbn. lia.
  - exists (string_of_list_ascii (repeat " "%char (width - String.length s))).
    split; [reflexivity|]. split; [|split].
    + intros Hpad. apply (f_equal String.length) in Hpad.
      rewrite length_spaces in Hpad. cbn in Hpad. lia.
    + apply spaces_only.
    + rewrite length_append, length_spaces. lia.
Qed.

(** X6: [writeWithWidthStrict] never writes more bytes than the column is
    wide: a text that fits is written as it is, a longer one is cut to the
    width, and when the column is wider than the three bytes of the ellipsis
    the cut text is a prefix of the text followed by the ellipsis. *)
Theorem writeWithWidthStrict_fits (s : string) (width : nat) :
  String.length (writeWithWidthStrict s width) = Nat.min (String.length s) width
  /\ ((String.length s <= width)%nat -> writeWithWidthStrict s width = s)
  /\ ((3 < width < String.length s)%nat ->
      exists head,
        writeWithWidthStrict s width = head +:+ ellipsis
        /\ String.prefix head s = true
        /\ String.length head = (width - 3)%nat)
  /\ ((width <= 3)%nat -> String.prefix (writeWithWidthStrict s width) s = true).
Proof.
  unfold writeWithWidthStrict.
  change (String.length ellipsis) with 3%nat.
  destruct (Nat.ltb_spec width (String.length s)) as [Hlt|Hge];
    destruct (Nat.leb_spec width 3) as [Hw|Hw].
  - split; [rewrite length_substring; lia|]. split; [lia|]. split; [lia|].
    intros _. apply substring_prefix.
  - split; [rewrite length_append, length_substring; cbn; lia|]. split; [lia|].
    split; [|lia]. intros _. exists (substring 0 (width - 3) s).
    split; [reflexivity|]. split; [apply substring_prefix|].
    rewrite length_substring. lia.
  - split; [lia|]. split; [reflexivity|]. split; [lia|].
    intros _. rewrite String.prefix_correct.
    clear. induction s as [|c s IH]; [reflexivity|]. cbn. now rewrite IH.
  - split; [lia|]. split; [reflexivity|]. split; lia.
Qed.

Lemma writeWithWidthStrict_fits_witness :
  writeWithWidthStrict "Number of queries" 20 = "Number of queries"
  /\ (exists head,
        writeWithWidthStrict "Number of queries" 10 = head +:+ ellipsis
        /\ String.prefix head "Number of queries" = true
        /\ String.length head = 7%nat)
  /\ String.prefix (writeWithWidthStrict "Number of queries" 2) "Number of queries"
     = true.
Proof.
  destruct (writeWithWidthStrict_fits "Number of queries" 20) as (_ & Hfit & _).
  destruct (writeWithWidthStrict_fits "Number of queries" 10) as (_ & _ & Hcut & _).
  destruct (writeWithWidthStrict_fits "Number of queries" 2) as (_ & _ & _ & Hsmall).
  split; [apply Hfit; cbn; lia|]. split; [apply Hcut; cbn; lia|].
  apply Hsmall. lia.
Defined.

(** X7: the documentation column is absent (width 0) or at least as wide
    as its title, and then the four columns fill the terminal exactly: the
    subtraction of [getColumnDocumentationWidth] never wraps around. *)
Theorem documentation_width_fills_terminal {T : Type}
    (st : @ProgressTable.t T) (terminal_width : nat) :
  let width := ProgressTable.getColumnDocumentationWidth st terminal_width in
  let fixed := (ProgressTable.column_event_name_width st
                + ProgressTable.COLUMN_VALUE_WIDTH
                + ProgressTable.COLUMN_PROGRESS_WIDTH)%nat in
  (width = 0%nat /\ (terminal_width < fixed + 13)%nat)
  \/ ((13 <= width)%nat /\ (fixed + width)%nat = terminal_width).
Proof.
  cbv zeta. unfold ProgressTable.getColumnDocumentationWidth.
  change ProgressTable.COLUMN_DOCUMENTATION_MIN_WIDTH with 13%nat.
  destruct (Nat.ltb_spec terminal_width
              (ProgressTable.column_event_name_width st
               + ProgressTable.COLUMN_VALUE_WIDTH
               + ProgressTable.COLUMN_PROGRESS_WIDTH + 13)) as [Hlt|Hge].
  - left. split; [reflexivity | exact Hlt].
  - right. split; lia.
Qed.

End Writers.

(** ** MetricInfo: the window, the rate after a gap, the running total *)

Section MetricInfoWindow.
Import MetricInfo.

Lemma wrap64_id (z : Z) : in_Int64 z -> wrap64 z = z.
Proof.
  unfold in_Int64, wrap64. intros Hz.
  rewrite Z.mod_small by lia. lia.
Qed.

Lemma wrap64_add_l (a b : Z) : wrap64 (wrap64 a + b) = wrap64 (a + b).
Proof.
  unfold wrap64.
  replace ((a + 2 ^ 63) mod 2 ^ 64 - 2 ^ 63 + b + 2 ^ 63)%Z
    with ((a + 2 ^ 63) mod 2 ^ 64 + b)%Z by lia.
  rewrite Zplus_mod_idemp_l. f_equal. f_equal. lia.
Qed.

Section AnyArithmetic.
Context {T : Type} `{Double T}.

Lemma updates_snoc (samples : list (Z * T)) (s : Z * T) (m : @MetricInfo.t T) :
  updates m (samples ++ [s]) = updateValue (updates m samples) (fst s) (snd s).
Proof. unfold updates. now rewrite fold_left_app. Qed.

Lemma updateValue_wide_or_empty (m : @MetricInfo.t T) (v : Z) (now : T) :
  dleb (dlit (1 # 2)) (window_length m) = true
  \/ cur_shapshot m = prev_shapshot m ->
  dleb (dlit (1 # 2)) (window_length (updateValue m v now)) = true
  \/ cur_shapshot (updateValue m v now) = prev_shapshot (updateValue m v now).
Proof.
  unfold window_length, updateValue. intros Hm.
  cbn [cur_shapshot prev_shapshot time].
  destruct (dleb (dlit (1 # 2)) (dsub now (time (new_snapshot m)))
            || deqb (time (new_snapshot m)) (dlit 0)); cbn [time].
  - destruct (dleb (dlit (1 # 2)) (dsub now (dsub now (dlit 1)))) eqn:Hrot;
      cbn [time]; [left; exact Hrot | right; reflexivity].
  - destruct (dleb (dlit (1 # 2)) (dsub now (time (cur_shapshot m)))) eqn:Hrot;
      cbn [time]; [left; exact Hrot | exact Hm].
Qed.

Lemma updates_wide_or_empty (samples : list (Z * T)) (m : @MetricInfo.t T) :
  dleb (dlit (1 # 2)) (window_length m) = true
  \/ cur_shapshot m = prev_shapshot m ->
  dleb (dlit (1 # 2)) (window_length (updates m samples)) = true
  \/ cur_shapshot (updates m samples) = prev_shapshot (updates m samples).
Proof.
  revert m. induction samples as [|[v t] samples IH]; intros m Hm; [exact Hm|].
  unfold updates in *. cbn [fold_left fst snd].
  apply IH, updateValue_wide_or_empty, Hm.
Qed.

(** X9: a sample that [updateValue] takes for late (it comes half a second
    or more after the latest one, as the code computes it, or the latest
    time is 0) at a time [t] with [t - (t - 1.0) >= 0.5] restarts the
    window one second back and closes it at the sample: as long as
    [calculateProgress] does not take the series for idle, the rate is the
    change of the value by this sample, divided by [t - (t - 1.0)].  For a
    cumulative series within the range of [Int64] the change is the
    sample. *)
Theorem rate_after_gap_is_the_change (m : @MetricInfo.t T) (v : Z) (t now : T) :
  dleb (dlit (1 # 2)) (dsub t (time (new_snapshot m)))
  || deqb (time (new_snapshot m)) (dlit 0) = true ->
  one_second_back t = true ->
  dleb (dlit (1 # 2)) (dsub now t) = false ->
  let m' := updateValue m v t in
  prev_shapshot m'
  = {| value := value (new_snapshot m); time := dsub t (dlit 1) |}
  /\ cur_shapshot m' = new_snapshot m'
  /\ calculateProgress m' now
     = ddiv (of_Int64 (wrap64 (value (new_snapshot m') - value (new_snapshot m))))
            (dsub t (dsub t (dlit 1)))
  /\ (type m = ProfileEvents.INCREMENT -> in_Int64 v ->
      in_Int64 (value (new_snapshot m) + v) ->
      calculateProgress m' now
      = ddiv (of_Int64 v) (dsub t (dsub t (dlit 1)))).
Proof.
  intros Hgap Hback Hnow m'.
  assert (Hprev : prev_shapshot m'
                  = {| value := value (new_snapshot m); time := dsub t (dlit 1) |}).
  { subst m'. unfold updateValue. cbn [prev_shapshot]. rewrite Hgap. cbn [time].
    unfold one_second_back in Hback. now rewrite Hback. }
  assert (Hcur : cur_shapshot m' = new_snapshot m').
  { subst m'. unfold updateValue. cbn [cur_shapshot new_snapshot]. rewrite Hgap.
    cbn [time]. unfold one_second_back in Hback. now rewrite Hback. }
  assert (Hrate : calculateProgress m' now
                  = ddiv (of_Int64 (wrap64 (value (new_snapshot m')
                                            - value (new_snapshot m))))
                         (dsub t (dsub t (dlit 1)))).
  { unfold calculateProgress. rewrite Hcur, Hprev.
    subst m'. unfold updateValue at 1. cbn [new_snapshot time]. rewrite Hnow.
    reflexivity. }
  split; [exact Hprev|]. split; [exact Hcur|]. split; [exact Hrate|].
  intros Hty Hv Hsum. rewrite Hrate. subst m'. unfold updateValue.
  cbn [new_snapshot value]. rewrite Hty. rewrite (wrap64_id _ Hsum).
  replace (value (new_snapshot m) + v - value (new_snapshot m))%Z with v by lia.
  now rewrite (wrap64_id _ Hv).
Qed.

End AnyArithmetic.

Lemma updateValue_latest (m : @MetricInfo.t float) (v : Z) (now : float) :
  PrimFloat.leb 0.5 (time (new_snapshot (updateValue m v now))
                     - time (cur_shapshot (updateValue m v now))) = false.
Proof.
  unfold updateValue. cbn [new_snapshot cur_shapshot time].
  destruct (dleb (dlit (1 # 2)) (dsub now (time (new_snapshot m)))
            || deqb (time (new_snapshot m)) (dlit 0)); cbn [time].
  - destruct (dleb (dlit (1 # 2)) (dsub now (dsub now (dlit 1)))) eqn:Hrot;
      cbn [time]; [apply float_sub_self | exact Hrot].
  - destruct (dleb (dlit (1 # 2)) (dsub now (time (cur_shapshot m)))) eqn:Hrot;
      cbn [time]; [apply float_sub_self | exact Hrot].
Qed.

Lemma float_zero_div_sub_self (t : float) :
  PrimFloat.is_nan (0 / (t - t)) = true.
Proof.
  unfold PrimFloat.is_nan.
  rewrite FloatAxioms.eqb_spec, FloatAxioms.div_spec, FloatAxioms.sub_spec.
  change (Prim2SF 0) with (S754_zero false). unfold SF64div, SF64sub.
  destruct (Prim2SF t) as [s|s| |s m e]; try destruct s; try reflexivity.
  all: cbn [SFsub]; cbv zeta; rewrite Z.sub_diag; reflexivity.
Qed.

(** X8: after any sequence of [updateValue] calls on a new series, in any
    arithmetic, the window is at least half a second long as the code
    computes it, or it is empty: both ends are the same snapshot.  In
    binary64, whatever the times of the samples, the latest sample is never
    taken for half a second or more after the end of the window, and on an
    empty window [calculateProgress] returns a NaN whenever it does not
    take the series for idle. *)
Theorem rate_window_is_half_a_second :
  (forall (T : Type) (D : Double T) (ty : ProfileEvents.Type_)
          (samples : list (Z * T)),
      let m := updates (new ty) samples in
      dleb (dlit (1 # 2)) (window_length m) = true
      \/ cur_shapshot m = prev_shapshot m)
  /\ (forall (ty : ProfileEvents.Type_) (s : Z * float)
             (samples : list (Z * float)),
      let m := updates (new ty) (s :: samples) in
      PrimFloat.leb 0.5 (time (new_snapshot m) - time (cur_shapshot m)) = false)
  /\ (forall (m : @MetricInfo.t float) (now : float),
      cur_shapshot m = prev_shapshot m ->
      PrimFloat.leb 0.5 (now - time (new_snapshot m)) = false ->
      PrimFloat.is_nan (calculateProgress m now) = true).
Proof.
  split; [|split].
  - intros T D ty samples m. apply updates_wide_or_empty. now right.
  - intros ty s samples m. subst m.
    assert (Hne : s :: samples <> []) by discriminate.
    destruct (exists_last Hne) as (l & x & ->).
    rewrite updates_snoc. apply updateValue_latest.
  - intros m now Heq Hidle. unfold calculateProgress.
    change (dleb (dlit (1 # 2)) (dsub now (time (new_snapshot m))))
      with (PrimFloat.leb 0.5 (now - time (new_snapshot m))).
    rewrite Hidle, Heq, Z.sub_diag.
    exact (float_zero_div_sub_self (time (prev_shapshot m))).
Qed.

End MetricInfoWindow.

(** Samples at 0.1, 0.3 and 0.6 seconds, as binary64 holds them: the
    window is from 0.1 to 0.6. *)
Lemma rate_window_is_half_a_second_witness :
  let m := MetricInfo.updates (T:=float)
             (MetricInfo.new ProfileEvents.INCREMENT)
             [ (5%Z, dlit (1 # 10)); (3%Z, dlit (3 # 10)); (2%Z, dlit (6 # 10)) ] in
  (PrimFloat.leb 0.5 (window_length m) = true
   \/ MetricInfo.cur_shapshot m = MetricInfo.prev_shapshot m)
  /\ PrimFloat.eqb (MetricInfo.time (MetricInfo.prev_shapshot m)) (dlit (1 # 10))
     = true
  /\ PrimFloat.eqb (MetricInfo.time (MetricInfo.cur_shapshot m)) (dlit (6 # 10))
     = true.
Proof.
  intros m. split.
  - exact (proj1 rate_window_is_half_a_second float binary64_Double
             ProfileEvents.INCREMENT
             [ (5%Z, dlit (1 # 10)); (3%Z, dlit (3 # 10)); (2%Z, dlit (6 # 10)) ]).
  - vm_compute. split; reflexivity.
Defined.

(** A cumulative series with a sample of 3 at 1 s and one of 40 at 10 s:
    at 10.25 s the rate is 40 a second. *)
Lemma rate_after_gap_is_the_change_witness :
  let m := MetricInfo.updates (T:=float)
             (MetricInfo.new ProfileEvents.INCREMENT) [ (3%Z, dlit 1) ] in
  MetricInfo.calculateProgress (MetricInfo.updateValue m 40 (dlit 10))
    (dlit (41 # 4))
  = ddiv (of_Int64 40) (dsub (dlit 10) (dsub (dlit 10) (dlit 1))).
Proof.
  intros m.
  apply (rate_after_gap_is_the_change m 40 (dlit 10) (dlit (41 # 4))).
  - reflexivity.
  - reflexivity.
  - reflexivity.
  - reflexivity.
  - unfold in_Int64. lia.
  - unfold in_Int64. vm_compute. split; [discriminate | reflexivity].
Defined.

(** ** MetricInfo: the value of a series *)

Section MetricInfoValue.
Context {T : Type} `{Double T}.
Import MetricInfo.

Lemma updates_increment (samples : list (Z * T)) (m : @MetricInfo.t T) (x : Z) :
  type m = ProfileEvents.INCREMENT ->
  value (new_snapshot m) = wrap64 x ->
  type (updates m samples) = ProfileEvents.INCREMENT
  /\ value (new_snapshot (updates m samples)) = wrap64 (x + sum_values samples).
Proof.
  revert m x. induction samples as [|[v t] samples IH]; intros m x Hty Hx.
  - cbn. rewrite Z.add_0_r. now split.
  - unfold updates in *. cbn [fold_left fst snd].
    destruct (IH (updateValue m v t) (x + v)%Z) as [Hty' Hval].
    + exact Hty.
    + unfold updateValue. cbn. rewrite Hty, Hx. apply wrap64_add_l.
    + split; [exact Hty'|]. rewrite Hval. f_equal.
      unfold sum_values. cbn. lia.
Qed.

Lemma updates_gauge (samples : list (Z * T)) (m : @MetricInfo.t T) :
  type m = ProfileEvents.GAUGE ->
  type (updates m samples) = ProfileEvents.GAUGE
  /\ value (new_snapshot (updates m samples))
     = List.last (map fst samples) (value (new_snapshot m)).
Proof.
  intros Hty. induction samples as [|s samples IH] using rev_ind.
  - now split.
  - rewrite updates_snoc, List.map_app. cbn [map]. rewrite List.last_last.
    destruct IH as [Hty' _]. split; [exact Hty'|].
    unfold updateValue. cbn. now rewrite Hty'.
Qed.

(** X10: the value of a cumulative series is the sum of its samples in
    [Int64] arithmetic, so that a sum within range is read exactly even if
    a partial sum was not; the value of a gauge is its last sample.  The
    times of the samples play no part. *)
Theorem series_value_is_running_total (samples : list (Z * T)) :
  let total := updates (new ProfileEvents.INCREMENT) samples in
  let gauge := updates (new ProfileEvents.GAUGE) samples in
  getValue total = of_Int64 (wrap64 (sum_values samples))
  /\ (in_Int64 (sum_values samples) ->
      getValue total = of_Int64 (sum_values samples))
  /\ getValue gauge = of_Int64 (last_value samples).
Proof.
  intros total gauge.
  destruct (updates_increment samples (new ProfileEvents.INCREMENT) 0
              eq_refl eq_refl) as [_ Htotal].
  destruct (updates_gauge samples (new ProfileEvents.GAUGE) eq_refl) as [_ Hgauge].
  unfold getValue. subst total gauge. rewrite Htotal, Hgauge.
  split; [reflexivity|]. split; [|reflexivity].
  intros Hsum. change (0 + sum_values samples)%Z with (sum_values samples).
  now rewrite (wrap64_id _ Hsum).
Qed.

End MetricInfoValue.

(** ** MetricInfoPerHost: the hosts of an aggregate *)

Section PerHostHosts.
Context {T : Type} `{Double T}.
Import MetricInfoPerHost.

Lemma updateHostValue_lookup (h : @MetricInfoPerHost.t T) (host : string)
    (ty : ProfileEvents.Type_) (v : Z) (now : T) :
  host_to_metric (updateHostValue h host ty v now) !! host
  = Some (MetricInfo.updateValue
            (default (MetricInfo.new ty) (host_to_metric h !! host)) v now).
Proof.
  unfold updateHostValue. cbn. rewrite lookup_insert_eq.
  now destruct (host_to_metric h !! host).
Qed.

Lemma updateHostValue_other (h : @MetricInfoPerHost.t T) (host other : string)
    (ty : ProfileEvents.Type_) (v : Z) (now : T) :
  other <> host ->
  host_to_metric (updateHostValue h host ty v now) !! other
  = host_to_metric h !! other.
Proof.
  intros Hne. unfold updateHostValue. cbn. now rewrite lookup_insert_ne.
Qed.

Lemma run_keeps_kind (calls : list call) (h : @MetricInfoPerHost.t T)
    (host : string) (m : @MetricInfo.t T) :
  host_to_metric h !! host = Some m ->
  exists m', host_to_metric (snd (run h calls)) !! host = Some m'
             /\ MetricInfo.type m' = MetricInfo.type m.
Proof.
  revert h m. induction calls as [|c calls IH]; intros h m Hm.
  - exists m. now split.
  - destruct c as [host' ty v now | now]; cbn [run].
    + destruct (decide (host = host')) as [->|Hne].
      * destruct (IH (updateHostValue h host' ty v now)
                    (MetricInfo.updateValue m v now)) as [m' [Hm' Hty]].
        { rewrite updateHostValue_lookup, Hm. reflexivity. }
        exists m'. split; [exact Hm'|]. rewrite Hty. reflexivity.
      * apply IH. now rewrite updateHostValue_other.
    + destruct (getSummaryProgress h now) as [progress h1] eqn:Hsum.
      assert (Hh1 : host_to_metric h1 = host_to_metric h).
      { unfold getSummaryProgress in Hsum. now inversion Hsum. }
      destruct (IH h1 m) as [m' Hm']; [now rewrite Hh1|].
      destruct (run h1 calls) as [rates h2]. now exists m'.
Qed.

(** X11: a host's series is created by the first update that names the
    host, with the kind of that update; whatever calls follow, the host
    stays in the aggregate and its series keeps that kind, also when a
    later update of the host names the other kind. *)
Theorem host_series_keeps_first_kind (h : @MetricInfoPerHost.t T) (host : string)
    (ty : ProfileEvents.Type_) (v : Z) (now : T) (calls : list call) :
  exists m,
    host_to_metric (snd (run (updateHostValue h host ty v now) calls)) !! host
    = Some m
    /\ MetricInfo.type m
       = match host_to_metric h !! host with
         | Some m0 => MetricInfo.type m0
         | None => ty
         end.
Proof.
  destruct (run_keeps_kind calls (updateHostValue h host ty v now) host _
              (updateHostValue_lookup h host ty v now)) as [m [Hm Hty]].
  exists m. split; [exact Hm|]. rewrite Hty.
  now destruct (host_to_metric h !! host).
Qed.

Lemma isFresh_some (h : @MetricInfoPerHost.t T) (now : T) :
  isFresh h now = true
  <-> exists host m, host_to_metric h !! host = Some m
                     /\ MetricInfo.isFresh m now = true.
Proof.
  unfold isFresh.
  apply (map_fold_weak_ind
           (fun (b : bool) (hm : gmap string (@MetricInfo.t T)) =>
              b = true <-> exists host m, hm !! host = Some m
                                          /\ MetricInfo.isFresh m now = true)).
  - split; [discriminate|]. intros [host [m [Hm _]]].
    now rewrite lookup_empty in Hm.
  - intros i x hm r Hi IH. rewrite orb_true_iff, IH. split.
    + intros [[host [m [Hm Hf]]] | Hx].
      * exists host, m. split; [|exact Hf].
        rewrite lookup_insert_ne; [exact Hm|]. intros ->. congruence.
      * exists i, x. split; [apply lookup_insert_eq | exact Hx].
    + intros [host [m [Hm Hf]]].
      destruct (decide (host = i)) as [->|Hne].
      * rewrite lookup_insert_eq in Hm. injection Hm as ->. now right.
      * rewrite lookup_insert_ne in Hm by congruence. left. now exists host, m.
Qed.

End PerHostHosts.

Section PerHostFreshAny.
Context {T : Type} `{Double T}.
Import MetricInfoPerHost.

Lemma updateHostValue_fresh_any (h : @MetricInfoPerHost.t T) (host : string)
    (ty : ProfileEvents.Type_) (v : Z) (t now : T) :
  deqb t (dlit 0) = false -> dleb (dsub now t) (dlit 3) = true ->
  isFresh (updateHostValue h host ty v t) now = true.
Proof.
  intros Ht Hnow. apply isFresh_some.
  eexists host, _. split; [apply updateHostValue_lookup|].
  unfold MetricInfo.isFresh, MetricInfo.updateValue.
  cbn [MetricInfo.update_time]. now rewrite Ht, Hnow.
Qed.

Lemma updateHostValue_zero_stale (host : string) (ty : ProfileEvents.Type_)
    (v : Z) (now : T) :
  deqb (dlit 0) (dlit 0) = true ->
  isFresh (updateHostValue new host ty v (dlit 0)) now = false.
Proof.
  intros Hzero. apply not_true_is_false. intros Hf.
  apply isFresh_some in Hf as [host' [m [Hm Hf]]].
  destruct (decide (host' = host)) as [->|Hne].
  - rewrite updateHostValue_lookup in Hm. injection Hm as <-.
    revert Hf. unfold MetricInfo.isFresh, MetricInfo.updateValue.
    cbn [MetricInfo.update_time]. now rewrite Hzero.
  - rewrite updateHostValue_other in Hm by exact Hne.
    cbn in Hm. now rewrite lookup_empty in Hm.
Qed.

Lemma sum_zero_any {A : Type} (g : A -> T) (hm : gmap string A) :
  dadd (dlit 0) (dlit 0) = dlit 0 ->
  (forall i a, hm !! i = Some a -> g a = dlit 0) ->
  map_fold (fun _ a acc => dadd acc (g a)) (dlit 0) hm = dlit 0.
Proof.
  intros Hzero.
  apply (map_fold_weak_ind
           (fun (r : T) (hm : gmap string A) =>
              (forall i a, hm !! i = Some a -> g a = dlit 0) -> r = dlit 0)).
  - reflexivity.
  - intros i x m r Hi IH Hall.
    rewrite IH, (Hall i x (lookup_insert_eq m i x)); [exact Hzero|].
    intros j a Hj. apply (Hall j). rewrite lookup_insert_ne; [exact Hj|].
    intros ->. congruence.
Qed.

Lemma getSummaryProgress_idle (h : @MetricInfoPerHost.t T) (now : T) :
  dadd (dlit 0) (dlit 0) = dlit 0 ->
  (forall host m, host_to_metric h !! host = Some m ->
     dleb (dlit (1 # 2)) (dsub now (MetricInfo.time (MetricInfo.new_snapshot m)))
     = true) ->
  fst (getSummaryProgress h now) = dlit 0
  /\ host_to_metric (snd (getSummaryProgress h now)) = host_to_metric h
  /\ (dltb (max_progress h) (dlit 0) = false ->
      getMaxProgress (snd (getSummaryProgress h now)) = max_progress h).
Proof.
  intros Hzero Hidle.
  assert (Hsum : fst (getSummaryProgress h now) = dlit 0).
  { unfold getSummaryProgress. cbn [fst].
    apply (sum_zero_any (fun m => MetricInfo.calculateProgress m now)); [exact Hzero|].
    intros i m Hm. unfold MetricInfo.calculateProgress.
    now rewrite (Hidle i m Hm). }
  split; [exact Hsum|]. split; [reflexivity|]. intros Hmax.
  unfold getMaxProgress, getSummaryProgress in *.
  cbn [fst snd max_progress] in *. rewrite Hsum. unfold dmax. now rewrite Hmax.
Qed.

End PerHostFreshAny.

Section PerHostFresh.
Import MetricInfoPerHost.
Local Open Scope Q_scope.

Lemma Qeq_bool_false (a b : Q) : ~ a == b -> Qeq_bool a b = false.
Proof. intros Hab. now destruct (Qeq_bool_reflect a b). Qed.

Lemma updateHostValue_fresh (h : @MetricInfoPerHost.t Q) (host : string)
    (ty : ProfileEvents.Type_) (v : Z) (t now : Q) :
  ~ t == 0 -> now - t <= 3 ->
  isFresh (updateHostValue h host ty v t) now = true.
Proof.
  intros Ht Hnow. apply updateHostValue_fresh_any.
  - now apply Qeq_bool_false.
  - now apply Qle_bool_iff.
Qed.

(** X12: an aggregate is fresh exactly when one of its hosts is: an empty
    aggregate never is; an update at a time other than zero makes it fresh
    until three seconds later, whatever the other hosts; an update at time
    zero of its only host leaves it not fresh.  In any arithmetic, with
    the comparisons as the code computes them, and in exact arithmetic. *)
Theorem aggregate_is_fresh_with_a_host :
  (forall (T : Type) (D : Double T) (h : @MetricInfoPerHost.t T) (now : T),
      (isFresh h now = true
       <-> exists host m, host_to_metric h !! host = Some m
                          /\ MetricInfo.isFresh m now = true)
      /\ isFresh (T:=T) new now = false
      /\ (forall host ty v t,
          deqb t (dlit 0) = false -> dleb (dsub now t) (dlit 3) = true ->
          isFresh (updateHostValue h host ty v t) now = true)
      /\ (deqb (dlit 0) (dlit 0) = true ->
          forall host ty v,
            isFresh (updateHostValue new host ty v (dlit 0)) now = false))
  /\ (forall (h : @MetricInfoPerHost.t Q) (now : Q),
      (isFresh h now = true
       <-> exists host m, host_to_metric h !! host = Some m
                          /\ MetricInfo.isFresh m now = true)
      /\ isFresh (T:=Q) new now = false
      /\ (forall host ty v t, ~ t == 0 -> now - t <= 3 ->
          isFresh (updateHostValue h host ty v t) now = true)
      /\ (forall host ty v,
          isFresh (updateHostValue new host ty v 0) now = false)).
Proof.
  split.
  - intros T D h now. split; [apply isFresh_some|]. split; [reflexivity|]. split.
    + intros host ty v t. apply updateHostValue_fresh_any.
    + intros Hzero host ty v. now apply updateHostValue_zero_stale.
  - intros h now. split; [apply isFresh_some|]. split; [reflexivity|]. split.
    + intros host ty v t. apply updateHostValue_fresh.
    + intros host ty v.
      exact (updateHostValue_zero_stale (T:=Q) host ty v now eq_refl).
Qed.

(** X14: the rate of an aggregate is the sum of the rates of its hosts:
    it is zero when no host was updated in the last half second, and then
    [getSummaryProgress] leaves a peak that is not negative as it is.  In
    any arithmetic in which [0.0 + 0.0] is [0.0], as in binary64, with the
    comparisons as the code computes them, and in exact arithmetic. *)
Theorem summary_progress_zero_when_idle :
  (forall (T : Type) (D : Double T) (h : @MetricInfoPerHost.t T) (now : T),
      dadd (dlit 0) (dlit 0) = dlit 0 ->
      (forall host m, host_to_metric h !! host = Some m ->
         dleb (dlit (1 # 2))
              (dsub now (MetricInfo.time (MetricInfo.new_snapshot m))) = true) ->
      fst (getSummaryProgress h now) = dlit 0
      /\ host_to_metric (snd (getSummaryProgress h now)) = host_to_metric h
      /\ (dltb (max_progress h) (dlit 0) = false ->
          getMaxProgress (snd (getSummaryProgress h now)) = max_progress h))
  /\ (forall (h : @MetricInfoPerHost.t Q) (now : Q),
      (forall host m, host_to_metric h !! host = Some m ->
         1 # 2 <= now - MetricInfo.time (MetricInfo.new_snapshot m)) ->
      fst (getSummaryProgress h now) == 0
      /\ host_to_metric (snd (getSummaryProgress h now)) = host_to_metric h
      /\ (0 <= max_progress h ->
          getMaxProgress (snd (getSummaryProgress h now)) == max_progress h)).
Proof.
  split.
  - intros T D h now. apply getSummaryProgress_idle.
  - intros h now Hidle.
    assert (Hzero : dadd (dlit 0) (dlit 0) = dlit (T:=Q) 0) by reflexivity.
    destruct (getSummaryProgress_idle h now Hzero) as (Hsum & Hhosts & Hmax).
    { intros host m Hm. apply Qle_bool_iff. exact (Hidle host m Hm). }
    split; [now rewrite Hsum|]. split; [exact Hhosts|]. intros Hpos.
    rewrite Hmax; [reflexivity|].
    cbn. apply negb_false_iff. now apply Qle_bool_iff.
Qed.

End PerHostFresh.

(** One host, updated at 1 s, seen at 2 s, in binary64. *)
Lemma summary_progress_zero_when_idle_witness :
  fst (MetricInfoPerHost.getSummaryProgress
         (MetricInfoPerHost.updateHostValue (T:=float) MetricInfoPerHost.new
            "h" ProfileEvents.INCREMENT 5 (dlit 1))
         (dlit 2))
  = 0%float.
Proof.
  apply (proj1 summary_progress_zero_when_idle float binary64_Double
           (MetricInfoPerHost.updateHostValue (T:=float) MetricInfoPerHost.new
              "h" ProfileEvents.INCREMENT 5 (dlit 1)) (dlit 2)).
  - reflexivity.
  - intros host m Hm.
    destruct (decide (host = "h")) as [->|Hne].
    + rewrite updateHostValue_lookup in Hm. injection Hm as <-. reflexivity.
    + rewrite updateHostValue_other in Hm by exact Hne.
      cbn in Hm. rewrite lookup_empty in Hm. discriminate.
Defined.

(** ** ProgressTable: the aggregate of a name after a block *)

Section TableEntries.
Import ProgressTable.
Context {T : Type} `{Double T}.
Variable event_name_to_event : gmap string Event.

Local Abbreviation Metric := (@ProgressTable.Metric T).
Local Abbreviation accepted := (ProgressTable.accepted event_name_to_event).
Local Abbreviation store_row := (ProgressTable.store_row event_name_to_event).
Local Abbreviation updateTable := (ProgressTable.updateTable event_name_to_event).
Local Abbreviation consistent := (@ProgressTable.consistent T event_name_to_event).
Local Abbreviation named n := (fun e : Metric => String.eqb (fst e) n).

Lemma stable_sort_same_name (n : string) (l : list Row) :
  List.Forall (fun r => name r = n) l -> stable_sort l = l.
Proof.
  induction 1 as [|r l Hr Hl IH]; [reflexivity|].
  change (stable_sort (r :: l)) with (insert_row r (stable_sort l)).
  rewrite IH. destruct Hl as [|r' l' Hr' _]; [reflexivity|].
  cbn [insert_row]. unfold row_before.
  rewrite Hr, Hr', String.eqb_refl. reflexivity.
Qed.

(** The sort of [updateTable] leaves the rows of one name in the order of
    the block. *)
Lemma rows_named_sorted_rows (n : string) (block : Block) :
  rows_named event_name_to_event n (sorted_rows block)
  = rows_named event_name_to_event n block.
Proof.
  unfold rows_named. rewrite sorted_rows_stable, filter_stable_sort.
  rewrite filter_twice.
  assert (Hf : forall l,
             List.filter (fun r => N.eqb (thread_id r) THREAD_GROUP_ID
                                   && (accepted r && String.eqb (name r) n)) l
             = List.filter (fun r => accepted r && String.eqb (name r) n) l).
  { intros l. apply List.filter_ext. intros r. unfold ProgressTable.accepted.
    now destruct (N.eqb (thread_id r) THREAD_GROUP_ID). }
  rewrite Hf. apply (stable_sort_same_name n).
  apply List.Forall_forall. intros r Hr.
  apply List.filter_In in Hr as [_ Hr]. apply andb_true_iff in Hr as [_ Hr].
  now apply String.eqb_eq.
Qed.

Lemma find_skip (n : string) (a l : list Metric) :
  List.Forall (fun x => fst x <> n) a ->
  List.find (named n) (a ++ l) = List.find (named n) l.
Proof.
  induction 1 as [|x a Hx _ IH]; [reflexivity|].
  cbn. apply String.eqb_neq in Hx. now rewrite Hx.
Qed.

Lemma find_absent (n : string) (l : list Metric) :
  ~ In n (map fst l) -> List.find (named n) l = None.
Proof.
  induction l as [|x l IH]; [reflexivity|]. cbn. intros Hn.
  destruct (String.eqb (fst x) n) eqn:E.
  - apply String.eqb_eq in E. tauto.
  - apply IH. tauto.
Qed.

(** An accepted row updates the aggregate of its name, or a new one. *)
Lemma store_row_same (now : T) (ms : list Metric) (its : gset string)
    (w : nat) (r : Row) :
  linked event_name_to_event ms its -> accepted r = true ->
  snd <$> List.find (named (name r)) (fst (fst (store_row now (ms, its, w) r)))
  = Some (MetricInfoPerHost.updateHostValue
            (default MetricInfoPerHost.new (snd <$> List.find (named (name r)) ms))
            (host_name r) (type r) (value r) now).
Proof.
  intros (Hnd & Hits & Hev) Hr. unfold ProgressTable.store_row. rewrite Hr.
  cbn [negb]. destruct (bool_decide (name r ∈ its)) eqn:Hfound.
  - apply bool_decide_eq_true in Hfound. cbn [fst snd].
    destruct (splice_front_spec (name r) ms)
      as [(a & e & b & -> & He & Ha & ->)|[Hall _]].
    + destruct e as [n0 info]. cbn in He. subst n0.
      rewrite (find_skip (name r) a) by exact Ha.
      cbn. now rewrite String.eqb_refl.
    + exfalso. apply Hits in Hfound. apply in_map_iff in Hfound as (x & Hx & Hin).
      rewrite List.Forall_forall in Hall. exact (Hall x Hin Hx).
  - apply bool_decide_eq_false in Hfound. cbn [fst snd].
    rewrite (find_absent (name r) ms).
    + cbn. now rewrite String.eqb_refl.
    + intros Hin. apply Hfound, Hits, Hin.
Qed.

Lemma entry_after_cons (now : T) (r : Row) (rs : list Row)
    (old : option (@MetricInfoPerHost.t T)) :
  entry_after now (r :: rs) old
  = entry_after now rs
      (Some (MetricInfoPerHost.updateHostValue (default MetricInfoPerHost.new old)
               (host_name r) (type r) (value r) now)).
Proof. now destruct rs. Qed.

Lemma fold_store_row_entry (now : T) (rs : list Row) (ms : list Metric)
    (its : gset string) (w : nat) (n : string) :
  linked event_name_to_event ms its ->
  snd <$> List.find (named n) (fst (fst (fold_left (store_row now) rs (ms, its, w))))
  = entry_after now (rows_named event_name_to_event n rs)
      (snd <$> List.find (named n) ms).
Proof.
  revert ms its w. induction rs as [|r rs IH]; intros ms its w Hl;
    [reflexivity|].
  cbn [fold_left]. unfold rows_named in *. cbn [List.filter].
  destruct (accepted r) eqn:Hr; cbn [andb].
  - pose proof (store_row_accepted_names event_name_to_event now ms its w r Hl Hr)
      as [_ Hl1].
    destruct (String.eqb (name r) n) eqn:Hn.
    + apply String.eqb_eq in Hn. subst n.
      pose proof (store_row_same now ms its w r Hl Hr) as Hsame.
      destruct (store_row now (ms, its, w) r) as [[ms1 its1] w1].
      cbn [fst snd] in Hl1, Hsame.
      rewrite (IH ms1 its1 w1 Hl1), Hsame. symmetry. apply entry_after_cons.
    + apply String.eqb_neq in Hn.
      pose proof (store_row_other event_name_to_event now ms its w r n Hl Hn)
        as [Hfind _].
      destruct (store_row now (ms, its, w) r) as [[ms1 its1] w1].
      cbn [fst snd] in Hl1, Hfind.
      now rewrite (IH ms1 its1 w1 Hl1), Hfind.
  - rewrite store_row_rejected by exact Hr. now apply IH.
Qed.

(** After a block, the aggregate of a name is the one it had, or a new
    one, with the accepted rows of that name applied in the order of the
    block. *)
Lemma updateTable_entry (st : @ProgressTable.t T) (block : Block)
    (now : T) (n : string) :
  consistent st ->
  lookup_metric n (updateTable st block now)
  = entry_after now (rows_named event_name_to_event n block)
      (lookup_metric n st).
Proof.
  intros Hst. rewrite updateTable_sorted_rows.
  pose proof (fold_store_row_entry now (sorted_rows block) (metrics st)
                (metrics_iterators st) (String.length COLUMN_EVENT_NAME) n Hst)
    as Hfold.
  destruct (fold_left _ _ _) as [[ms its] w]. cbn [fst snd] in Hfold.
  unfold lookup_metric. cbn [metrics]. rewrite Hfold.
  now rewrite rows_named_sorted_rows.
Qed.

Lemma series_after_cons (now : T) (r : Row) (rs : list Row)
    (old : option (@MetricInfo.t T)) :
  series_after now (r :: rs) old
  = series_after now rs
      (Some (MetricInfo.updateValue (default (MetricInfo.new (type r)) old)
               (value r) now)).
Proof. now destruct rs. Qed.

Lemma apply_rows_series (now : T) (rs : list Row) (host : string)
    (h : @MetricInfoPerHost.t T) :
  MetricInfoPerHost.host_to_metric (apply_rows now rs h) !! host
  = series_after now (rows_of_host host rs)
      (MetricInfoPerHost.host_to_metric h !! host).
Proof.
  revert h. induction rs as [|r rs IH]; intros h; [reflexivity|].
  unfold rows_of_host in *. cbn [List.filter].
  change (apply_rows now (r :: rs) h)
    with (apply_rows now rs
            (MetricInfoPerHost.updateHostValue h (host_name r) (type r) (value r) now)).
  rewrite IH. destruct (String.eqb (host_name r) host) eqn:E.
  - apply String.eqb_eq in E. subst host.
    now rewrite series_after_cons, updateHostValue_lookup.
  - apply String.eqb_neq in E. rewrite updateHostValue_other; congruence.
Qed.

(** X15: after a block, the aggregate of a name is the one it had, or a
    new one, with the accepted rows of that name applied in the order of
    the block, whatever names the block has between them; in it the series
    of a host is the one it had, or a new one of the kind of the first such
    row, with the values of the rows of that name and host as samples at
    the time of the block, in the order of the block. *)
Theorem entry_takes_rows_in_block_order (st : @ProgressTable.t T) (block : Block)
    (now : T) (n : string) :
  consistent st ->
  lookup_metric n (updateTable st block now)
  = entry_after now (rows_named event_name_to_event n block)
      (lookup_metric n st)
  /\ forall host h,
       MetricInfoPerHost.host_to_metric
         (apply_rows now (rows_named event_name_to_event n block) h)
       !! host
       = series_after now
           (rows_of_host host (rows_named event_name_to_event n block))
           (MetricInfoPerHost.host_to_metric h !! host).
Proof.
  intros Hst. split; [now apply updateTable_entry|].
  intros host h. apply apply_rows_series.
Qed.

Lemma apply_rows_snoc (now : T) (rs : list Row) (r : Row)
    (h : @MetricInfoPerHost.t T) :
  apply_rows now (rs ++ [r]) h
  = MetricInfoPerHost.updateHostValue (apply_rows now rs h)
      (host_name r) (type r) (value r) now.
Proof. unfold apply_rows. now rewrite fold_left_app. Qed.

Lemma lookup_metric_In (st : @ProgressTable.t T) (n : string)
    (h : @MetricInfoPerHost.t T) :
  lookup_metric n st = Some h -> In (n, h) (metrics st).
Proof.
  unfold lookup_metric. destruct (List.find _ _) as [[n0 h0]|] eqn:E; [|discriminate].
  cbn. intros [= <-]. apply List.find_some in E as [Hin Hn].
  cbn in Hn. apply String.eqb_eq in Hn. now subst n0.
Qed.

Lemma rows_named_touched (block : Block) (n : string) :
  touched event_name_to_event block n = true
  <-> rows_named event_name_to_event n block <> [].
Proof.
  rewrite touched_spec. unfold rows_named. split.
  - intros (r & Hr & Hacc & Hn) Hnil.
    assert (Hin : In r (List.filter
                         (fun r => accepted r && String.eqb (name r) n) block)).
    { apply List.filter_In. split; [exact Hr|]. rewrite Hacc. cbn.
      now apply String.eqb_eq. }
    rewrite Hnil in Hin. destruct Hin.
  - destruct (List.filter _ block) as [|r rs] eqn:E; [congruence|]. intros _.
    assert (Hin : In r (List.filter
                         (fun r => accepted r && String.eqb (name r) n) block))
      by (rewrite E; now left).
    apply List.filter_In in Hin as [Hr Hacc].
    apply andb_true_iff in Hacc as [Hacc Hn]. apply String.eqb_eq in Hn. eauto.
Qed.

End TableEntries.

Section TableFresh.
Import ProgressTable.
Variable event_name_to_event : gmap string Event.

Lemma updateTable_touched_fresh {T : Type} `{Double T} (st : @ProgressTable.t T)
    (block : Block) (now later : T) (n : string) :
  consistent event_name_to_event st ->
  touched event_name_to_event block n = true ->
  deqb now (dlit 0) = false -> dleb (dsub later now) (dlit 3) = true ->
  (exists h,
      lookup_metric n (updateTable event_name_to_event st block now) = Some h
      /\ MetricInfoPerHost.isFresh h later = true)
  /\ (2 <= getFreshMetricsCount (updateTable event_name_to_event st block now) later)%nat.
Proof.
  intros Hst Ht Hnow Hlater.
  assert (Hfresh : exists h,
             lookup_metric n (updateTable event_name_to_event st block now) = Some h
             /\ MetricInfoPerHost.isFresh h later = true).
  { rewrite (updateTable_entry event_name_to_event st block now n Hst).
    apply rows_named_touched in Ht.
    destruct (exists_last Ht) as (rs0 & r0 & E). rewrite E.
    assert (Hsome : forall old,
               entry_after now (rs0 ++ [r0]) old
               = Some (apply_rows now (rs0 ++ [r0])
                         (default MetricInfoPerHost.new old)))
      by (intros old; now destruct rs0).
    rewrite Hsome. eexists. split; [reflexivity|].
    rewrite apply_rows_snoc.
    now apply updateHostValue_fresh_any. }
  split; [exact Hfresh|]. destruct Hfresh as (h & Hh & Hf).
  apply lookup_metric_In in Hh. unfold getFreshMetricsCount.
  assert (Hin : In (n, h)
                  (List.filter
                     (fun e : @ProgressTable.Metric T =>
                        MetricInfoPerHost.isFresh (snd e) later)
                     (metrics (updateTable event_name_to_event st block now))))
    by (apply List.filter_In; now split).
  destruct (List.filter _ _) as [|e l]; [destruct Hin|]. cbn. lia.
Qed.

(** X16: a block that arrives at a time other than zero makes every name
    it touches fresh: until three seconds later [getFreshMetricsCount]
    counts the header and at least that name, so that the progress table
    has a row to show.  In any arithmetic, with the comparisons as the
    code computes them, and in exact arithmetic. *)
Theorem touched_name_is_fresh :
  (forall (T : Type) (D : Double T) (st : @ProgressTable.t T) (block : Block)
          (now later : T) (n : string),
      consistent event_name_to_event st ->
      touched event_name_to_event block n = true ->
      deqb now (dlit 0) = false -> dleb (dsub later now) (dlit 3) = true ->
      (exists h,
          lookup_metric n (updateTable event_name_to_event st block now) = Some h
          /\ MetricInfoPerHost.isFresh h later = true)
      /\ (2 <= getFreshMetricsCount
                 (updateTable event_name_to_event st block now) later)%nat)
  /\ (forall (st : @ProgressTable.t Q) (block : Block) (now later : Q)
             (n : string),
      consistent event_name_to_event st ->
      touched event_name_to_event block n = true ->
      (~ now == 0)%Q -> (later - now <= 3)%Q ->
      (exists h,
          lookup_metric n (updateTable event_name_to_event st block now) = Some h
          /\ MetricInfoPerHost.isFresh h later = true)
      /\ (2 <= getFreshMetricsCount
                 (updateTable event_name_to_event st block now) later)%nat).
Proof.
  split.
  - intros T D st block now later n. apply updateTable_touched_fresh.
  - intros st block now later n Hst Ht Hnow Hlater.
    apply updateTable_touched_fresh; [exact Hst | exact Ht | |].
    + now apply Qeq_bool_false.
    + now apply Qle_bool_iff.
Qed.

End TableFresh.

(** ** ProgressTable: drawing, resetting, and the tables that are reached *)

Section Drawing.
Import ProgressTable.
Context {T : Type} `{Double T}.
Variable event_name_to_event : gmap string Event.
Variable getValueType : Event -> ProfileEvents.ValueType.
Variable getDocumentation : Event -> string.
Variable formatReadableQuantity : T -> nat -> string.
Variable formatReadableSizeWithDecimalSuffix : T -> string.
Variable formatReadableTime : T -> string.

Local Abbreviation Metric := (@ProgressTable.Metric T).
Local Abbreviation consistent := (@ProgressTable.consistent T event_name_to_event).
Local Abbreviation updateTable := (ProgressTable.updateTable event_name_to_event).
Local Abbreviation write_rows :=
  (ProgressTable.write_rows event_name_to_event getValueType getDocumentation
     formatReadableQuantity formatReadableSizeWithDecimalSuffix formatReadableTime).
Local Abbreviation writeTable :=
  (ProgressTable.writeTable event_name_to_event getValueType getDocumentation
     formatReadableQuantity formatReadableSizeWithDecimalSuffix formatReadableTime).
Local Abbreviation writeFinalTable :=
  (ProgressTable.writeFinalTable event_name_to_event getValueType
     formatReadableQuantity formatReadableSizeWithDecimalSuffix formatReadableTime).
Local Abbreviation reachable :=
  (reachable event_name_to_event getValueType getDocumentation
     formatReadableQuantity formatReadableSizeWithDecimalSuffix formatReadableTime).
Local Abbreviation has_host :=
  (fun e : Metric => MetricInfoPerHost.host_to_metric (snd e) <> ∅).

(** The loop of [writeTable] ends without an exception when the names of
    the list are events, and leaves every node drawn. *)
Lemma write_rows_drawn (st : @ProgressTable.t T) (col_doc_width : nat)
    (elapsed_sec : T) (ms : list Metric) :
  (forall n, In n (map fst ms) -> is_Some (event_name_to_event !! n)) ->
  exists out ms',
    write_rows st col_doc_width elapsed_sec ms = Some (out, ms')
    /\ Forall2 (drawn elapsed_sec) ms ms'.
Proof.
  induction ms as [|[n h] ms IH]; intros Hev.
  - exists EmptyString, []. split; [reflexivity | constructor].
  - destruct IH as (out & ms' & Hrows & Hdrawn).
    { intros m Hm. apply Hev. now right. }
    cbn [ProgressTable.write_rows].
    destruct (MetricInfoPerHost.isFresh h elapsed_sec) eqn:Hfresh; cbn [negb].
    + destruct (Hev n (or_introl eq_refl)) as [event Hevent].
      rewrite Hevent. cbn [mbind option_bind].
      assert (Hcolor : exists color,
                 match getValueType event with
                 | ProfileEvents.Number =>
                     Some (setColorForProgress
                             (fst (MetricInfoPerHost.getSummaryProgress h elapsed_sec))
                             (MetricInfoPerHost.getMaxProgress h))
                 | ProfileEvents.Bytes =>
                     Some (setColorForBytesBasedMetricsProgress
                             (fst (MetricInfoPerHost.getSummaryProgress h elapsed_sec)))
                 | _ => setColorForTimeBasedMetricsProgress (getValueType event)
                          (fst (MetricInfoPerHost.getSummaryProgress h elapsed_sec))
                 end = Some color).
      { destruct (getValueType event); eexists; reflexivity. }
      destruct Hcolor as [color Hcolor].
      unfold MetricInfoPerHost.getSummaryProgress in *. cbn [fst] in Hcolor.
      rewrite Hcolor. cbn [mbind option_bind]. rewrite Hrows.
      cbn [mbind option_bind].
      eexists _, _. split; [reflexivity|].
      constructor; [|exact Hdrawn].
      unfold drawn. cbn [fst snd]. rewrite Hfresh. now repeat split.
    + rewrite Hrows. cbn [mbind option_bind].
      eexists _, _. split; [reflexivity|].
      constructor; [|exact Hdrawn].
      unfold drawn. cbn [fst snd]. rewrite Hfresh. now repeat split.
Qed.

Lemma drawn_hosts (elapsed_sec : T) (ms ms' : list Metric) :
  Forall2 (drawn elapsed_sec) ms ms' -> Forall2 same_hosts ms ms'.
Proof.
  induction 1 as [|e e' ms ms' (Hn & Hh & _) _ IH]; constructor; [|exact IH].
  now split.
Qed.

Lemma same_hosts_refl (ms : list Metric) : Forall2 same_hosts ms ms.
Proof. induction ms; constructor; [now split | assumption]. Qed.

Lemma same_hosts_names (ms ms' : list Metric) :
  Forall2 same_hosts ms ms' -> map fst ms' = map fst ms.
Proof.
  induction 1 as [|e e' ms ms' (Hn & _) _ IH]; [reflexivity|].
  cbn. now rewrite Hn, IH.
Qed.

Lemma same_hosts_fresh (now : T) (ms ms' : list Metric) :
  Forall2 same_hosts ms ms' ->
  length (List.filter (fun e : Metric => MetricInfoPerHost.isFresh (snd e) now) ms')
  = length (List.filter (fun e : Metric => MetricInfoPerHost.isFresh (snd e) now) ms).
Proof.
  induction 1 as [|e e' ms ms' (_ & Hh) _ IH]; [reflexivity|].
  assert (Hf : MetricInfoPerHost.isFresh (snd e') now
               = MetricInfoPerHost.isFresh (snd e) now)
    by (unfold MetricInfoPerHost.isFresh; now rewrite Hh).
  cbn [List.filter]. rewrite Hf.
  destruct (MetricInfoPerHost.isFresh (snd e) now); cbn [length]; now rewrite IH.
Qed.

Lemma same_hosts_final_rows (st st' : @ProgressTable.t T) (ms ms' : list Metric) :
  column_event_name_width st' = column_event_name_width st ->
  Forall2 same_hosts ms ms' ->
  ProgressTable.final_rows event_name_to_event getValueType formatReadableQuantity
    formatReadableSizeWithDecimalSuffix formatReadableTime st' ms'
  = ProgressTable.final_rows event_name_to_event getValueType formatReadableQuantity
      formatReadableSizeWithDecimalSuffix formatReadableTime st ms.
Proof.
  intros Hw. induction 1 as [|e e' ms ms' (Hn & Hh) _ IH]; [reflexivity|].
  cbn [ProgressTable.final_rows]. rewrite IH. f_equal.
  unfold final_row, MetricInfoPerHost.getSummaryValue. now rewrite Hn, Hh, Hw.
Qed.

(** What [writeTable] does to a consistent table. *)
Lemma writeTable_drawn (st : @ProgressTable.t T) (terminal_width : nat)
    (elapsed_sec : T) (show_table toggle_enabled : bool) :
  consistent st ->
  exists out st',
    writeTable st terminal_width elapsed_sec show_table toggle_enabled
    = Some (out, st')
    /\ metrics_iterators st' = metrics_iterators st
    /\ column_event_name_width st' = column_event_name_width st
    /\ Forall2 same_hosts (metrics st) (metrics st')
    /\ (negb show_table && toggle_enabled = false ->
        (column_event_name_width st + COLUMN_VALUE_WIDTH + COLUMN_PROGRESS_WIDTH
         <= terminal_width)%nat ->
        Forall2 (drawn elapsed_sec) (metrics st) (metrics st')).
Proof.
  intros (Hnd & Hits & Hev). unfold ProgressTable.writeTable.
  destruct (negb show_table && toggle_enabled).
  { eexists _, st. split; [reflexivity|]. split; [reflexivity|].
    split; [reflexivity|]. split; [apply same_hosts_refl | discriminate]. }
  destruct (terminal_width <? _)%nat eqn:Hnarrow.
  { eexists _, st. split; [reflexivity|]. split; [reflexivity|].
    split; [reflexivity|]. split; [apply same_hosts_refl|].
    apply Nat.ltb_lt in Hnarrow. lia. }
  destruct (bool_decide (metrics st = [])) eqn:Hempty.
  { eexists _, st. split; [reflexivity|]. split; [reflexivity|].
    split; [reflexivity|]. split; [apply same_hosts_refl|].
    apply bool_decide_eq_true in Hempty. rewrite Hempty. constructor. }
  destruct (write_rows_drawn st (getColumnDocumentationWidth st terminal_width)
              elapsed_sec (metrics st) Hev) as (out & ms' & Hrows & Hdrawn).
  rewrite Hrows. cbn [mbind option_bind].
  eexists _, _. split; [reflexivity|].
  cbn [metrics metrics_iterators column_event_name_width].
  split; [reflexivity|]. split; [reflexivity|].
  split; [now apply (drawn_hosts elapsed_sec) | trivial].
Qed.

Lemma same_hosts_consistent (st st' : @ProgressTable.t T) :
  metrics_iterators st' = metrics_iterators st ->
  Forall2 same_hosts (metrics st) (metrics st') ->
  consistent st -> consistent st'.
Proof.
  intros Hi Hh. unfold ProgressTable.consistent, linked.
  now rewrite Hi, (same_hosts_names _ _ Hh).
Qed.

(** X17: on a consistent table [writeTable] ends without an exception,
    whatever the terminal, the time and the value types of the events.  It
    keeps the iterators, the width of the name column, the names in their
    order and the series of every host, so that the table stays
    consistent, the same nodes are fresh and [writeFinalTable] prints the
    same.  When it draws the table, a node that is not fresh is kept
    whole and a fresh one gets the peak that [getSummaryProgress] sets. *)
Theorem writeTable_only_updates_peaks (st : @ProgressTable.t T)
    (terminal_width : nat) (elapsed_sec : T) (show_table toggle_enabled : bool) :
  consistent st ->
  exists out st',
    writeTable st terminal_width elapsed_sec show_table toggle_enabled
    = Some (out, st')
    /\ consistent st'
    /\ metrics_iterators st' = metrics_iterators st
    /\ column_event_name_width st' = column_event_name_width st
    /\ Forall2 same_hosts (metrics st) (metrics st')
    /\ (forall now, getFreshMetricsCount st' now = getFreshMetricsCount st now)
    /\ (forall width, writeFinalTable st' width = writeFinalTable st width)
    /\ (negb show_table && toggle_enabled = false ->
        (column_event_name_width st + COLUMN_VALUE_WIDTH + COLUMN_PROGRESS_WIDTH
         <= terminal_width)%nat ->
        Forall2 (fun e e' =>
                   snd e'
                   = if MetricInfoPerHost.isFresh (snd e) elapsed_sec
                     then snd (MetricInfoPerHost.getSummaryProgress (snd e)
                                 elapsed_sec)
                     else snd e)
                (metrics st) (metrics st')).
Proof.
  intros Hst.
  destruct (writeTable_drawn st terminal_width elapsed_sec show_table
              toggle_enabled Hst) as (out & st' & Hw & Hi & Hwidth & Hh & Hd).
  exists out, st'. split; [exact Hw|].
  split; [exact (same_hosts_consistent st st' Hi Hh Hst)|].
  split; [exact Hi|]. split; [exact Hwidth|]. split; [exact Hh|].
  split; [|split].
  - intros now. unfold getFreshMetricsCount.
    now rewrite (same_hosts_fresh now _ _ Hh).
  - intros width. unfold ProgressTable.writeFinalTable. rewrite Hwidth.
    rewrite (same_hosts_final_rows st st' _ _ Hwidth Hh).
    assert (Hnil : bool_decide (metrics st' = []) = bool_decide (metrics st = [])).
    { destruct Hh; [reflexivity|].
      rewrite !bool_decide_eq_false_2; [reflexivity | discriminate | discriminate]. }
    now rewrite Hnil.
  - intros Hhint Hwide. specialize (Hd Hhint Hwide).
    clear -Hd.
    induction Hd as [|e e' ms ms' (_ & _ & He) _ IH]; constructor; assumption.
Qed.

Lemma dmax_again (a b : T) : dmax (dmax a b) b = dmax a b.
Proof.
  unfold dmax. destruct (dltb a b) eqn:E.
  - now destruct (dltb b b).
  - now rewrite E.
Qed.

Lemma drawn_again (elapsed_sec : T) (e e' : Metric) :
  drawn elapsed_sec e e' -> drawn elapsed_sec e' e'.
Proof.
  intros (Hn & Hh & He). unfold drawn. split; [reflexivity|].
  split; [reflexivity|].
  assert (Hf : MetricInfoPerHost.isFresh (snd e') elapsed_sec
               = MetricInfoPerHost.isFresh (snd e) elapsed_sec)
    by (unfold MetricInfoPerHost.isFresh; now rewrite Hh).
  rewrite Hf. destruct (MetricInfoPerHost.isFresh (snd e) elapsed_sec);
    [|reflexivity].
  rewrite He at 2. unfold MetricInfoPerHost.getSummaryProgress. cbn [snd].
  rewrite He. cbn [MetricInfoPerHost.host_to_metric MetricInfoPerHost.max_progress
                   MetricInfoPerHost.getSummaryProgress snd].
  now rewrite dmax_again.
Qed.

Lemma drawn_unique (elapsed_sec : T) (ms ms1 ms2 : list Metric) :
  Forall2 (drawn elapsed_sec) ms ms1 -> Forall2 (drawn elapsed_sec) ms ms2 ->
  ms1 = ms2.
Proof.
  intros H1. revert ms2. induction H1 as [|e e1 ms ms1 (Hn1 & _ & He1) _ IH];
    intros ms2 H2; inversion H2 as [|? e2 ? ms2' (Hn2 & _ & He2) Hms2]; subst;
    [reflexivity|].
  f_equal; [|now apply IH].
  destruct e1, e2. cbn in *. congruence.
Qed.

(** X18: drawing twice at the same instant changes the table once: the
    table that [writeTable] leaves is left as it is by the same call. *)
Theorem writeTable_twice (st st' : @ProgressTable.t T) (terminal_width : nat)
    (elapsed_sec : T) (show_table toggle_enabled : bool) (out : string) :
  consistent st ->
  writeTable st terminal_width elapsed_sec show_table toggle_enabled
  = Some (out, st') ->
  exists out',
    writeTable st' terminal_width elapsed_sec show_table toggle_enabled
    = Some (out', st').
Proof.
  intros Hst Hw.
  destruct (writeTable_drawn st terminal_width elapsed_sec show_table
              toggle_enabled Hst) as (out1 & st1 & Hw1 & Hi & Hwidth & Hh & Hd).
  rewrite Hw in Hw1. injection Hw1 as <- <-.
  pose proof (same_hosts_consistent st st' Hi Hh Hst) as Hst'.
  destruct (writeTable_drawn st' terminal_width elapsed_sec show_table
              toggle_enabled Hst') as (out2 & st2 & Hw2 & Hi2 & Hwidth2 & Hh2 & Hd2).
  exists out2. rewrite Hw2. do 2 f_equal.
  assert (Hms : metrics st2 = metrics st').
  { destruct (negb show_table && toggle_enabled) eqn:Hhint.
    - unfold ProgressTable.writeTable in Hw2. rewrite Hhint in Hw2.
      now injection Hw2 as _ <-.
    - destruct (terminal_width
                <? column_event_name_width st' + COLUMN_VALUE_WIDTH
                   + COLUMN_PROGRESS_WIDTH)%nat eqn:Hnarrow.
      + unfold ProgressTable.writeTable in Hw2. rewrite Hhint, Hnarrow in Hw2.
        now injection Hw2 as _ <-.
      + apply Nat.ltb_ge in Hnarrow.
        specialize (Hd2 eq_refl Hnarrow).
        rewrite Hwidth in Hnarrow. specialize (Hd eq_refl Hnarrow).
        apply (drawn_unique elapsed_sec (metrics st')); [exact Hd2|].
        clear -Hd. induction Hd as [|e e' ms ms' He _ IH]; constructor;
          [|exact IH].
        exact (drawn_again elapsed_sec e e' He). }
  destruct st2 as [ms2 its2 w2], st' as [ms' its' w']. cbn in *. congruence.
Qed.

Lemma store_row_has_host (now : T) (acc : list Metric * gset string * nat)
    (r : Row) :
  List.Forall has_host (fst (fst acc)) ->
  List.Forall has_host
    (fst (fst (ProgressTable.store_row event_name_to_event now acc r))).
Proof.
  destruct acc as [[ms its] w]. cbn [fst]. intros Hms.
  unfold ProgressTable.store_row.
  destruct (negb (accepted event_name_to_event r)); [exact Hms|]. cbn [fst].
  assert (Hhead : forall ms1 : list Metric,
             List.Forall has_host (tl ms1) ->
             List.Forall has_host
               match ms1 with
               | [] => []
               | (n, info) :: rest =>
                   (n, MetricInfoPerHost.updateHostValue info (host_name r)
                         (type r) (value r) now) :: rest
               end).
  { intros [|[n info] rest] Hrest; [constructor|].
    constructor; [|exact Hrest]. cbn. apply insert_non_empty. }
  apply Hhead. destruct (bool_decide (name r ∈ its)).
  - destruct (splice_front_spec (name r) ms)
      as [(a & e & b & -> & _ & _ & ->)|[_ ->]].
    + cbn. apply List.Forall_app in Hms as [Ha Hb].
      apply List.Forall_app. split; [exact Ha|]. now inversion Hb.
    + destruct Hms; [constructor | assumption].
  - exact Hms.
Qed.

Lemma fold_store_row_has_host (now : T) (rs : list Row)
    (acc : list Metric * gset string * nat) :
  List.Forall has_host (fst (fst acc)) ->
  List.Forall has_host
    (fst (fst (fold_left (ProgressTable.store_row event_name_to_event now) rs acc))).
Proof.
  revert acc. induction rs as [|r rs IH]; intros acc Hacc; [exact Hacc|].
  cbn [fold_left]. apply IH. now apply store_row_has_host.
Qed.

(** X19: the tables that the member functions reach from the constructor
    are consistent: the names of the list are distinct, they are the keys
    of the iterators, and they are events.  The name column is wider than
    its title, and every node has the series of at least one host. *)
Theorem reachable_tables_are_consistent (st : @ProgressTable.t T) :
  reachable st ->
  consistent st
  /\ (String.length COLUMN_EVENT_NAME < column_event_name_width st)%nat
  /\ List.Forall (fun e : Metric =>
                    MetricInfoPerHost.host_to_metric (snd e) <> ∅) (metrics st).
Proof.
  induction 1 as [|st block now _ (Hst & Hw & Hh)|st _ (Hst & Hw & Hh)
                 |st tw el show toggle out st' _ (Hst & Hw & Hh) Hwrite].
  - split; [apply consistent_new|]. split; [cbn; lia | constructor].
  - split; [now apply updateTable_names|].
    rewrite updateTable_sorted_rows.
    pose proof (fold_store_row_width event_name_to_event now (sorted_rows block)
                  (metrics st) (metrics_iterators st)
                  (String.length COLUMN_EVENT_NAME)) as Hwidth.
    pose proof (fold_store_row_has_host now (sorted_rows block)
                  (metrics st, metrics_iterators st,
                   String.length COLUMN_EVENT_NAME) Hh) as Hhost.
    destruct (fold_left _ _ _) as [[ms its] w]. cbn [fst snd] in Hwidth, Hhost.
    cbn [column_event_name_width metrics]. split; [lia | exact Hhost].
  - split; [|split; [exact Hw | constructor]].
    unfold ProgressTable.consistent, linked. cbn. split; [constructor|]. split.
    + intros n. rewrite elem_of_empty. tauto.
    + intros n [].
  - destruct (writeTable_drawn st tw el show toggle Hst)
      as (out1 & st1 & Hw1 & Hi & Hwidth & Hsame & _).
    rewrite Hwrite in Hw1. injection Hw1 as <- <-.
    split; [exact (same_hosts_consistent st st' Hi Hsame Hst)|].
    split; [now rewrite Hwidth|].
    clear -Hh Hsame. induction Hsame as [|e e' ms ms' (_ & He) _ IH];
      [constructor|].
    inversion Hh; subst. constructor; [now rewrite He | now apply IH].
Qed.

(** X20: [resetTable] forgets the metrics and keeps the width of the name
    column, which the next block replaces: a block leaves a reset table as
    it leaves a new one.  Until then nothing is fresh, [writeFinalTable]
    prints nothing and [writeTable] prints at most the hint. *)
Theorem reset_table_is_as_new (st : @ProgressTable.t T) (block : Block)
    (time_now : T) (terminal_width : nat) (show_table toggle_enabled : bool) :
  updateTable (resetTable st) block time_now
  = updateTable ProgressTable.new block time_now
  /\ consistent (resetTable st)
  /\ column_event_name_width (resetTable st) = column_event_name_width st
  /\ getFreshMetricsCount (resetTable st) time_now = 0%nat
  /\ writeFinalTable (resetTable st) terminal_width = Some EmptyString
  /\ (negb show_table && toggle_enabled = false ->
      writeTable (resetTable st) terminal_width time_now show_table toggle_enabled
      = Some (EmptyString, resetTable st)).
Proof.
  split; [reflexivity|]. split.
  { unfold ProgressTable.consistent, linked. cbn. split; [constructor|]. split.
    - intros n. rewrite elem_of_empty. tauto.
    - intros n []. }
  split; [reflexivity|]. split; [reflexivity|]. split.
  - unfold ProgressTable.writeFinalTable. cbn [metrics resetTable].
    now destruct (terminal_width <? _)%nat.
  - intros Hhint. unfold ProgressTable.writeTable. rewrite Hhint.
    cbn [metrics resetTable]. now destruct (terminal_width <? _)%nat.
Qed.

End Drawing.

Lemma entry_takes_rows_in_block_order_witness :
  let st := ProgressTable.ingest Example.events (ProgressTable.new (T:=Q))
              Example.a_b_a in
  let block := [ Example.increment "A" 2; Example.increment "B" 7;
                 Example.increment "NoSuchEvent" 1; Example.increment "A" 3 ] in
  ProgressTable.lookup_metric "A"
    (ProgressTable.updateTable Example.events st block 4%Q)
  = entry_after 4%Q [ Example.increment "A" 2; Example.increment "A" 3 ]
      (ProgressTable.lookup_metric "A" st).
Proof.
  intros st block.
  destruct (entry_takes_rows_in_block_order Example.events st block 4%Q "A")
    as [Hentry _].
  - apply consistent_ingest, consistent_new.
  - exact Hentry.
Defined.

(** A block at 1 s, seen at 2 s, in binary64. *)
Lemma touched_name_is_fresh_witness :
  (2 <= ProgressTable.getFreshMetricsCount
          (ProgressTable.updateTable Example.events (ProgressTable.new (T:=float))
             [ Example.increment "Query" 5 ] (dlit 1))
          (dlit 2))%nat.
Proof.
  apply (proj1 (touched_name_is_fresh Example.events) float binary64_Double
           (ProgressTable.new (T:=float)) [ Example.increment "Query" 5 ]
           (dlit 1) (dlit 2) "Query").
  - apply consistent_new.
  - vm_compute. reflexivity.
  - reflexivity.
  - reflexivity.
Defined.

Lemma writeTable_only_updates_peaks_witness :
  let st := ProgressTable.ingest Example.events (ProgressTable.new (T:=Q))
              Example.long_then_short in
  exists out st',
    ProgressTable.writeTable Example.events Example.value_type
      Example.documentation Example.readable_quantity Example.readable
      Example.readable st 120 10%Q true true
    = Some (out, st')
    /\ ProgressTable.consistent Example.events st'
    /\ ProgressTable.metrics_iterators st' = ProgressTable.metrics_iterators st.
Proof.
  intros st.
  destruct (writeTable_only_updates_peaks Example.events Example.value_type
              Example.documentation Example.readable_quantity Example.readable
              Example.readable st 120 10%Q true true)
    as (out & st' & Hw & Hc & Hi & _).
  - apply consistent_ingest, consistent_new.
  - exists out, st'. split; [exact Hw|]. split; [exact Hc | exact Hi].
Defined.

Lemma writeTable_twice_witness :
  let st := ProgressTable.ingest Example.events (ProgressTable.new (T:=Q))
              Example.long_then_short in
  match ProgressTable.writeTable Example.events Example.value_type
          Example.documentation Example.readable_quantity Example.readable
          Example.readable st 120 10%Q true true with
  | Some (_, st') =>
      exists out',
        ProgressTable.writeTable Example.events Example.value_type
          Example.documentation Example.readable_quantity Example.readable
          Example.readable st' 120 10%Q true true
        = Some (out', st')
  | None => False
  end.
Proof.
  intros st.
  assert (Hst : ProgressTable.consistent Example.events st)
    by apply consistent_ingest, consistent_new.
  destruct (writeTable_drawn Example.events Example.value_type
              Example.documentation Example.readable_quantity Example.readable
              Example.readable st 120 10%Q true true Hst)
    as (out & st' & Hw & _).
  rewrite Hw.
  exact (writeTable_twice Example.events Example.value_type
           Example.documentation Example.readable_quantity Example.readable
           Example.readable st st' 120 10%Q true true out Hst Hw).
Defined.

Lemma reachable_tables_are_consistent_witness :
  ProgressTable.consistent Example.events
    (ProgressTable.updateTable Example.events
       (ProgressTable.resetTable (ProgressTable.new (T:=Q)))
       [ Example.increment "Query" 5 ] 1%Q).
Proof.
  apply (reachable_tables_are_consistent Example.events Example.value_type
           Example.documentation Example.readable_quantity Example.readable
           Example.readable).
  apply reachable_updateTable, reachable_resetTable, reachable_new.
Defined.

(** ** ProgressTable: a table without a fresh metric *)

Section StaleTable.
Import ProgressTable.
Context {T : Type} `{Double T}.
Variable event_name_to_event : gmap string Event.
Variable getValueType : Event -> ProfileEvents.ValueType.
Variable getDocumentation : Event -> string.
Variable formatReadableQuantity : T -> nat -> string.
Variable formatReadableSizeWithDecimalSuffix : T -> string.
Variable formatReadableTime : T -> string.

Local Abbreviation Metric := (@ProgressTable.Metric T).
Local Abbreviation write_rows :=
  (ProgressTable.write_rows event_name_to_event getValueType getDocumentation
     formatReadableQuantity formatReadableSizeWithDecimalSuffix formatReadableTime).
Local Abbreviation writeTable :=
  (ProgressTable.writeTable event_name_to_event getValueType getDocumentation
     formatReadableQuantity formatReadableSizeWithDecimalSuffix formatReadableTime).

Lemma write_rows_stale (st : @ProgressTable.t T) (col_doc_width : nat)
    (elapsed_sec : T) (ms : list Metric) :
  List.Forall (fun e : Metric =>
                 MetricInfoPerHost.isFresh (snd e) elapsed_sec = false) ms ->
  write_rows st col_doc_width elapsed_sec ms = Some (EmptyString, ms).
Proof.
  induction 1 as [|[n h] ms Hf _ IH]; [reflexivity|].
  cbn [ProgressTable.write_rows]. cbn [snd] in Hf. rewrite Hf. cbn [negb].
  rewrite IH. reflexivity.
Qed.

Lemma filter_stale (elapsed_sec : T) (ms : list Metric) :
  List.Forall (fun e : Metric =>
                 MetricInfoPerHost.isFresh (snd e) elapsed_sec = false) ms ->
  List.filter (fun e : Metric => MetricInfoPerHost.isFresh (snd e) elapsed_sec) ms
  = [].
Proof.
  induction 1 as [|e ms Hf _ IH]; [reflexivity|].
  cbn [List.filter]. now rewrite Hf.
Qed.

(** X21: when the list has metrics and none is fresh, [writeTable] on a
    terminal that is wide enough leaves the table as it is and writes the
    header line alone, with its line feed, followed by a move of the
    cursor by zero lines, whether the names are events or not. *)
Theorem writeTable_stale_writes_header (st : @ProgressTable.t T)
    (terminal_width : nat) (elapsed_sec : T) (show_table toggle_enabled : bool) :
  negb show_table && toggle_enabled = false ->
  (column_event_name_width st + COLUMN_VALUE_WIDTH + COLUMN_PROGRESS_WIDTH
   <= terminal_width)%nat ->
  metrics st <> [] ->
  List.Forall (fun e : Metric =>
                 MetricInfoPerHost.isFresh (snd e) elapsed_sec = false)
              (metrics st) ->
  getFreshMetricsCount st elapsed_sec = 0%nat
  /\ writeTable st terminal_width elapsed_sec show_table toggle_enabled
     = Some ((HIDE_CURSOR
              +:+ newline
             +:+ writeWithWidth COLUMN_EVENT_NAME (column_event_name_width st)
             +:+ writeWithWidth COLUMN_VALUE COLUMN_VALUE_WIDTH
             +:+ writeWithWidth COLUMN_PROGRESS COLUMN_PROGRESS_WIDTH
             +:+ (if Nat.eqb (getColumnDocumentationWidth st terminal_width) 0
                  then EmptyString
                  else writeWithWidth COLUMN_DOCUMENTATION_NAME
                         (getColumnDocumentationWidth st terminal_width))
             +:+ CLEAR_TO_END_OF_LINE)
             +:+ moveUpNLines 0,
             st).
Proof.
  intros Hhint Hwide Hms Hstale.
  assert (Hcount : getFreshMetricsCount st elapsed_sec = 0%nat).
  { unfold getFreshMetricsCount. now rewrite (filter_stale elapsed_sec _ Hstale). }
  split; [exact Hcount|].
  unfold ProgressTable.writeTable. rewrite Hhint.
  apply Nat.ltb_ge in Hwide. rewrite Hwide.
  rewrite bool_decide_eq_false_2 by exact Hms.
  rewrite (write_rows_stale st _ elapsed_sec _ Hstale). cbn [mbind option_bind].
  assert (Hst : {| metrics := metrics st;
                   metrics_iterators := metrics_iterators st;
                   column_event_name_width := column_event_name_width st |} = st)
    by now destruct st.
  rewrite Hst, Hcount. reflexivity.
Qed.

End StaleTable.

Lemma writeTable_stale_writes_header_witness :
  let st := ProgressTable.ingest Example.events (ProgressTable.new (T:=Q))
              Example.long_then_short in
  ProgressTable.writeTable Example.events Example.value_type
    Example.documentation Example.readable_quantity Example.readable
    Example.readable st 120 20%Q true true
  = Some ((HIDE_CURSOR
           +:+ ProgressTable.newline
          +:+ writeWithWidth ProgressTable.COLUMN_EVENT_NAME
                (ProgressTable.column_event_name_width st)
          +:+ writeWithWidth ProgressTable.COLUMN_VALUE
                ProgressTable.COLUMN_VALUE_WIDTH
          +:+ writeWithWidth ProgressTable.COLUMN_PROGRESS
                ProgressTable.COLUMN_PROGRESS_WIDTH
          +:+ (if Nat.eqb (ProgressTable.getColumnDocumentationWidth st 120) 0
               then EmptyString
               else writeWithWidth ProgressTable.COLUMN_DOCUMENTATION_NAME
                      (ProgressTable.getColumnDocumentationWidth st 120))
          +:+ CLEAR_TO_END_OF_LINE)
          +:+ moveUpNLines 0,
          st).
Proof.
  intros st.
  apply (writeTable_stale_writes_header Example.events Example.value_type
           Example.documentation Example.readable_quantity Example.readable
           Example.readable st 120 20%Q true true).
  - reflexivity.
  - vm_compute. lia.
  - vm_compute. discriminate.
  - vm_compute. repeat constructor.
Defined.

(** ** ProgressTable: the final table since the last reset *)

Section FinalTableSinceReset.
Import ProgressTable.
Context {T : Type} `{Double T}.
Variable event_name_to_event : gmap string Event.
Variable getValueType : Event -> ProfileEvents.ValueType.
Variable getDocumentation : Event -> string.
Variable formatReadableQuantity : T -> nat -> string.
Variable formatReadableSizeWithDecimalSuffix : T -> string.
Variable formatReadableTime : T -> string.

Local Abbreviation consistent := (@ProgressTable.consistent T event_name_to_event).
Local Abbreviation recorded :=
  (recorded event_name_to_event getValueType getDocumentation
     formatReadableQuantity formatReadableSizeWithDecimalSuffix formatReadableTime).
Local Abbreviation is_final_line :=
  (ProgressTable.is_final_line event_name_to_event getValueType
     formatReadableQuantity formatReadableSizeWithDecimalSuffix formatReadableTime).
Local Abbreviation writeFinalTable :=
  (ProgressTable.writeFinalTable event_name_to_event getValueType
     formatReadableQuantity formatReadableSizeWithDecimalSuffix formatReadableTime).

(** The list holds the names recorded since the last reset, and no
    other. *)
Lemma recorded_names (log : list string) (st : @ProgressTable.t T) :
  recorded log st ->
  consistent st /\ forall n, In n (names st) <-> In n log.
Proof.
  induction 1 as [|log st block now _ (Hst & Hlog)|log st _ _
                 |log st tw el show toggle out st' _ (Hst & Hlog) Hwrite].
  - split; [apply consistent_new|]. intros n. reflexivity.
  - destruct (updateTable_order event_name_to_event st block now Hst)
      as (front & Hnames & _ & Hfront & Hst').
    split; [exact Hst'|]. intros n.
    rewrite Hnames, !in_app_iff, Hfront, List.filter_In, <- Hlog, in_map_iff.
    rewrite touched_spec.
    destruct (touched event_name_to_event block n) eqn:Ht.
    + apply touched_spec in Ht as (r & Hr & Hacc & Hn). split; intros _; left.
      * exists r. split; [exact Hn|]. apply List.filter_In. now split.
      * exists r. now repeat split.
    + split.
      * intros [(r & Hr & Hacc & Hn)|[Hin _]]; [|now right].
        assert (touched event_name_to_event block n = true); [|congruence].
        apply touched_spec. eauto.
      * intros [(r & Hn & Hr)|Hin]; [|right; now split].
        apply List.filter_In in Hr as [Hr Hacc]. left. eauto.
  - split; [|intros n; reflexivity].
    unfold ProgressTable.consistent, linked. cbn. split; [constructor|]. split.
    + intros n. rewrite elem_of_empty. tauto.
    + intros n [].
  - destruct (writeTable_drawn event_name_to_event getValueType getDocumentation
                formatReadableQuantity formatReadableSizeWithDecimalSuffix
                formatReadableTime st tw el show toggle Hst)
      as (out1 & st1 & Hw1 & Hi & _ & Hsame & _).
    rewrite Hwrite in Hw1. injection Hw1 as <- <-.
    split; [exact (same_hosts_consistent event_name_to_event st st' Hi Hsame Hst)|].
    intros n. unfold names. rewrite (same_hosts_names _ _ Hsame). apply Hlog.
Qed.

(** C9, as the source has it: the list holds, each once, exactly the names
    that accepted rows carried since the table was new or last reset,
    fresh or not, whatever [updateTable] and [writeTable] calls came in
    between.  On a terminal as wide as the name and value columns together,
    [writeFinalTable] writes the header and then, for every node of the
    list in its order, a line with the name and the sum of the latest
    values of its hosts, without color and without regard to time; on a
    narrower terminal it writes nothing. *)
Theorem final_table_lists_recorded_metrics (log : list string)
    (st : @ProgressTable.t T) (terminal_width : nat) :
  recorded log st ->
  (forall n, In n (names st) <-> In n log)
  /\ List.NoDup (names st)
  /\ ((column_event_name_width st + COLUMN_VALUE_WIDTH <= terminal_width)%nat ->
      exists lines,
        Forall2 (is_final_line st) (metrics st) lines
        /\ writeFinalTable st terminal_width
           = Some (if bool_decide (metrics st = []) then EmptyString
                   else newline
                        +:+ writeWithWidth COLUMN_EVENT_NAME (column_event_name_width st)
                        +:+ writeWithWidth COLUMN_VALUE COLUMN_VALUE_WIDTH
                        +:+ String.concat EmptyString lines))
  /\ ((terminal_width < column_event_name_width st + COLUMN_VALUE_WIDTH)%nat ->
      writeFinalTable st terminal_width = Some EmptyString).
Proof.
  intros Hrec. destruct (recorded_names log st Hrec) as [Hst Hlog].
  split; [exact Hlog|]. split; [exact (proj1 Hst)|]. split.
  - intros Hwide. destruct Hst as (_ & _ & Hev).
    destruct (final_rows_total event_name_to_event getValueType
                formatReadableQuantity formatReadableSizeWithDecimalSuffix
                formatReadableTime st (metrics st) Hev)
      as (lines & Hlines & Hrows).
    exists lines. split; [exact Hlines|].
    unfold ProgressTable.writeFinalTable.
    apply Nat.ltb_ge in Hwide. rewrite Hwide.
    destruct (bool_decide (metrics st = [])); [reflexivity|].
    now rewrite Hrows.
  - intros Hnarrow. unfold ProgressTable.writeFinalTable.
    apply Nat.ltb_lt in Hnarrow. now rewrite Hnarrow.
Qed.

End FinalTableSinceReset.

(** C9, as the spec has it, fails twice.  Two metrics were recorded, and
    on a terminal of 30 columns, one less than the 11 and 20 of the two
    columns, the final table is empty.  And after [resetTable] and one more
    block the final table has the metric of that block alone, on a terminal
    of any width: the two recorded before the reset are gone. *)
Lemma final_table_omits_recorded_metrics :
  let st := ProgressTable.ingest Example.events (ProgressTable.new (T:=Q))
              Example.long_then_short in
  let st' := ProgressTable.updateTable Example.events
               (ProgressTable.resetTable st)
               [ Example.increment "SelectedRows" 7 ] 11%Q in
  (ProgressTable.names st = ["Query"; "ReadBufferFromFileDescriptorReadBytes"]
   /\ ProgressTable.column_event_name_width st = 11%nat
   /\ ProgressTable.writeFinalTable Example.events Example.value_type
        Example.readable_quantity Example.readable Example.readable st 30
      = Some EmptyString)
  /\ (ProgressTable.names st' = ["SelectedRows"]
      /\ ProgressTable.writeFinalTable Example.events Example.value_type
           Example.readable_quantity Example.readable Example.readable st' 120
         = Some (ProgressTable.newline
                 +:+ "Event name   Value               "
                 +:+ ProgressTable.newline
                 +:+ "SelectedRows 7                   ")).
Proof. vm_compute. repeat split. Qed.

(** Two blocks, a reset and one more block: the list has the name of the
    last block alone, and on 33 columns the final table has its line. *)
Lemma final_table_lists_recorded_metrics_witness :
  let st := ProgressTable.updateTable Example.events
              (ProgressTable.resetTable
                 (ProgressTable.ingest Example.events (ProgressTable.new (T:=Q))
                    Example.long_then_short))
              [ Example.increment "SelectedRows" 7 ] 11%Q in
  (forall n, In n (ProgressTable.names st) <-> In n ["SelectedRows"])
  /\ exists lines,
       Forall2 (ProgressTable.is_final_line Example.events Example.value_type
                  Example.readable_quantity Example.readable Example.readable st)
               (ProgressTable.metrics st) lines
       /\ ProgressTable.writeFinalTable Example.events Example.value_type
            Example.readable_quantity Example.readable Example.readable st 33
          = Some (ProgressTable.newline
                  +:+ "Event name   Value               "
                  +:+ String.concat EmptyString lines).
Proof.
  intros st.
  assert (Hrec : recorded Example.events Example.value_type Example.documentation
                   Example.readable_quantity Example.readable Example.readable
                   ["SelectedRows"] st).
  { exact (recorded_updateTable _ _ _ _ _ _ [] _
             [ Example.increment "SelectedRows" 7 ] 11%Q
             (recorded_resetTable _ _ _ _ _ _ _ _
                (recorded_updateTable _ _ _ _ _ _ _ _ _ 10%Q
                   (recorded_updateTable _ _ _ _ _ _ _ _ _ 1%Q
                      (recorded_new _ _ _ _ _ _))))). }
  destruct (final_table_lists_recorded_metrics Example.events Example.value_type
              Example.documentation Example.readable_quantity Example.readable
              Example.readable ["SelectedRows"] st 33 Hrec)
    as (Hnames & _ & Hwide & _).
  split; [exact Hnames|].
  destruct Hwide as (lines & Hlines & Hout).
  - vm_compute. lia.
  - exists lines. split; [exact Hlines|]. exact Hout.
Defined.
